(** * HSDS chunk tier: selection algebra, filter resolution and chunk handlers

    A shallow embedding of [hsds/util/dsetUtil.py] and of the request
    handlers of [hsds/chunk_dn.py], with the properties the design document
    states about them.

    Conventions of the embedding:
    - Python [int] is [Z]; [//] and [%] are [Z.div] and [Z.modulo], which
      round towards minus infinity and take the sign of the divisor, as
      Python's do for integers.
    - A Python [slice(start, stop, step)] is the record [slice]; every slice
      the code builds has all three fields set, so [step] is an integer
      (never [None]).  A selection is a list of entries, each a slice or a
      coordinate list.
    - A raised exception is the [Raise] alternative of [result]; the
      constant part of a message is kept, its interpolated values are not.
    - Python [str] is [string], read as a sequence of ASCII code points.
    - Dictionaries are [gmap]s keyed by strings; a JSON object with a fixed
      set of keys is a record with optional fields.
    - A handler is a run in the monad [M]: the calls it makes on the chunk
      store, the kernels and the request body, in order, and the response or
      exception it ends with.  Logging is left out; writing the response
      stream is taken not to fail.  The functions of other modules
      ([get_chunk], [save_chunk], the kernels, ...) are fields of [Env], and
      every statement about a handler holds for all of them.
    - A [while] loop that need not end is given a bound on its iterations and
      returns [None] when the bound is hit; the theorems show the bound is
      never hit on selections of the data model.
    - numpy's arithmetic is followed on [numpy.int64]: products wrap around
      and the remainder by zero is zero.  What numpy does with a number that
      is no [int64] (the float [np.prod] makes of an empty shape, an extent
      beyond 64 bits) is left to the collaborator [np_size_test]. *)

From Stdlib Require Import ZArith Lia Bool List Ascii String DecimalString DecimalZ.
From stdpp Require Import base tactics option list strings gmap.

Local Open Scope Z_scope.

(** ** Exceptions and results *)

Inductive exn : Type :=
  | HTTPBadRequest (reason : string)
  | HTTPInternalServerError (reason : string)
  | HTTPNotFound
  | HTTPServiceUnavailable
  | ValueError (msg : string)
  | KeyError (msg : string)
  | IndexError
  | TypeError
  | AttributeError
  | StopIteration
  | UnboundLocalError
  | ZeroDivisionError.

Inductive result (A : Type) : Type :=
  | Ok (a : A)
  | Raise (e : exn).

Arguments Ok {A} a.
Arguments Raise {A} e.

#[global] Instance result_ret : MRet result := fun A a => Ok a.
#[global] Instance result_bind : MBind result := fun A B f r =>
  match r with
  | Ok a => f a
  | Raise e => Raise e
  end.

#[global] Instance result_fmap : FMap result := fun A B f r =>
  match r with
  | Ok a => Ok (f a)
  | Raise e => Raise e
  end.

Definition is_ok {A : Type} (r : result A) : bool :=
  match r with Ok _ => true | Raise _ => false end.

(** ** Selections *)

Record slice : Type := Slice { sl_start : Z; sl_stop : Z; sl_step : Z }.

Inductive sel_entry : Type :=
  | Range (s : slice)
  | Coords (l : list Z).

Definition isinstance_slice (e : sel_entry) : bool :=
  match e with Range _ => true | Coords _ => false end.

(** Truth value of a Python integer. *)
Definition truthy (z : Z) : bool := negb (z =? 0).

(** Python's [len]. *)
Definition len {A : Type} (l : list A) : Z := Z.of_nat (length l).

(** ** getSelectionShape *)

(** The body of the [isinstance(s, slice)] branch of [getSelectionShape]. *)
Definition slice_extent (s : slice) : Z :=
  let extent := 0 in
  let step := if truthy (sl_step s) && (1 <? sl_step s) then sl_step s else 1 in
  let extent := if sl_start s <? sl_stop s then sl_stop s - sl_start s else extent in
  let extent := if (1 <? step) && (0 <? extent) then extent / step else extent in
  let extent := if negb ((sl_stop s - sl_start s) mod step =? 0) then extent + 1 else extent in
  extent.

Definition shape_mismatch : string :=
  "shape mismatch: indexing arrays could not be broadcast together".

(** The [for i in range(rank)] loop, with the loop state ([shape],
    [coordinate_extent]) passed along. *)
Fixpoint getSelectionShape_loop (selection : list sel_entry)
    (coordinate_extent : option Z) (shape : list Z) : result (list Z) :=
  match selection with
  | [] => Ok shape
  | Range s :: rest =>
      getSelectionShape_loop rest coordinate_extent (shape ++ [slice_extent s])
  | Coords l :: rest =>
      let extent := len l in
      match coordinate_extent with
      | None => getSelectionShape_loop rest (Some extent) (shape ++ [extent])
      | Some ce =>
          if negb (ce =? extent) then Raise (HTTPBadRequest shape_mismatch)
          else getSelectionShape_loop rest coordinate_extent shape
      end
  end.

Definition getSelectionShape (selection : list sel_entry) : result (list Z) :=
  getSelectionShape_loop selection None [].

(** ** getSelectionPagination *)

(** Python's [math.prod]. *)
Definition prod (l : list Z) : Z := fold_right Z.mul 1 l.

(** The extent the search for the pagination dimension computes for one
    entry.  In the source the slice branch also sets a local [step], which
    the search does not use. *)
Definition paginate_extent_of (s : sel_entry) : Z :=
  match s with
  | Range s =>
      let paginate_extent := 0 in
      if sl_start s <? sl_stop s then sl_stop s - sl_start s else paginate_extent
  | Coords l => len l
  end.

(** [for i in range(rank): ... if paginate_extent > 1: paginate_dim = i; break],
    from index [i] with [n] indices left.  [Ok None] is the loop running to its
    end with [paginate_dim] still [None]. *)
Fixpoint find_paginate_dim (select : list sel_entry) (i n : nat)
    : result (option (nat * Z)) :=
  match n with
  | O => Ok None
  | S n' =>
      match select !! i with
      | None => Raise IndexError
      | Some s =>
          let paginate_extent := paginate_extent_of s in
          if 1 <? paginate_extent then Ok (Some (i, paginate_extent))
          else find_paginate_dim select (S i) n'
      end
  end.

(** [if s.step and s.stop > 1: step = s.step else: step = 1] *)
Definition paginate_step (s : slice) : Z :=
  if truthy (sl_step s) && (1 <? sl_stop s) then sl_step s else 1.

(** One iteration's page boundary: the naive [start + page_extent], moved up
    to a multiple of [step], clipped to the slice's stop. *)
Definition page_stop (s : slice) (step page_extent start : Z) : Z :=
  let stop := start + page_extent in
  let stop := if negb (stop mod step =? 0) then stop + (step - stop mod step) else stop in
  let stop := if sl_stop s <? stop then sl_stop s else stop in
  stop.

(** [while start < s.stop: ...] over a slice.  [None] is the loop still
    running after [fuel] iterations. *)
Fixpoint slice_pages (fuel : nat) (s : slice) (step page_extent start : Z)
    : option (list sel_entry) :=
  if start <? sl_stop s then
    match fuel with
    | O => None
    | S fuel' =>
        let stop := page_stop s step page_extent start in
        rest ← slice_pages fuel' s step page_extent stop;
        Some (Range (Slice start stop step) :: rest)
    end
  else Some [].

(** Python's [s[start:stop]] for [0 <= start <= stop]. *)
Definition list_slice {A : Type} (s : list A) (start stop : Z) : list A :=
  take (Z.to_nat (stop - start)) (drop (Z.to_nat start) s).

(** [while start < len(s): ...] over a coordinate list. *)
Fixpoint coord_pages (fuel : nat) (s : list Z) (page_extent start : Z)
    : option (list sel_entry) :=
  if start <? len s then
    match fuel with
    | O => None
    | S fuel' =>
        let stop := start + page_extent in
        let stop := if len s <? stop then len s else stop in
        rest ← coord_pages fuel' s page_extent stop;
        Some (Coords (list_slice s start stop) :: rest)
    end
  else Some [].

(** The inner [for i in range(rank)] of the final assembly, for one page. *)
Fixpoint build_page (select : list sel_entry) (paginate_dim : nat)
    (page : sel_entry) (i n : nat) : result (list sel_entry) :=
  match n with
  | O => Ok []
  | S n' =>
      if Nat.eqb i paginate_dim then
        rest ← build_page select paginate_dim page (S i) n';
        Ok (page :: rest)
      else
        match select !! i with
        | None => Raise IndexError
        | Some s =>
            rest ← build_page select paginate_dim page (S i) n';
            Ok (s :: rest)
        end
  end.

(** The outer [for page in range(page_count)]. *)
Fixpoint build_pagination (select : list sel_entry) (paginate_dim rank : nat)
    (paginate_slices : list sel_entry) : result (list (list sel_entry)) :=
  match paginate_slices with
  | [] => Ok []
  | page :: more =>
      s ← build_page select paginate_dim page 0 rank;
      rest ← build_pagination select paginate_dim rank more;
      Ok (s :: rest)
  end.

Definition no_paginate_dim : string := "unable to determine pagination dimension".
Definition too_many_pages : string := "select pagination unable to paginate select dim".

(** The pages along the pagination dimension. The iteration bounds are
    generous: with [page_extent >= 1] and [step >= 1] every iteration moves
    [start] up by at least one. *)
Definition paginate_slices_of (s : sel_entry) (page_extent : Z)
    : option (list sel_entry) :=
  match s with
  | Range s =>
      slice_pages (Z.to_nat (sl_stop s - sl_start s)) s (paginate_step s)
        page_extent (sl_start s)
  | Coords l => coord_pages (length l) l page_extent 0
  end.

(** [getSelectionPagination(select, dims, itemsize, max_request_size)].
    The outer [option] is [None] only when a [while] loop does not end. *)
Definition getSelectionPagination (select : list sel_entry) (dims : list Z)
    (itemsize max_request_size : Z) : option (result (list (list sel_entry))) :=
  match getSelectionShape select with
  | Raise e => Some (Raise e)
  | Ok select_shape =>
      let select_size := prod select_shape * itemsize in
      if select_size <=? max_request_size then Some (Ok [select])
      else
        let rank := length dims in
        match find_paginate_dim select 0 rank with
        | Raise e => Some (Raise e)
        | Ok None => Some (Raise (ValueError no_paginate_dim))
        | Ok (Some (paginate_dim, paginate_extent)) =>
            if max_request_size =? 0 then Some (Raise ZeroDivisionError)
            else
              let page_count := select_size / max_request_size in
              let page_count := page_count + 1 in
              if page_count =? 0 then Some (Raise ZeroDivisionError)
              else
                (* page_size = select_size // page_count is computed and unused *)
                match select !! paginate_dim with
                | None => Some (Raise IndexError)
                | Some s =>
                    if paginate_extent <? page_count
                    then Some (Raise (ValueError too_many_pages))
                    else
                      let page_extent := paginate_extent / page_count in
                      let page_extent := if page_extent <? 1 then 1 else page_extent in
                      match paginate_slices_of s page_extent with
                      | None => None
                      | Some paginate_slices =>
                          Some (build_pagination select paginate_dim rank paginate_slices)
                      end
                end
        end
  end.

(** ** ItemIterator *)

(** The iterator object.  [__init__] reads [s.start] of every entry, so an
    iterator that was built holds slices only. *)
Record ItemIterator : Type := MkItemIterator {
  it_selection : list slice;
  it_rank : nat;
  it_index : list Z
}.

(** What [next] hands out: the index list, or for rank 1 its only element. *)
Inductive item : Type :=
  | Scalar (i : Z)
  | Tuple (index : list Z).

Fixpoint as_slices (selection : list sel_entry) : result (list slice) :=
  match selection with
  | [] => Ok []
  | Range s :: rest => l ← as_slices rest; Ok (s :: l)
  | Coords _ :: _ => Raise AttributeError
  end.

(** [for i in range(self._rank): self._index[i] = self._selection[i].start] *)
Fixpoint init_index (selection : list slice) (i n : nat) (index : list Z) : list Z :=
  match n with
  | O => index
  | S n' =>
      match selection !! i with
      | Some s => init_index selection (S i) n' (<[i := sl_start s]> index)
      | None => index
      end
  end.

Definition ItemIterator_init (selection : list sel_entry) : result ItemIterator :=
  sl ← as_slices selection;
  let rank := length sl in
  Ok {| it_selection := sl;
        it_rank := rank;
        it_index := init_index sl 0 rank (replicate rank 0) |}.

(** The [while dim >= 0] loop of [next] on [self._index]; the first argument
    [n] is [dim + 1].  The result is [self._index] when [next] returns. *)
Fixpoint next_loop (selection : list slice) (n : nat) (index : list Z) : list Z :=
  match n with
  | O => index
  | S dim =>
      match selection !! dim, index !! dim with
      | Some s, Some v =>
          let index := <[dim := v + sl_step s]> index in
          if v + sl_step s <? sl_stop s then index
          else
            let index := if (0 <? dim)%nat then <[dim := sl_start s]> index else index in
            next_loop selection dim index
      | _, _ => index
      end
  end.

Definition make_item (rank : nat) (index : list Z) : result item :=
  if Nat.eqb rank 1 then
    match index !! 0%nat with
    | Some i => Ok (Scalar i)
    | None => Raise IndexError
    end
  else Ok (Tuple index).

(** [ItemIterator.next]: the item returned and the iterator afterwards. *)
Definition next (it : ItemIterator) : result (item * ItemIterator) :=
  match it_index it !! 0%nat, it_selection it !! 0%nat with
  | Some i0, Some s0 =>
      if sl_stop s0 <=? i0 then Raise StopIteration
      else
        let index := it_index it in
        let index' := next_loop (it_selection it) (it_rank it) (it_index it) in
        x ← make_item (it_rank it) index;
        Ok (x, {| it_selection := it_selection it;
                  it_rank := it_rank it;
                  it_index := index' |})
  | _, _ => Raise IndexError
  end.

(** Calling [next] until it raises [StopIteration]; [None] when [fuel] calls
    were not enough, an error other than [StopIteration] is passed on. *)
Fixpoint items (fuel : nat) (it : ItemIterator) : option (result (list item)) :=
  match fuel with
  | O => None
  | S fuel' =>
      match next it with
      | Raise StopIteration => Some (Ok [])
      | Raise e => Some (Raise e)
      | Ok (x, it') =>
          match items fuel' it' with
          | Some (Ok l) => Some (Ok (x :: l))
          | other => other
          end
      end
  end.

(** ** Strings: the Python string operations the parser uses *)

Definition chars (s : string) : list ascii := list_ascii_of_string s.
Definition of_chars (l : list ascii) : string := string_of_list_ascii l.

Definition code (c : ascii) : Z := Z.of_nat (nat_of_ascii c).

(** [str.isspace] on an ASCII character: tab, line feed, vertical tab, form
    feed, carriage return, the four separators 28..31, and space. *)
Definition isspace (c : ascii) : bool :=
  let n := code c in
  ((9 <=? n) && (n <=? 13)) || ((28 <=? n) && (n <=? 31)) || (n =? 32).

(** The white space [int()] skips at both ends of an ASCII string. *)
Definition int_space (c : ascii) : bool :=
  let n := code c in ((9 <=? n) && (n <=? 13)) || (n =? 32).

Definition isdigit (c : ascii) : bool :=
  let n := code c in (48 <=? n) && (n <=? 57).

Definition eqc (a b : ascii) : bool := Ascii.eqb a b.

(** The digits of a literal: decimal digits, single underscores allowed
    between two digits. [prev] tells whether the previous character was a
    digit. *)
Fixpoint int_digits (cs : list ascii) (acc : Z) (prev : bool) : option Z :=
  match cs with
  | [] => if prev then Some acc else None
  | c :: cs' =>
      if isdigit c then int_digits cs' (acc * 10 + (code c - 48)) true
      else if eqc c "_" then (if prev then int_digits cs' acc false else None)
      else None
  end.

Fixpoint lstrip (cs : list ascii) : list ascii :=
  match cs with
  | c :: cs' => if int_space c then lstrip cs' else cs
  | [] => []
  end.

Definition strip (cs : list ascii) : list ascii := rev (lstrip (rev (lstrip cs))).

(** Python's [int(s)] on a string, base 10: [None] is [ValueError]. *)
Definition py_int (s : string) : option Z :=
  match strip (chars s) with
  | c :: cs =>
      if eqc c "-" then Z.opp <$> int_digits cs 0 false
      else if eqc c "+" then int_digits cs 0 false
      else int_digits (c :: cs) 0 false
  | [] => None
  end.

(** Python's [str(n)] for an integer, also what an f-string prints. *)
Definition str_of_int (n : Z) : string := NilZero.string_of_int (Z.to_int n).

(** [s.split(sep)] for a one-character separator, on character lists;
    [cur] holds the field being read. *)
Fixpoint split_go (sep : ascii) (cs cur : list ascii) : list (list ascii) :=
  match cs with
  | [] => [cur]
  | c :: cs' =>
      if eqc c sep then cur :: split_go sep cs' []
      else split_go sep cs' (cur ++ [c])
  end.

Definition split (sep : ascii) (s : string) : list string :=
  of_chars <$> split_go sep (chars s) [].

(** [s[1:-1]] *)
Definition strip_ends (s : string) : string :=
  of_chars (removelast (tail (chars s))).

Definition startswith (c : ascii) (s : string) : bool :=
  match chars s with
  | c' :: _ => eqc c' c
  | [] => false
  end.

(** [s.find(c) >= 0] *)
Definition contains (c : ascii) (s : string) : bool :=
  existsb (fun c' => eqc c' c) (chars s).

(** [sep.join(l)] *)
Fixpoint join (sep : string) (l : list string) : string :=
  match l with
  | [] => ""
  | [x] => x
  | x :: rest => x ++ sep ++ join sep rest
  end.

(** ** _getSelectionStringFromRequestBody *)

(** A value of the request body: an integer or a list of integers. *)
Inductive bval : Type :=
  | BInt (n : Z)
  | BList (l : list Z).

(** [if not isinstance(v, (list, tuple)): v = [v, ]] *)
Definition listify (v : bval) : list Z :=
  match v with
  | BInt n => [n]
  | BList l => l
  end.

(** The [for i in range(rank)] loop, appending to [selection]. *)
Fixpoint body_dims (start_val stop_val : list Z) (step_val : option (list Z))
    (i n : nat) (rank : nat) (selection : list string) : result (list string) :=
  match n with
  | O => Ok selection
  | S n' =>
      match start_val !! i, stop_val !! i with
      | Some a, Some b =>
          let dim_sel := (str_of_int a ++ ":" ++ str_of_int b)%string in
          dim_sel ←
            match step_val with
            | Some ((_ :: _) as steps) =>
                match steps !! i with
                | Some c => Ok (dim_sel ++ ":" ++ str_of_int c)%string
                | None => Raise IndexError
                end
            | _ => Ok dim_sel
            end;
          let selection := selection ++ [dim_sel] in
          let selection := if (i + 1 <? rank)%nat then selection ++ [","%string] else selection in
          body_dims start_val stop_val step_val (S i) n' rank selection
      | _, _ => Raise IndexError
      end
  end.

Definition _getSelectionStringFromRequestBody (body : gmap string bval)
    : result string :=
  match body !! "start"%string with
  | None => Raise (KeyError "no start key")
  | Some start_val =>
      let start_val := listify start_val in
      let rank := length start_val in
      match body !! "stop"%string with
      | None => Raise (KeyError "no stop key")
      | Some stop_val =>
          let stop_val := listify stop_val in
          if negb (Nat.eqb (length stop_val) rank)
          then Raise (ValueError "start and stop values have different ranks")
          else
            step_val ←
              match body !! "step"%string with
              | Some step_val =>
                  let step_val := listify step_val in
                  if negb (Nat.eqb (length step_val) rank)
                  then Raise (ValueError
                    "step values have differnt rank from start and stop selections")
                  else Ok (Some step_val)
              | None => Ok None
              end;
            selection ← body_dims start_val stop_val step_val 0 rank rank ["["%string];
            Ok (join "" (selection ++ ["]"%string]))
      end
  end.

(** ** _getSelectElements *)

(** One per-dimension element of a selection: a piece of the selection
    string, or (when the caller passed a list) a coordinate list or an
    integer. *)
Inductive element : Type :=
  | ElStr (s : string)
  | ElList (l : list Z)
  | ElInt (n : Z).

(** The [select] argument of [getSelectionList]. *)
Inductive select_arg : Type :=
  | SelNone
  | SelStr (s : string)
  | SelDict (body : gmap string bval)
  | SelList (l : list element).

Definition invalid_query : string := "invalid query".

(** The [for ch in select] loop with its state ([query_array], [dim_query],
    [coord_list]); the result is the state at the end of the loop. *)
Fixpoint scan_select (cs : list ascii) (query_array : list string)
    (dim_query : list ascii) (coord_list : bool)
    : result (list string * list ascii) :=
  match cs with
  | [] => Ok (query_array, dim_query)
  | ch :: cs' =>
      if isspace ch then scan_select cs' query_array dim_query coord_list
      else if eqc ch "," then
        if coord_list then scan_select cs' query_array (dim_query ++ [ch]) coord_list
        else
          match dim_query with
          | [] => Raise (ValueError invalid_query)
          | _ => scan_select cs' (query_array ++ [of_chars dim_query]) [] coord_list
          end
      else if eqc ch "[" then
        if coord_list then Raise (ValueError invalid_query)
        else scan_select cs' query_array (dim_query ++ [ch]) true
      else if eqc ch "]" then
        if negb coord_list then Raise (ValueError invalid_query)
        else scan_select cs' query_array (dim_query ++ [ch]) false
      else if eqc ch ":" then
        if coord_list then Raise (ValueError invalid_query)
        else scan_select cs' query_array (dim_query ++ [ch]) coord_list
      else scan_select cs' query_array (dim_query ++ [ch]) coord_list
  end.

Definition _getSelectElements_str (select : string) : result (list element) :=
  let select := strip_ends select in
  '(query_array, dim_query) ← scan_select (chars select) [] [] false;
  match dim_query with
  | [] => Raise (ValueError invalid_query)
  | _ => Ok (ElStr <$> (query_array ++ [of_chars dim_query]))
  end.

(** ** getSelectionList *)

Definition bad_coord : string := "Invalid coordinate for dim".
Definition coord_range : string := "out of range coordinate for dim".
Definition bad_format : string := "Invalid selection format for dim".
Definition bad_start : string := "Invalid selection - start value for dim".
Definition start_range : string := "Invalid selection - start value out of range for dim".
Definition bad_stop : string := "Invalid selection - stop value for dim".
Definition stop_range : string := "Invalid selection - stop value out of range for dim".
Definition bad_step : string := "Invalid selection - step value for dim".
Definition step_range : string := "Invalid selection - step value out of range for dim".
Definition bad_index : string := "Invalid selection - index value for dim".
Definition index_range : string := "Invalid selection - index value out of range for dim".
Definition bad_rank : string := "invalid rank for selection".

(** [int(x)] with [ValueError] turned into the given message. *)
Definition int_or (msg : string) (o : option Z) : result Z :=
  match o with
  | Some n => Ok n
  | None => Raise (ValueError msg)
  end.

(** The [for field in fields] loop of the coordinate-list branch; a field is
    given by the value [int(field)] has, if any. *)
Fixpoint read_coords (extent : Z) (fields : list (option Z)) (coords : list Z)
    : result (list Z) :=
  match fields with
  | [] => Ok coords
  | field :: rest =>
      coord ← int_or bad_coord field;
      if (coord <? 0) || (extent <=? coord) then Raise (ValueError coord_range)
      else read_coords extent rest (coords ++ [coord])
  end.

(** The branch [is_str and element.find(":") >= 0]. *)
Definition read_range (extent : Z) (element : string) : result sel_entry :=
  let fields := split ":" element in
  if negb (Nat.eqb (length fields) 2 || Nat.eqb (length fields) 3)
  then Raise (ValueError bad_format)
  else
    let f0 := default ""%string (fields !! 0%nat) in
    let f1 := default ""%string (fields !! 1%nat) in
    start ←
      (if len (chars f0) =? 0 then Ok 0
       else
         start ← int_or bad_start (py_int f0);
         if (start <? 0) || (extent <=? start) then Raise (ValueError start_range)
         else Ok start);
    stop ←
      (if len (chars f1) =? 0 then Ok extent
       else
         stop ← int_or bad_stop (py_int f1);
         if (stop <? 0) || (extent <? stop) || (stop <=? start)
         then Raise (ValueError stop_range)
         else Ok stop);
    step ←
      (if Nat.eqb (length fields) 3 then
         let f2 := default ""%string (fields !! 2%nat) in
         if len (chars f2) =? 0 then Ok 1
         else
           step ← int_or bad_step (py_int f2);
           if step <=? 0 then Raise (ValueError step_range)
           else Ok step
       else Ok 1);
    Ok (Range (Slice start stop step)).

(** The last branch: a single index. *)
Definition read_index (extent : Z) (o : option Z) : result sel_entry :=
  index ← int_or bad_index o;
  if (index <? 0) || (extent <=? index) then Raise (ValueError index_range)
  else Ok (Range (Slice index (index + 1) 1)).

(** The body of the [for dim in range(rank)] loop for one element. *)
Definition read_element (extent : Z) (element : element) : result sel_entry :=
  match element with
  | ElList fields => Coords <$> read_coords extent (Some <$> fields) []
  | ElStr s =>
      if startswith "[" s then
        Coords <$> read_coords extent (py_int <$> split "," (strip_ends s)) []
      else if String.eqb s ":" then Ok (Range (Slice 0 extent 1))
      else if contains ":" s then read_range extent s
      else read_index extent (py_int s)
  | ElInt n => read_index extent (Some n)
  end.

Fixpoint read_elements (dims : list Z) (elements : list element)
    (dim n : nat) (select_list : list sel_entry) : result (list sel_entry) :=
  match n with
  | O => Ok select_list
  | S n' =>
      match dims !! dim, elements !! dim with
      | Some extent, Some element =>
          s ← read_element extent element;
          read_elements dims elements (S dim) n' (select_list ++ [s])
      | _, _ => Raise IndexError
      end
  end.

Definition select_is_empty (select : select_arg) : bool :=
  match select with
  | SelNone => true
  | SelStr s => len (chars s) =? 0
  | SelDict body => Nat.eqb (size body) 0
  | SelList l => len l =? 0
  end.

Definition getSelectionList (select : select_arg) (dims : list Z)
    : result (list sel_entry) :=
  select ←
    match select with
    | SelDict body => SelStr <$> _getSelectionStringFromRequestBody body
    | _ => Ok select
    end;
  if select_is_empty select then
    Ok ((fun extent => Range (Slice 0 extent 1)) <$> dims)
  else
    elements ←
      match select with
      | SelList l => Ok l
      | SelStr s => _getSelectElements_str s
      | _ => Raise TypeError
      end;
    let rank := length elements in
    if negb (Nat.eqb (length dims) rank) then Raise (ValueError bad_rank)
    else read_elements dims elements 0 rank [].

(** ** Filter resolution *)

Definition COMPRESSION_FILTER_IDS : list string := [
  "H5Z_FILTER_DEFLATE"; "H5Z_FILTER_SZIP"; "H5Z_FILTER_SCALEOFFSET";
  "H5Z_FILTER_LZF"; "H5Z_FILTER_BLOSC"; "H5Z_FILTER_SNAPPY";
  "H5Z_FILTER_LZ4"; "H5Z_FILTER_LZ4HC"; "H5Z_FILTER_ZSTD" ]%string.

Definition COMPRESSION_FILTER_NAMES : list string := [
  "gzip"; "szip"; "lzf"; "blosclz"; "snappy"; "lz4"; "lz4hc"; "zstd" ]%string.

Definition SHUFFLE_FILTER_CLASSES : list string :=
  [ "H5Z_FILTER_SHUFFLE"; "H5Z_FILTER_BITSHUFFLE" ]%string.

(** A value in a filter's JSON object. *)
Inductive fval : Type :=
  | FStr (s : string)
  | FInt (n : Z).

(** [v in names] for a tuple of strings. *)
Definition fval_in (v : fval) (names : list string) : bool :=
  match v with
  | FStr s => bool_decide (s ∈ names)
  | FInt _ => false
  end.

Definition fval_is (v : fval) (s : string) : bool := fval_in v [s].

(** [getCompressionFilter]. The three conditions of the user-filter test sit
    in a tuple, so [filter["name"]] is evaluated whether or not the class is
    the user class and the key is there. *)
Fixpoint getCompressionFilter (filters : list (gmap string fval))
    : result (option (gmap string fval)) :=
  match filters with
  | [] => Ok None
  | filter :: rest =>
      match filter !! "class"%string with
      | None => getCompressionFilter rest
      | Some filter_class =>
          if fval_in filter_class COMPRESSION_FILTER_IDS then Ok (Some filter)
          else
            match filter !! "name"%string with
            | None => Raise (KeyError "name")
            | Some name =>
                if fval_is filter_class "H5Z_FILTER_USER"
                   && bool_decide (is_Some (filter !! "name"%string))
                   && fval_in name COMPRESSION_FILTER_NAMES
                then Ok (Some filter)
                else getCompressionFilter rest
            end
      end
  end.

Fixpoint getShuffleFilter (filters : list (gmap string fval))
    : option (gmap string fval) :=
  match filters with
  | [] => None
  | filter :: rest =>
      match filter !! "class"%string with
      | None => getShuffleFilter rest
      | Some filter_class =>
          if fval_in filter_class SHUFFLE_FILTER_CLASSES then Some filter
          else getShuffleFilter rest
      end
  end.

(** A numpy dtype as [isVlen] sees it: the dtypes of its fields (none for a
    scalar type) and whether its metadata has the key [vlen]. *)
#[local] Set Warnings "-register-all".
Inductive dtype : Type :=
  | Dtype (fields : list dtype) (vlen : bool).

Fixpoint isVlen (dt : dtype) : bool :=
  match dt with
  | Dtype fields vlen =>
      if (1 <? length fields)%nat then existsb isVlen fields else vlen
  end.

(** A value in a filter-operation descriptor. *)
Inductive opval : Type :=
  | OInt (n : Z)
  | OStr (s : string)
  | OShape (chunk_shape : option (list Z))
  | ODtype (dt : option dtype).

Definition opval_of (v : fval) : opval :=
  match v with
  | FStr s => OStr s
  | FInt n => OInt n
  end.

(** [int(v)] for a JSON value. *)
Definition fval_int (v : fval) : result Z :=
  match v with
  | FInt n => Ok n
  | FStr s => int_or "invalid literal for int()" (py_int s)
  end.

(** Truth value of a dict. *)
Definition dict_truthy {V : Type} (d : gmap string V) : bool :=
  negb (Nat.eqb (size d) 0).

(** The value [getFilterOps] stores under ["shuffle"]: every branch of the
    [if shuffleFilter and not isVlen(dtype)] statement sets that key. *)
Definition shuffle_op (shuffleFilter : option (gmap string fval))
    (dt : option dtype) : result Z :=
  match shuffleFilter with
  | Some shuffleFilter =>
      if dict_truthy shuffleFilter then
        vl ← match dt with Some dt => Ok (isVlen dt) | None => Raise TypeError end;
        if negb vl then
          match shuffleFilter !! "name"%string with
          | None => Raise (KeyError "name")
          | Some shuffle_name =>
              if fval_is shuffle_name "shuffle" then Ok 1
              else if fval_is shuffle_name "bitshuffle" then Ok 2
              else Ok 0
          end
        else Ok 0
      else Ok 0
  | None => Ok 0
  end.

(** The [if compressionFilter:] statement, on the descriptor built so far. *)
Definition compression_ops (compressionFilter : option (gmap string fval))
    (filter_ops : gmap string opval) : result (gmap string opval) :=
  match compressionFilter with
  | Some compressionFilter =>
      if dict_truthy compressionFilter then
        cls ← match compressionFilter !! "class"%string with
              | Some c => Ok c
              | None => Raise (KeyError "class")
              end;
        let filter_ops :=
          if fval_is cls "H5Z_FILTER_DEFLATE"
          then <["compressor"%string := OStr "zlib"]> filter_ops
          else
            match compressionFilter !! "name"%string with
            | Some name => <["compressor"%string := opval_of name]> filter_ops
            | None => <["compressor"%string := OStr "lz4"]> filter_ops
            end in
        match compressionFilter !! "level"%string with
        | None => Ok (<["level"%string := OInt 5]> filter_ops)
        | Some level =>
            level ← fval_int level;
            Ok (<["level"%string := OInt level]> filter_ops)
        end
      else Ok filter_ops
  | None => Ok filter_ops
  end.

(** [getFilterOps(app, dset_id, filters, dtype, chunk_shape)]: the value
    returned and [app["filter_map"]] afterwards. *)
Definition getFilterOps (filter_map : gmap string (gmap string opval))
    (dset_id : string) (filters : list (gmap string fval))
    (dt : option dtype) (chunk_shape : option (list Z))
    : result (option (gmap string opval) * gmap string (gmap string opval)) :=
  match filter_map !! dset_id with
  | Some cached => Ok (Some cached, filter_map)
  | None =>
      compressionFilter ← getCompressionFilter filters;
      let filter_ops : gmap string opval := ∅ in
      let shuffleFilter := getShuffleFilter filters in
      shuffle ← shuffle_op shuffleFilter dt;
      let filter_ops := <["shuffle"%string := OInt shuffle]> filter_ops in
      filter_ops ← compression_ops compressionFilter filter_ops;
      if dict_truthy filter_ops then
        let filter_ops := <["chunk_shape"%string := OShape chunk_shape]> filter_ops in
        let filter_ops := <["dtype"%string := ODtype dt]> filter_ops in
        Ok (Some filter_ops, <[dset_id := filter_ops]> filter_map)
      else Ok (None, filter_map)
  end.

(** ** Dataset descriptors (the parts of [dset_json] the handlers read) *)

Definition CHUNK_LAYOUT_CLASSES : list string := [
  "H5D_CHUNKED"; "H5D_CHUNKED_REF"; "H5D_CHUNKED_REF_INDIRECT";
  "H5D_CONTIGUOUS_REF" ]%string.

Record layout_json : Type := {
  layout_class : option string;
  layout_dims : option (list Z)
}.

Record type_json : Type := {
  type_size : option Z;          (* the key "size", when present *)
  type_dtype : result dtype      (* what createDataType makes of it *)
}.

Record shape_json : Type := {
  shape_class : option string;
  shape_dims : option (list Z)
}.

Record dset_json : Type := {
  dj_shape : shape_json;
  dj_layout : option layout_json;
  dj_type : type_json;
  dj_initializer : option string (* creationProperties.initializer *)
}.

(** [getChunkLayout] *)
Definition getChunkLayout (d : dset_json) : result (list Z) :=
  match dj_layout d with
  | None => Raise (HTTPInternalServerError "")
  | Some layout_json =>
      match layout_class layout_json with
      | None => Raise (HTTPInternalServerError "")
      | Some layout_class =>
          if negb (bool_decide (layout_class ∈ CHUNK_LAYOUT_CLASSES))
          then Raise (HTTPInternalServerError "")
          else
            match layout_dims layout_json with
            | None => Raise (HTTPInternalServerError "")
            | Some layout => Ok layout
            end
      end
  end.

(** [getShapeDims] on a shape given as a JSON object. *)
Definition getShapeDims (shape : shape_json) : result (option (list Z)) :=
  match shape_class shape with
  | None => Raise (ValueError "'class' key not found in shape")
  | Some c =>
      if String.eqb c "H5S_NULL" then Ok None
      else if String.eqb c "H5S_SCALAR" then Ok (Some [1])
      else if String.eqb c "H5S_SIMPLE" then
        match shape_dims shape with
        | None => Raise (ValueError "'dims' key expected for shape")
        | Some dims => Ok (Some dims)
        end
      else Raise (ValueError "Unknown shape class")
  end.

(** [getChunkInitializer] *)
Definition getChunkInitializer (d : dset_json) : option string := dj_initializer d.

Definition str_truthy (s : string) : bool := negb (len (chars s) =? 0).

Definition opt_truthy (o : option string) : bool :=
  match o with Some s => str_truthy s | None => false end.

(** ** The chunk handlers: effects *)

(** The calls a handler makes on the chunk store, the kernels and the
    request body, in the order it makes them. *)
Inductive event : Type :=
  | EvGetMetadata (dset_id : string)
  | EvGetChunk (chunk_id : string) (chunk_init : bool)
  | EvSaveChunk (chunk_id : string)
  | EvReadBody
  | EvReadJson
  | EvChunkQuery (update : bool)
  | EvChunkWriteSelection
  | EvChunkReadSelection
  | EvChunkWritePoints
  | EvChunkReadPoints
  | EvRespond.

(** A handler run: the events so far and the value or exception it ends
    with. *)
Record M (A : Type) : Type := MkM { trace : list event; outcome : result A }.
Arguments MkM {A} trace outcome.
Arguments trace {A} m.
Arguments outcome {A} m.

#[global] Instance M_ret : MRet M := fun A a => MkM [] (Ok a).
#[global] Instance M_fmap : FMap M := fun A B f m =>
  MkM (trace m) (f <$> outcome m).
#[global] Instance M_bind : MBind M := fun A B f m =>
  match outcome m with
  | Ok a => MkM (trace m ++ trace (f a)) (outcome (f a))
  | Raise e => MkM (trace m) (Raise e)
  end.

Definition lift {A : Type} (r : result A) : M A := MkM [] r.
Definition raise {A : Type} (e : exn) : M A := MkM [] (Raise e).
Definition call {A : Type} (ev : event) (r : result A) : M A := MkM [ev] r.

(** [try: ... except ValueError: raise HTTPInternalServerError()] *)
Definition value_error_as (e' : exn) {A : Type} (r : result A) : result A :=
  match r with
  | Raise (ValueError _) => Raise e'
  | other => other
  end.

(** [except TypeError / except ValueError: raise HTTPBadRequest()] *)
Definition kernel_error_as_400 {A : Type} (r : result A) : result A :=
  match r with
  | Raise (ValueError _) | Raise TypeError => Raise (HTTPBadRequest "")
  | other => other
  end.

(** [except Exception: raise HTTPInternalServerError()] *)
Definition any_error_as_500 {A : Type} (r : result A) : result A :=
  match r with
  | Raise _ => Raise (HTTPInternalServerError "")
  | other => other
  end.

(** ** Numbers: Python's and numpy's *)

Definition fits_int64 (n : Z) : bool := (- 2 ^ 63 <=? n) && (n <? 2 ^ 63).

(** The value of an [int64] operation whose exact result is [n]. *)
Definition wrap64 (n : Z) : Z := (n + 2 ^ 63) mod 2 ^ 64 - 2 ^ 63.

(** A number as a handler holds it. *)
Inductive number : Type :=
  | PyInt (n : Z)             (* a Python [int] *)
  | NpInt64 (n : Z)           (* a [numpy.int64] *)
  | NpProd (shape : list Z).  (* [np.prod(shape)] where that is no [int64] *)

(** [np.prod(shape)] for a list of Python integers: an [int64] when there
    are extents and all fit 64 bits, the product wrapping around; otherwise
    numpy works in another type (the float [1.0] for no extents). *)
Definition np_prod (shape : list Z) : number :=
  match shape with
  | [] => NpProd shape
  | _ :: _ =>
      if forallb fits_int64 shape then NpInt64 (wrap64 (prod shape))
      else NpProd shape
  end.

(** ** The chunk handlers: requests and collaborators *)

Record json_body : Type := {
  json_truthy : bool;               (* the document is a non-empty object *)
  json_select : option select_arg;  (* the key "select" *)
  json_fields : option (list string)
}.

Record request : Type := {
  rq_params : gmap string string;   (* request.rel_url.query *)
  rq_id : option string;            (* request.match_info.get("id") *)
  rq_has_body : bool;
  rq_content_length : option Z;     (* request.content_length, [None] when not sent *)
  rq_content_type : string;         (* getContentType(request) *)
  rq_bytes : list Z;                (* what request_read returns *)
  rq_json : result json_body        (* what request.json() returns *)
}.

Inductive int_or_list : Type :=
  | IntV (n : Z)
  | ListV (l : list Z).

Record get_chunk_kwargs : Type := {
  kw_chunk_init : bool;
  kw_bucket : option string;
  kw_s3path : option string;
  kw_s3offset : option int_or_list;
  kw_s3size : option int_or_list;
  kw_hyper_dims : option (list Z)
}.

Inductive response : Type :=
  | JsonResponse (status : Z)
  | StreamResponse (data : list Z)
  | NoResponse.

(** The collaborators outside [chunk_dn.py] and [dsetUtil.py], and the state
    of the application the handlers read. [arr] is the type of arrays. *)
Record Env (arr : Type) : Type := {
  isValidUuid : string -> bool;
  isValidBucketName : string -> bool;
  validateInPartition : string -> bool;       (* false: KeyError *)
  min_chunk_size : Z;                         (* config.get("min_chunk_size") *)
  write_zero_chunks : bool;                   (* config.get("write_zero_chunks") *)
  chunk_cache : gset string;                  (* ids resident in app["chunk_cache"] *)
  memFree : Z;                                (* chunk_cache.memFree *)
  getDatasetId : string -> string;
  getChunkIndex : string -> result (list Z);
  get_metadata_obj : string -> string -> result dset_json;
  getSubType : dtype -> list string -> result dtype;
  getBroadcastShape : list Z -> Z -> result (option (list Z));
  get_chunk : string -> dset_json -> get_chunk_kwargs -> result (option arr);
  arr_dtype : arr -> dtype;
  arr_rows : arr -> Z;                        (* arr.shape[0] *)
  BooleanParser_evalstr : string -> result string;
  chunkQuery : string -> list Z -> arr -> list sel_entry -> string ->
               option json_body -> Z -> option dtype -> result (option arr);
  bytesToArray : list Z -> dtype -> list number -> result arr;
  arrayToBytes : arr -> list Z;
  reshape : arr -> list Z -> result arr;
  broadcast_to : arr -> list Z -> dtype -> result arr;
  chunkWriteSelection : arr -> list sel_entry -> arr -> result bool;
  chunkReadSelection : arr -> list sel_entry -> dtype -> result arr;
  chunkWritePoints : string -> list Z -> arr -> arr -> dtype -> result unit;
  chunkReadPoints : string -> list Z -> arr -> arr -> dtype -> result arr;
  np_sum : option (list Z) -> result Z;       (* numpy.sum of what is not an int *)
  np_size_test : number -> Z -> option Z -> result bool
    (* [num_elements * itemsize % actual != 0] where numpy leaves int64 *)
}.

Arguments isValidUuid {arr} _ _.
Arguments isValidBucketName {arr} _ _.
Arguments validateInPartition {arr} _ _.
Arguments min_chunk_size {arr} _.
Arguments write_zero_chunks {arr} _.
Arguments chunk_cache {arr} _.
Arguments memFree {arr} _.
Arguments getDatasetId {arr} _ _.
Arguments getChunkIndex {arr} _ _.
Arguments get_metadata_obj {arr} _ _ _.
Arguments getSubType {arr} _ _ _.
Arguments getBroadcastShape {arr} _ _ _.
Arguments get_chunk {arr} _ _ _ _.
Arguments arr_dtype {arr} _ _.
Arguments arr_rows {arr} _ _.
Arguments BooleanParser_evalstr {arr} _ _.
Arguments chunkQuery {arr} _ _ _ _ _ _ _ _ _.
Arguments broadcast_to {arr} _ _ _ _.
Arguments bytesToArray {arr} _ _ _ _.
Arguments arrayToBytes {arr} _ _.
Arguments reshape {arr} _ _ _.
Arguments chunkWriteSelection {arr} _ _ _ _.
Arguments chunkReadSelection {arr} _ _ _ _.
Arguments chunkWritePoints {arr} _ _ _ _ _ _.
Arguments chunkReadPoints {arr} _ _ _ _ _ _.
Arguments np_sum {arr} _ _.
Arguments np_size_test {arr} _ _ _ _.

(** ** PUT_Chunk *)

Section Handlers.

Context {arr : Type} (E : Env arr).

Definition has_key (params : gmap string string) (k : string) : bool :=
  bool_decide (is_Some (params !! k)).

(** What [PUT_Chunk] has read from the request when it reaches the cache
    check. *)
Record put_args : Type := {
  pa_query : option string;
  pa_limit : Z;
  pa_chunk_id : string;
  pa_bucket : string;
  pa_element_count : option Z;
  pa_select_fields : list string
}.

(** [PUT_Chunk] from its start to the line before the cache check: tests on
    the request alone, no call on a collaborator that does I/O. *)
Definition PUT_Chunk_params (req : request) : result put_args :=
  let params := rq_params req in
  let query := params !! "query"%string in
  limit ←
    match params !! "Limit"%string with
    | Some l => int_or "invalid literal for int()" (py_int l)
    | None => Ok 0
    end;
  chunk_id ←
    match rq_id req with
    | Some c => if str_truthy c then Ok c
                else Raise (HTTPBadRequest "Missing chunk id")
    | None => Raise (HTTPBadRequest "Missing chunk id")
    end;
  if negb (isValidUuid E chunk_id) then Raise (HTTPBadRequest "Invalid chunk id")
  else if negb (rq_has_body req) then Raise (HTTPBadRequest "PUT Value with no body")
  else
    bucket ←
      match params !! "bucket"%string with
      | Some b =>
          if negb (str_truthy b)
          then Raise (HTTPInternalServerError "PUT_Chunk - bucket is None")
          else if negb (isValidBucketName E b)
          then Raise (HTTPBadRequest "Invalid bucket name")
          else Ok b
      | None => Raise (HTTPInternalServerError "PUT_Chunk - bucket is None")
      end;
    element_count ←
      match params !! "element_count"%string with
      | Some s =>
          match py_int s with
          | Some n => Ok (Some n)
          | None => Raise (HTTPBadRequest "invalid element_count")
          end
      | None => Ok None
      end;
    if negb (validateInPartition E chunk_id) then Raise (HTTPInternalServerError "")
    else if has_key params "dset"
    then Raise (HTTPBadRequest "Unexpected param dset in PUT request")
    else
      let select_fields :=
        match params !! "fields"%string with
        | Some f => split ":" f
        | None => []
        end in
      Ok {| pa_query := query; pa_limit := limit; pa_chunk_id := chunk_id;
            pa_bucket := bucket; pa_element_count := element_count;
            pa_select_fields := select_fields |}.

(** [if chunk_id not in chunk_cache and chunk_cache.memFree < min_chunk_size:
        raise HTTPServiceUnavailable()] *)
Definition cache_check (chunk_id : string) : result unit :=
  if negb (bool_decide (chunk_id ∈ chunk_cache E)) && (memFree E <? min_chunk_size E)
  then Raise HTTPServiceUnavailable
  else Ok tt.

Definition list_truthy {A : Type} (l : list A) : bool := negb (len l =? 0).

Definition shape_truthy (o : option (list Z)) : bool :=
  match o with Some l => list_truthy l | None => false end.

Definition bad_content_length : string := "Expected content_length of".

(** [expected % actual != 0] with [expected = num_elements * itemsize]:
    [num_elements] is what [np.prod] returned, [itemsize] and [actual] are
    Python integers.  On [int64] the product wraps around and the remainder
    by zero is zero (numpy warns and goes on); a missing content length makes
    the remainder raise.  The product is formed once before, for a log line:
    where numpy refuses it, it does so in both places. *)
Definition size_test (num_elements : number) (itemsize : Z) (actual : option Z)
    : result bool :=
  match num_elements, actual with
  | NpInt64 n, None => Raise TypeError
  | NpInt64 n, Some actual =>
      if fits_int64 itemsize && fits_int64 actual then
        let expected := wrap64 (n * itemsize) in
        if actual =? 0 then Ok false
        else Ok (negb (expected mod actual =? 0))
      else np_size_test E num_elements itemsize (Some actual)
  | _, _ => np_size_test E num_elements itemsize actual
  end.

(** The content-length test of the plain update; [itemsize] is [None] for
    ["H5T_VARIABLE"], [actual] is [request.content_length]. *)
Definition check_content_length (itemsize : option Z) (num_elements : number)
    (actual : option Z) : result unit :=
  match itemsize with
  | Some itemsize =>
      match size_test num_elements itemsize actual with
      | Raise e => Raise e
      | Ok true => Raise (HTTPBadRequest bad_content_length)
      | Ok false => Ok tt
      end
  | None => Ok tt
  end.

(** The [if query:] branch of [PUT_Chunk].  Writing the response stream is
    taken not to fail. *)
Definition PUT_Chunk_query (req : request) (a : put_args) (query : string)
    (d : dset_json) (dims : list Z) (dset_dt : dtype)
    (selection : list sel_entry) (chunk_arr : arr) : M response :=
  match dset_dt with
  | Dtype fields _ =>
      if negb (list_truthy fields) then raise (HTTPInternalServerError "")
      else if negb (Nat.eqb (length dims) 1) then raise (HTTPInternalServerError "")
      else
        eval_str ← lift (any_error_as_500 (BooleanParser_evalstr E query));
        query_update ← call EvReadJson (rq_json req);
        if negb (json_truthy query_update) then raise (HTTPBadRequest "")
        else
          rsp_arr ← call (EvChunkQuery true)
            (kernel_error_as_400
               (chunkQuery E (pa_chunk_id a) dims chunk_arr selection eval_str
                  (Some query_update) (pa_limit a) None));
          match rsp_arr with
          | None => raise (HTTPBadRequest "")   (* len(None) inside the try *)
          | Some rsp_arr =>
              let num_hits := arr_rows E rsp_arr in
              _ ← (if 0 <? num_hits then call (EvSaveChunk (pa_chunk_id a)) (Ok tt)
                   else mret tt);
              let read_resp := arrayToBytes E rsp_arr in
              _ ← call EvRespond (Ok tt);
              mret NoResponse
          end
  end.

(** The [else] branch: the plain chunk update. *)
Definition PUT_Chunk_update (req : request) (a : put_args)
    (d : dset_json) (select_dt : dtype) (itemsize : option Z)
    (selection : list sel_entry) (mshape : list Z) (bcshape : option (list Z))
    (num_elements : number) (chunk_arr : arr) : M response :=
  let actual := rq_content_length req in
  _ ← lift (check_content_length itemsize num_elements actual);
  input_bytes ← call EvReadBody (Ok (rq_bytes req));
  if negb (bool_decide (Some (len input_bytes) = actual))
  then raise (HTTPInternalServerError "")
  else
    input_arr ← lift (value_error_as (HTTPBadRequest "unable to decode bytestring")
                        (bytesToArray E input_bytes select_dt [num_elements]));
    input_arr ←
      (if shape_truthy bcshape then
         input_arr ← lift (reshape E input_arr (default [] bcshape));
         lift (broadcast_to E input_arr mshape select_dt)
       else lift (reshape E input_arr mshape));
    is_dirty ← call EvChunkWriteSelection
                 (chunkWriteSelection E chunk_arr selection input_arr);
    if is_dirty || write_zero_chunks E then
      _ ← call (EvSaveChunk (pa_chunk_id a)) (Ok tt);
      _ ← call EvRespond (Ok tt);
      mret (JsonResponse 201)
    else
      _ ← call EvRespond (Ok tt);
      mret (JsonResponse 200).

(** [PUT_Chunk] from the cache check on. *)
Definition PUT_Chunk_body (req : request) (a : put_args) : M response :=
  let params := rq_params req in
  let chunk_id := pa_chunk_id a in
  _ ← lift (cache_check chunk_id);
  let dset_id := getDatasetId E chunk_id in
  d ← call (EvGetMetadata dset_id) (get_metadata_obj E dset_id (pa_bucket a));
  dims ← lift (getChunkLayout d);
  let rank := length dims in
  dset_dt ← lift (type_dtype (dj_type d));
  select_dt ←
    (if list_truthy (pa_select_fields a)
     then lift (getSubType E dset_dt (pa_select_fields a))
     else mret dset_dt);
  let itemsize := type_size (dj_type d) in
  let select :=
    match params !! "select"%string with
    | Some s => SelStr s
    | None => SelNone
    end in
  selection ← lift (value_error_as (HTTPInternalServerError "")
                      (getSelectionList select dims));
  mshape ← lift (getSelectionShape selection);
  bcshape ←
    match pa_element_count a with
    | Some element_count => lift (getBroadcastShape E mshape element_count)
    | None => mret None
    end;
  let num_elements :=
    if shape_truthy bcshape then np_prod (default [] bcshape) else np_prod mshape in
  let chunk_init :=
    if opt_truthy (getChunkInitializer d) then true
    else if opt_truthy (pa_query a) then false
    else true in
  let kwargs := {| kw_chunk_init := chunk_init; kw_bucket := Some (pa_bucket a);
                   kw_s3path := None; kw_s3offset := None; kw_s3size := None;
                   kw_hyper_dims := None |} in
  chunk_arr ← call (EvGetChunk chunk_id chunk_init) (get_chunk E chunk_id d kwargs);
  match chunk_arr with
  | None =>
      if chunk_init then raise (HTTPInternalServerError "")
      else raise HTTPNotFound
  | Some chunk_arr =>
      match pa_query a with
      | Some query =>
          if str_truthy query
          then PUT_Chunk_query req a query d dims dset_dt selection chunk_arr
          else PUT_Chunk_update req a d select_dt itemsize selection mshape bcshape
                 num_elements chunk_arr
      | None =>
          PUT_Chunk_update req a d select_dt itemsize selection mshape bcshape
            num_elements chunk_arr
      end
  end.

Definition PUT_Chunk (req : request) : M response :=
  a ← lift (PUT_Chunk_params req);
  PUT_Chunk_body req a.

(** ** GET_Chunk *)

(** [s.find(":")], -1 when there is none. *)
Fixpoint find_from (c : ascii) (cs : list ascii) (i : Z) : Z :=
  match cs with
  | [] => -1
  | c' :: cs' => if eqc c' c then i else find_from c cs' (i + 1)
  end.

Definition find (c : ascii) (s : string) : Z := find_from c (chars s) 0.

Fixpoint ints (fields : list string) : option (list Z) :=
  match fields with
  | [] => Some []
  | f :: rest => n ← py_int f; l ← ints rest; Some (n :: l)
  end.

(** A parameter that is an integer or a colon-separated list of integers. *)
Definition int_or_colon_list (s : string) : option int_or_list :=
  if 0 <? find ":" s then ListV <$> ints (split ":" s)
  else IntV <$> py_int s.

Definition opt_param {A : Type} (o : option string) (f : string -> option A)
    : M (option A) :=
  match o with
  | Some s =>
      match f s with
      | Some v => mret (Some v)
      | None => raise (HTTPBadRequest "")
      end
  | None => mret None
  end.

(** The part of a query the parser is given: nothing for a query that starts
    with [where], the text before [" where "] otherwise. *)
Definition query_expr_of (query : string) : option string :=
  if String.prefix "where" query then None
  else
    match String.index 0 " where " query with
    | Some (S n) => Some (String.substring 0 (S n) query)
    | _ => Some query
    end.

Definition GET_Chunk (req : request) : M response :=
  let params := rq_params req in
  chunk_id ←
    match rq_id req with
    | Some c => if str_truthy c then mret c
                else raise (HTTPBadRequest "Missing chunk id")
    | None => raise (HTTPBadRequest "Missing chunk id")
    end;
  if negb (isValidUuid E chunk_id) then raise (HTTPBadRequest "Invalid chunk id")
  else if negb (validateInPartition E chunk_id) then raise (HTTPInternalServerError "")
  else
    let s3path := params !! "s3path"%string in
    bucket ←
      match params !! "bucket"%string with
      | Some b =>
          if negb (str_truthy b) then raise (HTTPBadRequest "GET_Chunk - bucket is None")
          else if negb (isValidBucketName E b)
          then raise (HTTPBadRequest "Invalid bucket name")
          else mret b
      | None => raise (HTTPBadRequest "GET_Chunk - bucket is None")
      end;
    s3offset ← opt_param (params !! "s3offset"%string) int_or_colon_list;
    s3size ← opt_param (params !! "s3size"%string) int_or_colon_list;
    hyper_dims ←
      opt_param (params !! "hyper_dims"%string)
        (fun s => if 0 <? find ":" s then ints (split ":" s)
                  else (fun n => [n]) <$> py_int s);
    let query := params !! "query"%string in
    limit ← opt_param (params !! "Limit"%string) py_int;
    let limit := default 0 limit in
    _ ←
      (if opt_truthy s3path then
         num_bytes ←
           match s3size with
           | Some (IntV n) => mret n
           | Some (ListV l) => lift (np_sum E (Some l))
           | None => lift (np_sum E None)
           end;
         if num_bytes =? 0 then raise HTTPNotFound else mret tt
       else mret tt);
    let dset_id := getDatasetId E chunk_id in
    d ← call (EvGetMetadata dset_id) (get_metadata_obj E dset_id bucket);
    shape_dims ← lift (getShapeDims (dj_shape d));
    dims ← lift (getChunkLayout d);
    let select :=
      match params !! "select"%string with
      | Some s => SelStr s
      | None => SelNone
      end in
    selection ← lift (value_error_as (HTTPInternalServerError "")
                        (getSelectionList select dims));
    let select_fields :=
      match params !! "fields"%string with
      | Some f => split ":" f
      | None => []
      end in
    let chunk_init := opt_truthy (getChunkInitializer d) in
    let kwargs :=
      if opt_truthy s3path then
        {| kw_chunk_init := chunk_init; kw_bucket := None; kw_s3path := s3path;
           kw_s3offset := s3offset; kw_s3size := s3size;
           kw_hyper_dims := if shape_truthy hyper_dims then hyper_dims else None |}
      else
        {| kw_chunk_init := chunk_init; kw_bucket := Some bucket; kw_s3path := None;
           kw_s3offset := None; kw_s3size := None; kw_hyper_dims := None |} in
    chunk_arr ← call (EvGetChunk chunk_id chunk_init) (get_chunk E chunk_id d kwargs);
    match chunk_arr with
    | None => raise HTTPNotFound
    | Some chunk_arr =>
        _ ← (if chunk_init then call (EvSaveChunk chunk_id) (Ok tt) else mret tt);
        select_dt ←
          (if list_truthy select_fields then
             match getSubType E (arr_dtype E chunk_arr) select_fields with
             | Raise TypeError => raise (HTTPBadRequest "invalid fields selection")
             | r => lift r
             end
           else mret (arr_dtype E chunk_arr));
        output_arr ←
          match query with
          | Some query =>
              if str_truthy query then
                _ ←
                  match query_expr_of query with
                  | Some query_expr =>
                      if str_truthy query_expr
                      then lift (any_error_as_500 (BooleanParser_evalstr E query_expr))
                      else mret ""%string
                  | None => mret ""%string
                  end;
                output_arr ← call (EvChunkQuery false)
                  (kernel_error_as_400
                     (chunkQuery E chunk_id dims chunk_arr selection query None limit
                        (Some select_dt)));
                match output_arr with
                | Some o => if arr_rows E o =? 0 then raise HTTPNotFound else mret o
                | None => raise HTTPNotFound
                end
              else
                call EvChunkReadSelection
                  (chunkReadSelection E chunk_arr selection select_dt)
          | None =>
              call EvChunkReadSelection
                (chunkReadSelection E chunk_arr selection select_dt)
          end;
        _ ← call EvRespond (Ok tt);
        mret (StreamResponse (arrayToBytes E output_arr))
    end.

(** ** POST_Chunk *)

Definition POST_Chunk (req : request) : M response :=
  let params := rq_params req in
  let content_type := rq_content_type req in
  num_points ←
    match params !! "count"%string with
    | Some c =>
        match py_int c with
        | Some n => mret n
        | None => raise (HTTPBadRequest "expected int for count param")
        end
    | None =>
        if String.eqb content_type "binary"
        then raise (HTTPBadRequest
               "expected count query param for binary POST chunks request")
        else mret 0
    end;
  let put_points :=
    match params !! "action"%string with
    | Some a => String.eqb a "put"
    | None => false
    end in
  match params !! "bucket"%string with
  | None => raise (HTTPBadRequest "POST_Chunk - expected bucket param")
  | Some bucket =>
      if negb (isValidBucketName E bucket)
      then raise (HTTPBadRequest "Invalid bucket name")
      else
        s3path ←
          match params !! "s3path"%string with
          | Some p => if put_points then raise (HTTPBadRequest "") else mret (Some p)
          | None => mret None
          end;
        s3offset ← opt_param (params !! "s3offset"%string) py_int;
        s3size ← opt_param (params !! "s3size"%string) py_int;
        let s3offset := default 0 s3offset in
        let s3size := default 0 s3size in
        chunk_id ←
          match rq_id req with
          | Some c => if str_truthy c then mret c
                      else raise (HTTPBadRequest "Missing chunk id")
          | None => raise (HTTPBadRequest "Missing chunk id")
          end;
        chunk_index ← lift (getChunkIndex E chunk_id);
        if negb (isValidUuid E chunk_id) then raise (HTTPBadRequest "Invalid chunk id")
        else if negb (validateInPartition E chunk_id)
        then raise (HTTPInternalServerError "")
        else if has_key params "dset"
        then raise (HTTPBadRequest "Unexpected dset in POST request")
        else if negb (rq_has_body req)
        then raise (HTTPBadRequest "POST Value with no body")
        else
          let dset_id := getDatasetId E chunk_id in
          d ← call (EvGetMetadata dset_id) (get_metadata_obj E dset_id bucket);
          dims ← lift (getChunkLayout d);
          let rank := length dims in
          dset_dt ← lift (type_dtype (dj_type d));
          let chunk_init :=
            if opt_truthy (getChunkInitializer d) then true
            else if put_points then true
            else false in
          let select_fields := split ":" <$> params !! "fields"%string in
          select_dt ←
            (if list_truthy (default [] select_fields)
             then lift (getSubType E dset_dt (default [] select_fields))
             else mret dset_dt);
          '(select, point_arr, select_dt) ←
            (if String.eqb content_type "binary" then
               input_bytes ← call EvReadBody (Ok (rq_bytes req));
               let actual := rq_content_length req in
               if negb (bool_decide (Some (len input_bytes) = actual))
               then raise (HTTPInternalServerError "")
               else
                 let coord_dt := Dtype [] false in
                 let point_dt :=
                   if put_points then Dtype [coord_dt; select_dt] false
                   else Dtype [] false in
                 let point_shape :=
                   if put_points then [PyInt num_points]
                   else [PyInt num_points; PyInt (len dims)] in
                 point_arr ← lift (bytesToArray E input_bytes point_dt point_shape);
                 mret (None, Some point_arr, select_dt)
             else
               body ← call EvReadJson (rq_json req);
               match json_select body with
               | None => raise (HTTPBadRequest "")
               | Some select =>
                   match json_fields body with
                   | Some fields =>
                       if list_truthy (default [] select_fields)
                       then raise (HTTPBadRequest
                         "POST_Chunk: got fields key in body when already given as query param")
                       else
                         select_dt ← lift (getSubType E dset_dt fields);
                         mret (Some select, None, select_dt)
                   | None => mret (Some select, None, select_dt)
                   end
               end);
          let kwargs :=
            if opt_truthy s3path then
              {| kw_chunk_init := chunk_init; kw_bucket := None; kw_s3path := s3path;
                 kw_s3offset := Some (IntV s3offset); kw_s3size := Some (IntV s3size);
                 kw_hyper_dims := None |}
            else
              {| kw_chunk_init := chunk_init; kw_bucket := Some bucket;
                 kw_s3path := None; kw_s3offset := None; kw_s3size := None;
                 kw_hyper_dims := None |} in
          chunk_arr ← call (EvGetChunk chunk_id chunk_init)
                        (get_chunk E chunk_id d kwargs);
          match chunk_arr with
          | None => raise HTTPNotFound
          | Some chunk_arr =>
              _ ← (if chunk_init && negb put_points
                   then call (EvSaveChunk chunk_id) (Ok tt) else mret tt);
              output_arr ←
                (if put_points then
                   match point_arr with
                   | None => raise UnboundLocalError
                   | Some point_arr =>
                       _ ← call EvChunkWritePoints
                             (value_error_as (HTTPBadRequest "")
                                (chunkWritePoints E chunk_id dims chunk_arr point_arr
                                   select_dt));
                       _ ← call (EvSaveChunk chunk_id) (Ok tt);
                       mret None
                   end
                 else if match select with
                         | Some sel => negb (select_is_empty sel)
                         | None => false
                         end
                 then
                   selection ← lift (value_error_as (HTTPInternalServerError "")
                                       (getSelectionList (default SelNone select) dims));
                   Some <$> call EvChunkReadSelection
                     (chunkReadSelection E chunk_arr selection select_dt)
                 else
                   match point_arr with
                   | None => raise UnboundLocalError
                   | Some point_arr =>
                       Some <$> call EvChunkReadPoints
                         (value_error_as (HTTPBadRequest "")
                            (chunkReadPoints E chunk_id dims chunk_arr point_arr
                               select_dt))
                   end);
              _ ← call EvRespond (Ok tt);
              match output_arr with
              | None => mret (JsonResponse 200)
              | Some output_arr => mret (StreamResponse (arrayToBytes E output_arr))
              end
          end
  end.

End Handlers.

(** ** isSelectAll *)

(** The [for (s, dim) in zip(slices, dims)] loop; it leaves at the first
    slice that is not [0:dim:1].  Reading [s.step] of a coordinate list
    raises. *)
Fixpoint isSelectAll_loop (pairs : list (sel_entry * Z)) : result bool :=
  match pairs with
  | [] => Ok true
  | (Range s, dim) :: rest =>
      if negb (sl_step s =? 1) then Ok false
      else if negb (sl_start s =? 0) then Ok false
      else if negb (sl_stop s =? dim) then Ok false
      else isSelectAll_loop rest
  | (Coords _, _) :: _ => Raise AttributeError
  end.

Definition isSelectAll (slices : list sel_entry) (dims : list Z) : result bool :=
  if negb (Nat.eqb (length slices) (length dims))
  then Raise (ValueError "isSelectAll - dimensions don't match")
  else isSelectAll_loop (zip slices dims).

(** ** getSliceQueryParam *)

(** The inner [for j in range(count)] loop over a coordinate list. *)
Fixpoint coords_param (s : list Z) (j n : nat) (count : Z) (sel_param : string)
    : result string :=
  match n with
  | O => Ok sel_param
  | S n' =>
      match s !! j with
      | None => Raise IndexError
      | Some c =>
          let sel_param := (sel_param ++ str_of_int c)%string in
          let sel_param :=
            if Z.of_nat j <? count - 1 then (sel_param ++ ",")%string else sel_param in
          coords_param s (S j) n' count sel_param
      end
  end.

(** The outer [for i in range(rank)] loop. *)
Fixpoint slice_param (sel : list sel_entry) (i n : nat) (rank : Z)
    (sel_param : string) : result string :=
  match n with
  | O => Ok sel_param
  | S n' =>
      match sel !! i with
      | None => Raise IndexError
      | Some s =>
          sel_param ←
            match s with
            | Range s =>
                let sel_param :=
                  (sel_param ++ str_of_int (sl_start s) ++ ":"
                     ++ str_of_int (sl_stop s))%string in
                if 1 <? sl_step s
                then Ok (sel_param ++ ":" ++ str_of_int (sl_step s))%string
                else Ok sel_param
            | Coords s =>
                let sel_param := (sel_param ++ "[")%string in
                sel_param ← coords_param s 0 (length s) (len s) sel_param;
                Ok (sel_param ++ "]")%string
            end;
          let sel_param :=
            if Z.of_nat i <? rank - 1 then (sel_param ++ ",")%string else sel_param in
          slice_param sel (S i) n' rank sel_param
      end
  end.

(** [getSliceQueryParam(sel)]; [None] is the implicit return for rank 0. *)
Definition getSliceQueryParam (sel : list sel_entry) : result (option string) :=
  let rank := len sel in
  if 0 <? rank then
    sel_param ← slice_param sel 0 (length sel) rank "[";
    Ok (Some (sel_param ++ "]")%string)
  else Ok None.

(** ** getPreviewQuery *)

(** [dims[i]] for an index that may be negative. *)
Definition py_index {A : Type} (l : list A) (i : Z) : result A :=
  let i := if i <? 0 then i + len l else i in
  if i <? 0 then Raise IndexError
  else match l !! Z.to_nat i with
       | Some x => Ok x
       | None => Raise IndexError
       end.

(** The [for i in range(rank)] loop that writes the dimensions. *)
Fixpoint preview_dims (i n : nat) (rank nrows ncols : Z) (select : string) : string :=
  match n with
  | O => select
  | S n' =>
      let select :=
        if Z.of_nat i =? rank - 1 then (select ++ "0:" ++ str_of_int ncols)%string
        else if Z.of_nat i =? rank - 2
        then (select ++ "0:" ++ str_of_int nrows ++ ",")%string
        else (select ++ "0:1,")%string in
      preview_dims (S i) n' rank nrows ncols select
  end.

(** The numbers of rows and columns the preview asks for. *)
Definition preview_extents (nrows ncols : Z) : Z * Z :=
  let ncols := if 100 <? ncols then 100 else ncols in
  let nrows := if 100 <? nrows then 100 else nrows in
  if 100 <? nrows * ncols then
    if ncols <? nrows then (100 / ncols, ncols)
    else (nrows, 100 / nrows)
  else (nrows, ncols).

Definition getPreviewQuery (dims : list Z) : result string :=
  let select := "select=["%string in
  let rank := len dims in
  ncols ← py_index dims (rank - 1);
  nrows ← (if 1 <? rank then py_index dims (rank - 2) else Ok 1);
  let '(nrows, ncols) := preview_extents nrows ncols in
  let select := preview_dims 0 (length dims) rank nrows ncols select in
  Ok (select ++ "]")%string.

(** ** getHyperslabSelection *)

(** Truth value of an argument that is [None], an integer or a list. *)
Definition bval_truthy (o : option bval) : bool :=
  match o with
  | None => false
  | Some (BInt n) => truthy n
  | Some (BList l) => negb (len l =? 0)
  end.

(** [for dim in range(rank): if <bad at dim>: raise HTTPBadRequest(msg)] *)
Fixpoint hyperslab_check (bad : nat -> result bool) (dim n : nat) (msg : string)
    : result unit :=
  match n with
  | O => Ok tt
  | S n' =>
      match bad dim with
      | Raise e => Raise e
      | Ok true => Raise (HTTPBadRequest msg)
      | Ok false => hyperslab_check bad (S dim) n' msg
      end
  end.

(** [l[dim]] for an index in range. *)
Definition at_dim (l : list Z) (dim : nat) : result Z :=
  match l !! dim with
  | Some x => Ok x
  | None => Raise IndexError
  end.

(** The [for dim in range(rank)] loop that builds the slices. *)
Fixpoint hyperslab_slices (start stop step : list Z) (dim n : nat)
    (slices : list sel_entry) : result (list sel_entry) :=
  match n with
  | O => Ok slices
  | S n' =>
      a ← at_dim start dim;
      b ← at_dim stop dim;
      c ← at_dim step dim;
      hyperslab_slices start stop step (S dim) n' (slices ++ [Range (Slice a b c)])
  end.

Definition getHyperslabSelection (dsetshape : list Z) (start stop step : option bval)
    : result (list sel_entry) :=
  let rank := length dsetshape in
  start ←
    (if bval_truthy start then
       let start := listify (default (BInt 0) start) in
       if negb (Nat.eqb (length start) rank)
       then Raise (HTTPBadRequest
              "Bad Request: start array length not equal to dataset rank")
       else
         _ ← hyperslab_check
               (fun dim => a ← at_dim start dim; d ← at_dim dsetshape dim;
                           Ok ((a <? 0) || (d <=? a)))
               0 rank "Bad Request: start index invalid for dim: ";
         Ok start
     else Ok (replicate rank 0));
  stop ←
    (if bval_truthy stop then
       let stop := listify (default (BInt 0) stop) in
       if negb (Nat.eqb (length stop) rank)
       then Raise (HTTPBadRequest
              "Bad Request: stop array length not equal to dataset rank")
       else
         _ ← hyperslab_check
               (fun dim => b ← at_dim stop dim; a ← at_dim start dim;
                           d ← at_dim dsetshape dim;
                           Ok ((b <=? a) || (d <? b)))
               0 rank "Bad Request: stop index invalid for dim: ";
         Ok stop
     else Ok dsetshape);
  step ←
    (if bval_truthy step then
       let step := listify (default (BInt 0) step) in
       if negb (Nat.eqb (length step) rank)
       then Raise (HTTPBadRequest
              "Bad Request: step array length not equal to dataset rank")
       else
         _ ← hyperslab_check
               (fun dim => c ← at_dim step dim; d ← at_dim dsetshape dim;
                           Ok ((c <=? 0) || (d <? c)))
               0 rank "Bad Request: step index invalid for dim: ";
         Ok step
     else Ok (replicate rank 1));
  hyperslab_slices start stop step 0 rank [].

(** ** getFilterItem *)

Definition FILTER_DEFS : list (string * Z * string) := [
  ("H5Z_FILTER_NONE", 0, "none");
  ("H5Z_FILTER_DEFLATE", 1, "gzip");
  ("H5Z_FILTER_SHUFFLE", 2, "shuffle");
  ("H5Z_FILTER_FLETCHER32", 3, "fletcher32");
  ("H5Z_FILTER_SZIP", 4, "szip");
  ("H5Z_FILTER_NBIT", 5, "nbit");
  ("H5Z_FILTER_SCALEOFFSET", 6, "scaleoffset");
  ("H5Z_FILTER_LZF", 32000, "lzf");
  ("H5Z_FILTER_BLOSC", 32001, "blosclz");
  ("H5Z_FILTER_SNAPPY", 32003, "snappy");
  ("H5Z_FILTER_LZ4", 32004, "lz4");
  ("H5Z_FILTER_LZ4HC", 32005, "lz4hc");
  ("H5Z_FILTER_BITSHUFFLE", 32008, "bitshuffle");
  ("H5Z_FILTER_ZSTD", 32015, "zstd") ]%string.

(** [key == item[i]] for some [i] in [range(3)]. *)
Definition filter_item_matches (key : fval) (item : string * Z * string) : bool :=
  let '(cls, id, name) := item in
  match key with
  | FStr k => String.eqb k cls || String.eqb k name
  | FInt n => n =? id
  end.

Fixpoint find_filter_item (key : fval) (defs : list (string * Z * string))
    : option (string * Z * string) :=
  match defs with
  | [] => None
  | item :: rest =>
      if filter_item_matches key item then Some item
      else find_filter_item key rest
  end.

(** [getFilterItem(key)]: the item as (class, id, name), [None] if not found. *)
Definition getFilterItem (key : fval) : option (string * Z * string) :=
  let key := if fval_is key "deflate" then FStr "gzip" else key in
  find_filter_item key FILTER_DEFS.

(** ** getDsetRank, isNullSpace, isScalarSpace *)

(** [datashape["class"]] *)
Definition shape_class_of (datashape : shape_json) : result string :=
  match shape_class datashape with
  | Some c => Ok c
  | None => Raise (KeyError "class")
  end.

Definition getDsetRank (d : dset_json) : result Z :=
  let datashape := dj_shape d in
  c ← shape_class_of datashape;
  if String.eqb c "H5S_NULL" then Ok 0
  else if String.eqb c "H5S_SCALAR" then Ok 0
  else match shape_dims datashape with
       | None => Ok 0
       | Some dims => Ok (len dims)
       end.

Definition isNullSpace (d : dset_json) : result bool :=
  c ← shape_class_of (dj_shape d);
  Ok (String.eqb c "H5S_NULL").

Definition isScalarSpace (d : dset_json) : result bool :=
  let datashape := dj_shape d in
  c ← shape_class_of datashape;
  if String.eqb c "H5S_NULL" then Ok false
  else if String.eqb c "H5S_SCALAR" then Ok true
  else match shape_dims datashape with
       | None => Ok false
       | Some dims => Ok (len dims =? 0)
       end.

(** ** isExtensible *)

(** An entry of [maxdims]: an integer, or a string such as ["H5S_UNLIMITED"]. *)
Inductive maxdim : Type :=
  | MaxInt (n : Z)
  | MaxStr (s : string).

(** [maxdims[n] in (0, "H5S_UNLIMITED") or maxdims[n] > dims[n]]; comparing
    a string with an integer raises. *)
Definition maxdim_extends (m : maxdim) (d : Z) : result bool :=
  match m with
  | MaxInt n => Ok ((n =? 0) || (d <? n))
  | MaxStr s => if String.eqb s "H5S_UNLIMITED" then Ok true else Raise TypeError
  end.

Fixpoint isExtensible_loop (dims : list Z) (maxdims : list maxdim) (n k : nat)
    : result bool :=
  match k with
  | O => Ok false
  | S k' =>
      match maxdims !! n, dims !! n with
      | Some m, Some d =>
          match maxdim_extends m d with
          | Raise e => Raise e
          | Ok true => Ok true
          | Ok false => isExtensible_loop dims maxdims (S n) k'
          end
      | _, _ => Raise IndexError
      end
  end.

Definition isExtensible (dims : list Z) (maxdims : option (list maxdim))
    : result bool :=
  match maxdims with
  | None => Ok false
  | Some maxdims =>
      if len dims =? 0 then Ok false
      else
        let rank := length dims in
        if negb (Nat.eqb (length maxdims) rank)
        then Raise (ValueError "rank of maxdims does not match dataset")
        else isExtensible_loop dims maxdims 0 rank
  end.

(** ** DELETE_Chunk *)

(** What [DELETE_Chunk] changes: the ids in the chunk cache and the
    memoized filter descriptors. *)
Record app_state : Type := {
  st_chunk_cache : gset string;
  st_filter_map : gmap string (gmap string opval)
}.

(** The calls on the object store. *)
Inductive stor_event : Type :=
  | EvIsStorObj (key bucket : string)
  | EvDeleteStorObj (key bucket : string).

(** The collaborators of [DELETE_Chunk]. *)
Record Stor : Type := {
  stor_isValidUuid : string -> bool;
  stor_isValidBucketName : string -> bool;
  stor_validateInPartition : string -> bool;
  stor_getS3Key : string -> string;
  stor_getDatasetId : string -> string;
  isStorObj : string -> string -> result bool;
  deleteStorObj : string -> string -> result unit
}.

(** A run of [DELETE_Chunk]: the calls on the store, the answer, and the
    application state it leaves, also when it ends in an exception. *)
Record delete_run : Type := {
  del_events : list stor_event;
  del_outcome : result response;
  del_state : app_state
}.

(** The tests on the request, up to [validateInPartition].  The local
    [bucket] is only assigned when the parameter is there; reading it
    otherwise raises [UnboundLocalError]. *)
Definition DELETE_Chunk_params (S : Stor) (req : request) : result (string * string) :=
  let params := rq_params req in
  chunk_id ←
    match rq_id req with
    | Some c => if str_truthy c then Ok c
                else Raise (HTTPBadRequest "Missing chunk id")
    | None => Raise (HTTPBadRequest "Missing chunk id")
    end;
  if negb (stor_isValidUuid S chunk_id) then Raise (HTTPBadRequest "Invalid chunk id")
  else
    bucket ←
      match params !! "bucket"%string with
      | Some b =>
          if negb (str_truthy b)
          then Raise (HTTPBadRequest "DELETE_Chunk - bucket param not set")
          else if negb (stor_isValidBucketName S b)
          then Raise (HTTPBadRequest "Invalid bucket name")
          else Ok b
      | None => Raise UnboundLocalError
      end;
    if negb (stor_validateInPartition S chunk_id)
    then Raise (HTTPInternalServerError "")
    else Ok (chunk_id, bucket).

Definition DELETE_Chunk (S : Stor) (st : app_state) (req : request) : delete_run :=
  match DELETE_Chunk_params S req with
  | Raise e => {| del_events := []; del_outcome := Raise e; del_state := st |}
  | Ok (chunk_id, bucket) =>
      let s3key := stor_getS3Key S chunk_id in
      let chunk_cache :=
        if bool_decide (chunk_id ∈ st_chunk_cache st)
        then st_chunk_cache st ∖ {[chunk_id]}
        else st_chunk_cache st in
      let dset_id := stor_getDatasetId S chunk_id in
      let filter_map :=
        if bool_decide (is_Some (st_filter_map st !! dset_id))
        then delete dset_id (st_filter_map st)
        else st_filter_map st in
      let st' := {| st_chunk_cache := chunk_cache; st_filter_map := filter_map |} in
      match isStorObj S s3key bucket with
      | Raise e =>
          {| del_events := [EvIsStorObj s3key bucket]; del_outcome := Raise e;
             del_state := st' |}
      | Ok true =>
          match deleteStorObj S s3key bucket with
          | Raise e =>
              {| del_events := [EvIsStorObj s3key bucket; EvDeleteStorObj s3key bucket];
                 del_outcome := Raise e; del_state := st' |}
          | Ok _ =>
              {| del_events := [EvIsStorObj s3key bucket; EvDeleteStorObj s3key bucket];
                 del_outcome := Ok (JsonResponse 200); del_state := st' |}
          end
      | Ok false =>
          {| del_events := [EvIsStorObj s3key bucket];
             del_outcome := Ok (JsonResponse 200); del_state := st' |}
      end
  end.

(** * Specification-side notions *)

(** ** The data model of selections *)

(** [ceil(a / b)] for a positive [b]. *)
Definition ceil_div (a b : Z) : Z := - ((- a) / b).

(** A range of the data model: [0 <= start < stop], [stride >= 1]. *)
Definition valid_range (s : slice) : Prop :=
  0 <= sl_start s < sl_stop s /\ 1 <= sl_step s.

Definition valid_entry (e : sel_entry) : Prop :=
  match e with
  | Range s => valid_range s
  | Coords _ => True
  end.

(** All coordinate lists of a selection have the same length. *)
Definition coords_equal_length (sel : list sel_entry) : Prop :=
  forall i j li lj,
    sel !! i = Some (Coords li) -> sel !! j = Some (Coords lj) ->
    length li = length lj.

Definition data_model (sel : list sel_entry) : Prop :=
  Forall valid_entry sel /\ coords_equal_length sel.

(** The extent the design gives one entry. *)
Definition entry_extent (e : sel_entry) : Z :=
  match e with
  | Range s => ceil_div (sl_stop s - sl_start s) (sl_step s)
  | Coords l => len l
  end.

(** The shape with one extent per range and one extent for the first
    coordinate list; [seen] tells whether a coordinate list came before. *)
Fixpoint shape_of (seen : bool) (sel : list sel_entry) : list Z :=
  match sel with
  | [] => []
  | Range s :: rest => entry_extent (Range s) :: shape_of seen rest
  | Coords l :: rest =>
      if seen then shape_of true rest else len l :: shape_of true rest
  end.

Definition count_coords (sel : list sel_entry) : nat :=
  length (filter (fun e => isinstance_slice e = false) sel).

(** ** Coordinates of a selection *)

(** [range(i, stop, step)] for a positive step. *)
Fixpoint range_from (fuel : nat) (i stop step : Z) : list Z :=
  match fuel with
  | O => []
  | S fuel' => if i <? stop then i :: range_from fuel' (i + step) stop step else []
  end.

Definition slice_indices (s : slice) : list Z :=
  range_from (Z.to_nat (sl_stop s - sl_start s)) (sl_start s) (sl_stop s) (sl_step s).

Definition entry_coords (e : sel_entry) : list Z :=
  match e with
  | Range s => slice_indices s
  | Coords l => l
  end.

(** The coordinate tuples of a selection in row-major order: the last
    dimension varies fastest. *)
Fixpoint selection_coords (sel : list sel_entry) : list (list Z) :=
  match sel with
  | [] => [[]]
  | e :: rest =>
      x ← entry_coords e; (fun t => x :: t) <$> selection_coords rest
  end.

Definition row_major (sel : list slice) : list (list Z) :=
  selection_coords (Range <$> sel).

(** ** Statements about shapes and pagination *)

(** "A shape with one extent per dimension". *)
Definition one_extent_per_dimension (sel : list sel_entry) : Prop :=
  data_model sel -> getSelectionShape sel = Ok (entry_extent <$> sel).

(** [d] is the first dimension whose extent, as the paginator measures it
    ([stop - start] for a range, the length for a coordinate list), is
    above 1. *)
Definition is_pagination_dim (select : list sel_entry) (d : nat) (s : sel_entry)
    : Prop :=
  select !! d = Some s /\ 1 < paginate_extent_of s /\
  (forall j s', (j < d)%nat -> select !! j = Some s' -> paginate_extent_of s' <= 1).

(** Every range of the selection has stride 1. *)
Definition unit_stride (e : sel_entry) : Prop :=
  match e with
  | Range s => sl_step s = 1
  | Coords _ => True
  end.

(** [d] is the first dimension whose extent is above 1. *)
Definition first_wide_dim (select : list sel_entry) (d : nat) (s : sel_entry)
    : Prop :=
  select !! d = Some s /\ 1 < entry_extent s /\
  (forall j s', (j < d)%nat -> select !! j = Some s' -> entry_extent s' <= 1).

(** The [k]-th cut of width [w] of an entry of stride 1: the indices
    [start + k*w] up to [start + (k+1)*w], not beyond [stop], of a range; the
    [w] coordinates from position [k*w] on, or those that are left, of a
    coordinate list. *)
Definition page_cut (s : sel_entry) (w : Z) (k : nat) : sel_entry :=
  match s with
  | Range s =>
      Range (Slice (sl_start s + Z.of_nat k * w)
                   (Z.min (sl_start s + (Z.of_nat k + 1) * w) (sl_stop s)) 1)
  | Coords l => Coords (take (Z.to_nat w) (drop (k * Z.to_nat w) l))
  end.

(** The entry cut into [ceil(extent / w)] pieces of width [w], in order. *)
Definition page_cuts (s : sel_entry) (w : Z) : list sel_entry :=
  page_cut s w <$> seq 0 (Z.to_nat (ceil_div (entry_extent s) w)).

(** "Fails only if no such dimension exists, and otherwise succeeds". *)
Definition paginates_when_dim_exists (select : list sel_entry) (dims : list Z)
    (itemsize max_request_size : Z) : Prop :=
  forall shape,
    getSelectionShape select = Ok shape ->
    max_request_size < prod shape * itemsize ->
    (exists d s, is_pagination_dim select d s) ->
    exists pages,
      getSelectionPagination select dims itemsize max_request_size = Some (Ok pages).

(** ** The odometer behind ItemIterator *)

(** The indices of a slice from [i] on. *)
Definition indices_from (s : slice) (i : Z) : list Z :=
  range_from (Z.to_nat (sl_stop s - i)) i (sl_stop s) (sl_step s).

(** One step of the dimensions right of the first: the last dimension
    advances; a dimension that runs past its stop goes back to its start and
    carries to the left.  [None] is a carry out of the leftmost of them. *)
Fixpoint tail_step (sel : list slice) (index : list Z) : option (list Z) :=
  match sel, index with
  | s :: sel', v :: index' =>
      match tail_step sel' index' with
      | Some index'' => Some (v :: index'')
      | None =>
          if v + sl_step s <? sl_stop s
          then Some (v + sl_step s :: (sl_start <$> sel'))
          else None
      end
  | _, _ => None
  end.

(** The whole index after one step: the first dimension takes the carry and
    is never reset. *)
Definition next_index (sel : list slice) (index : list Z) : list Z :=
  match sel, index with
  | s0 :: sel', v0 :: index' =>
      match tail_step sel' index' with
      | Some index'' => v0 :: index''
      | None => v0 + sl_step s0 :: (sl_start <$> sel')
      end
  | _, _ => index
  end.

(** The tuples of [row_major sel] from [index] on. *)
Fixpoint tail_from (sel : list slice) (index : list Z) : list (list Z) :=
  match sel, index with
  | s :: sel', v :: index' =>
      ((fun t => v :: t) <$> tail_from sel' index') ++
      (x ← indices_from s (v + sl_step s); (fun t => x :: t) <$> row_major sel')
  | _, _ => [[]]
  end.

(** What is left to produce in a state of the iterator. *)
Definition remaining (sel : list slice) (index : list Z) : list (list Z) :=
  match sel, index with
  | s0 :: _, v0 :: _ => if v0 <? sl_stop s0 then tail_from sel index else []
  | _, _ => []
  end.

(** A coordinate tuple as [next] hands it out. *)
Definition as_item (index : list Z) : item :=
  match index with
  | [i] => Scalar i
  | _ => Tuple index
  end.

(** ** Statements about parsing *)

(** "Parsing never returns a Selection containing coordinate lists of unequal
    length". *)
Definition parse_keeps_coords_equal (select : select_arg) (dims : list Z) : Prop :=
  forall sel, getSelectionList select dims = Ok sel -> coords_equal_length sel.

(** The string form of per-dimension bounds, following the wire grammar:
    [start:stop] or [start:stop:step] per dimension, separated by commas,
    in brackets. *)
Fixpoint dim_exprs (starts stops : list Z) (steps : option (list Z)) : list string :=
  match starts, stops with
  | a :: starts', b :: stops' =>
      match steps with
      | Some (c :: steps') =>
          (str_of_int a ++ ":" ++ str_of_int b ++ ":" ++ str_of_int c)%string
            :: dim_exprs starts' stops' (Some steps')
      | _ =>
          (str_of_int a ++ ":" ++ str_of_int b)%string
            :: dim_exprs starts' stops' None
      end
  | _, _ => []
  end.

Definition selection_expr (starts stops : list Z) (steps : option (list Z)) : string :=
  ("[" ++ join "," (dim_exprs starts stops steps) ++ "]")%string.


(** The Selection the bounds stand for. *)
Fixpoint bound_slices (starts stops : list Z) (steps : option (list Z))
    : list sel_entry :=
  match starts, stops with
  | a :: starts', b :: stops' =>
      match steps with
      | Some (c :: steps') =>
          Range (Slice a b c) :: bound_slices starts' stops' (Some steps')
      | _ => Range (Slice a b 1) :: bound_slices starts' stops' None
      end
  | _, _ => []
  end.


(** The value of a decimal numeral read after [acc]. *)
Fixpoint uint_val (d : Decimal.uint) (acc : Z) : Z :=
  match d with
  | Decimal.Nil => acc
  | Decimal.D0 d' => uint_val d' (acc * 10 + 0)
  | Decimal.D1 d' => uint_val d' (acc * 10 + 1)
  | Decimal.D2 d' => uint_val d' (acc * 10 + 2)
  | Decimal.D3 d' => uint_val d' (acc * 10 + 3)
  | Decimal.D4 d' => uint_val d' (acc * 10 + 4)
  | Decimal.D5 d' => uint_val d' (acc * 10 + 5)
  | Decimal.D6 d' => uint_val d' (acc * 10 + 6)
  | Decimal.D7 d' => uint_val d' (acc * 10 + 7)
  | Decimal.D8 d' => uint_val d' (acc * 10 + 8)
  | Decimal.D9 d' => uint_val d' (acc * 10 + 9)
  end.

(** The characters of a printed integer: digits and the minus sign. *)
Definition numch (c : ascii) : bool := isdigit c || eqc c "-".

(** The characters of a printed dimension: those and the colon. *)
Definition dimch (c : ascii) : bool := numch c || eqc c ":".

(** The bounds the parser accepts for dimensions of the given extents. *)
Fixpoint valid_bounds (dims starts stops : list Z) (steps : option (list Z)) : Prop :=
  match dims, starts, stops with
  | extent :: dims', a :: starts', b :: stops' =>
      0 <= a < extent /\ a < b <= extent /\
      match steps with
      | Some (c :: steps') => 1 <= c /\ valid_bounds dims' starts' stops' (Some steps')
      | Some [] => False
      | None => valid_bounds dims' starts' stops' None
      end
  | [], [], [] => steps = None \/ steps = Some []
  | _, _, _ => False
  end.

(** A printed dimension: its characters, and that it is not empty. *)
Definition dim_text (d : string) : Prop :=
  Forall (fun c => dimch c = true) (chars d) /\ chars d <> [].

(** The text of a dimension, with or without a step. *)
Definition dim_expr (a b : Z) (oc : option Z) : string :=
  match oc with
  | Some c => (str_of_int a ++ ":" ++ str_of_int b ++ ":" ++ str_of_int c)%string
  | None => (str_of_int a ++ ":" ++ str_of_int b)%string
  end.

(** ** Statements about the chunk handlers *)

(** "Rejected with a payload-size error if and only if the payload size is
    not a multiple of the per-element size", for a write [req] to the
    dataset [d]. *)
Definition rejects_iff_not_multiple_of_itemsize {arr : Type} (E : Env arr)
    (req : request) (d : dset_json) : Prop :=
  forall itemsize actual : Z,
    type_size (dj_type d) = Some itemsize ->
    rq_content_length req = Some actual ->
    (outcome (PUT_Chunk E req) = Raise (HTTPBadRequest bad_content_length)
     <-> actual mod itemsize <> 0).

(** The write [req] gets as far as the payload-size test of the plain
    update: its parameters are accepted as [a] and name no query, the chunk
    cache has room, the dataset [d] is found, the selection parses, and the
    chunk is there.  [shape] is the shape the payload is to fill: the
    broadcast shape when an element count gives one, the shape of the
    selection otherwise. *)
Definition at_size_test {arr : Type} (E : Env arr) (req : request)
    (a : put_args) (d : dset_json) (shape : list Z) : Prop :=
  PUT_Chunk_params E req = Ok a /\
  opt_truthy (pa_query a) = false /\
  cache_check E (pa_chunk_id a) = Ok tt /\
  get_metadata_obj E (getDatasetId E (pa_chunk_id a)) (pa_bucket a) = Ok d /\
  exists (dims : list Z) (dset_dt select_dt : dtype) (selection : list sel_entry)
         (mshape : list Z) (bcshape : option (list Z)) (chunk_arr : arr),
    getChunkLayout d = Ok dims /\
    type_dtype (dj_type d) = Ok dset_dt /\
    (if list_truthy (pa_select_fields a)
     then getSubType E dset_dt (pa_select_fields a) else Ok dset_dt) = Ok select_dt /\
    getSelectionList
      (match rq_params req !! "select"%string with
       | Some s => SelStr s
       | None => SelNone
       end) dims = Ok selection /\
    getSelectionShape selection = Ok mshape /\
    match pa_element_count a with
    | Some element_count => getBroadcastShape E mshape element_count
    | None => Ok None
    end = Ok bcshape /\
    shape = (if shape_truthy bcshape then default [] bcshape else mshape) /\
    get_chunk E (pa_chunk_id a) d
      {| kw_chunk_init := true; kw_bucket := Some (pa_bucket a);
         kw_s3path := None; kw_s3offset := None; kw_s3size := None;
         kw_hyper_dims := None |} = Ok (Some chunk_arr).

(** What a write has done on its collaborators when it reaches the
    payload-size test. *)
Definition fetched {arr : Type} (E : Env arr) (a : put_args) : list event :=
  [EvGetMetadata (getDatasetId E (pa_chunk_id a)); EvGetChunk (pa_chunk_id a) true].

(** The events that fetch, persist or change a chunk. *)
Definition is_chunk_event (ev : event) : bool :=
  match ev with
  | EvGetChunk _ _ | EvSaveChunk _ | EvChunkQuery _ | EvChunkWriteSelection
  | EvChunkReadSelection | EvChunkWritePoints | EvChunkReadPoints => true
  | _ => false
  end.

(** ** A small deployment, to run the handlers on *)

Definition sample_dset : dset_json :=
  {| dj_shape := {| shape_class := Some "H5S_SIMPLE"%string; shape_dims := Some [100] |};
     dj_layout := Some {| layout_class := Some "H5D_CHUNKED"%string;
                          layout_dims := Some [10] |};
     dj_type := {| type_size := Some 4; type_dtype := Ok (Dtype [] false) |};
     dj_initializer := Some "arange"%string |}.

(** One dataset with chunks of ten four-byte elements; arrays are lists of
    integers and the kernels do the least possible. [resident] and [free]
    are the state of the chunk cache. *)
Definition sample_env (resident : gset string) (free : Z) : Env (list Z) :=
  {| isValidUuid := fun _ => true;
     isValidBucketName := fun _ => true;
     validateInPartition := fun _ => true;
     min_chunk_size := 1024;
     write_zero_chunks := false;
     chunk_cache := resident;
     memFree := free;
     getDatasetId := fun _ => "d-0001"%string;
     getChunkIndex := fun _ => Ok [0];
     get_metadata_obj := fun _ _ => Ok sample_dset;
     getSubType := fun dt _ => Ok dt;
     getBroadcastShape := fun shape _ => Ok (Some shape);
     get_chunk := fun _ _ _ => Ok (Some (replicate 10 0));
     arr_dtype := fun _ => Dtype [] false;
     arr_rows := fun a => len a;
     BooleanParser_evalstr := fun q => Ok q;
     chunkQuery := fun _ _ a _ _ _ _ _ => Ok (Some a);
     bytesToArray := fun b _ _ => Ok b;
     arrayToBytes := fun a => a;
     reshape := fun a _ => Ok a;
     broadcast_to := fun a _ _ => Ok a;
     chunkWriteSelection := fun _ _ _ => Ok true;
     chunkReadSelection := fun a _ _ => Ok a;
     chunkWritePoints := fun _ _ _ _ _ => Ok tt;
     chunkReadPoints := fun _ _ a _ _ => Ok a;
     np_sum := fun o => Ok (fold_right Z.add 0 (default [] o));
     np_size_test := fun _ _ _ => Ok false |}.

(** A write of ten elements to the chunk ["c-0001_0"]. *)
Definition sample_put : request :=
  {| rq_params := <["bucket"%string := "b"%string]> ∅;
     rq_id := Some "c-0001_0"%string;
     rq_has_body := true;
     rq_content_length := Some 40;
     rq_content_type := "binary"%string;
     rq_bytes := replicate 40 0;
     rq_json := Raise (ValueError "not JSON") |}.

(** A write of four elements, [0:4], that carries twelve bytes. *)
Definition sample_put_short : request :=
  {| rq_params := <["select"%string := "[0:4]"%string]>
                    (<["bucket"%string := "b"%string]> ∅);
     rq_id := Some "c-0001_0"%string;
     rq_has_body := true;
     rq_content_length := Some 12;
     rq_content_type := "binary"%string;
     rq_bytes := replicate 12 0;
     rq_json := Raise (ValueError "not JSON") |}.

(** A hyperslab read through [POST_Chunk] whose selection runs past the
    chunk: [0:100] on a chunk of extent 10. *)
Definition sample_post_bad_select : request :=
  {| rq_params := <["bucket"%string := "b"%string]> ∅;
     rq_id := Some "c-0001_0"%string;
     rq_has_body := true;
     rq_content_length := Some 20;
     rq_content_type := "json"%string;
     rq_bytes := [];
     rq_json := Ok {| json_truthy := true;
                      json_select := Some (SelStr "[0:100]");
                      json_fields := None |} |}.

(** ** Further notions *)

(** An entry that stays inside a dimension of the given extent. *)
Definition in_bounds (extent : Z) (e : sel_entry) : Prop :=
  match e with
  | Range s =>
      0 <= sl_start s <= sl_stop s /\ sl_stop s <= extent /\ 1 <= sl_step s /\
      (0 < extent -> sl_start s < sl_stop s)
  | Coords l => Forall (fun c => 0 <= c < extent) l
  end.

(** The selection of everything: [0:extent:1] in every dimension. *)
Definition select_all (dims : list Z) : list sel_entry :=
  (fun extent => Range (Slice 0 extent 1)) <$> dims.

(** Pages that cut [a, b) into consecutive non-empty ranges. *)
Fixpoint tiles (pages : list sel_entry) (a b : Z) : Prop :=
  match pages with
  | [] => a = b
  | Range p :: rest => sl_start p = a /\ a < sl_stop p /\ tiles rest (sl_stop p) b
  | Coords _ :: _ => False
  end.

(** A page of the given stride, at most [width] wide. *)
Definition page_of (step width : Z) (p : sel_entry) : Prop :=
  match p with
  | Range p => sl_step p = step /\ sl_stop p - sl_start p <= width
  | Coords _ => False
  end.

(** The stops [getPreviewQuery] writes for the dimensions [i], ..., [i+n-1]. *)
Fixpoint preview_stops (i n : nat) (rank nrows ncols : Z) : list Z :=
  match n with
  | O => []
  | S n' =>
      (if Z.of_nat i =? rank - 1 then ncols
       else if Z.of_nat i =? rank - 2 then nrows else 1)
        :: preview_stops (S i) n' rank nrows ncols
  end.

(** The text [getSliceQueryParam] writes for a coordinate list. *)
Definition coords_text (l : list Z) : string :=
  ("[" ++ join "," (str_of_int <$> l) ++ "]")%string.

(** The text it writes for one dimension: the stride only when above 1. *)
Definition entry_text (e : sel_entry) : string :=
  match e with
  | Range s =>
      dim_expr (sl_start s) (sl_stop s)
        (if 1 <? sl_step s then Some (sl_step s) else None)
  | Coords l => coords_text l
  end.

(** An entry the parser accepts for a dimension of the given extent: a
    non-empty range or coordinate list inside it. *)
Definition accepted (extent : Z) (e : sel_entry) : Prop :=
  match e with
  | Range s => 0 <= sl_start s < sl_stop s /\ sl_stop s <= extent /\ 1 <= sl_step s
  | Coords l => l <> [] /\ Forall (fun c => 0 <= c < extent) l
  end.

(** A piece of text the scanner of [_getSelectElements] passes over as part
    of one dimension. *)
Definition scans (d : string) : Prop :=
  chars d <> [] /\
  forall rest query_array dim_query,
    scan_select (chars d ++ rest) query_array dim_query false
    = scan_select rest query_array (dim_query ++ chars d) false.

(** [maxdims[n]] lets dimension [n] grow beyond [d]. *)
Definition can_grow (m : maxdim) (d : Z) : Prop :=
  match m with
  | MaxInt n => n = 0 \/ d < n
  | MaxStr s => s = "H5S_UNLIMITED"%string
  end.

(** An entry of [maxdims] as the service writes them: an integer or
    ["H5S_UNLIMITED"]. *)
Definition maxdim_wf (m : maxdim) : Prop :=
  match m with
  | MaxInt _ => True
  | MaxStr s => s = "H5S_UNLIMITED"%string
  end.

(** An object store with one object, for the key ["k"]. *)
Definition sample_stor : Stor :=
  {| stor_isValidUuid := fun _ => true;
     stor_isValidBucketName := fun _ => true;
     stor_validateInPartition := fun _ => true;
     stor_getS3Key := fun _ => "k"%string;
     stor_getDatasetId := fun _ => "d-0001"%string;
     isStorObj := fun key _ => Ok (String.eqb key "k");
     deleteStorObj := fun _ _ => Ok tt |}.

Definition sample_delete : request :=
  {| rq_params := <["bucket"%string := "b"%string]> ∅;
     rq_id := Some "c-0001"%string;
     rq_has_body := false;
     rq_content_length := Some 0;
     rq_content_type := ""%string;
     rq_bytes := [];
     rq_json := Raise (ValueError "") |}.

Definition sample_state : app_state :=
  {| st_chunk_cache := {["c-0001"%string]};
     st_filter_map := <["d-0001"%string := ∅]> ∅ |}.

(** The kernel calls that change the content of a chunk. *)
Definition changes_chunk (ev : event) : bool :=
  match ev with
  | EvChunkWriteSelection | EvChunkWritePoints | EvChunkQuery true => true
  | _ => false
  end.

(** A binary request that writes one point. *)
Definition sample_post_put : request :=
  {| rq_params := <["action"%string := "put"%string]>
                    (<["count"%string := "1"%string]>
                       (<["bucket"%string := "b"%string]> ∅));
     rq_id := Some "c-0001_0"%string;
     rq_has_body := true;
     rq_content_length := Some 12;
     rq_content_type := "binary"%string;
     rq_bytes := replicate 12 0;
     rq_json := Raise (ValueError "not JSON") |}.

(** A write whose selection does not fit the chunk. *)
Definition sample_put_bad_select : request :=
  {| rq_params := <["select"%string := "[0:100]"%string]>
                    (<["bucket"%string := "b"%string]> ∅);
     rq_id := Some "c-0001_0"%string;
     rq_has_body := true;
     rq_content_length := Some 40;
     rq_content_type := "binary"%string;
     rq_bytes := replicate 40 0;
     rq_json := Raise (ValueError "not JSON") |}.

(** A dimension of a selection given as a list: the text of a range, the
    list itself for a coordinate list. *)
Definition entry_element (e : sel_entry) : element :=
  match e with
  | Range _ => ElStr (entry_text e)
  | Coords l => ElList l
  end.

(** * Properties *)

(** ** Arithmetic helpers *)

Lemma ceil_div_floor (a b : Z) :
  0 < b -> ceil_div a b = a / b + (if a mod b =? 0 then 0 else 1).
Proof.
  intros Hb. unfold ceil_div.
  destruct (Z.eqb_spec (a mod b) 0) as [Hz | Hnz].
  - rewrite Z.div_opp_l_z by lia. lia.
  - rewrite Z.div_opp_l_nz by lia. lia.
Qed.

Lemma ceil_div_1 (a : Z) : ceil_div a 1 = a.
Proof. unfold ceil_div. rewrite Z.div_1_r. lia. Qed.

Lemma len_nonneg {A : Type} (l : list A) : 0 <= len l.
Proof. unfold len. lia. Qed.

Lemma len_cons {A : Type} (x : A) (l : list A) : len (x :: l) = len l + 1.
Proof. unfold len. simpl. lia. Qed.

Lemma len_app {A : Type} (l k : list A) : len (l ++ k) = len l + len k.
Proof. unfold len. rewrite length_app. lia. Qed.

(** ** getSelectionShape *)

Lemma slice_extent_ceil (s : slice) :
  valid_range s -> slice_extent s = entry_extent (Range s).
Proof.
  intros [[H0 Hlt] Hstep]. unfold slice_extent, entry_extent, truthy.
  rewrite ceil_div_floor by lia.
  replace (sl_start s <? sl_stop s) with true by (symmetry; apply Z.ltb_lt; lia).
  replace (sl_step s =? 0) with false by (symmetry; apply Z.eqb_neq; lia).
  simpl negb. rewrite andb_true_l.
  destruct (1 <? sl_step s) eqn:Hs; cbn [andb]; rewrite ?Hs; cbn [andb].
  - apply Z.ltb_lt in Hs.
    replace (0 <? sl_stop s - sl_start s) with true by (symmetry; apply Z.ltb_lt; lia).
    destruct (Z.eqb_spec ((sl_stop s - sl_start s) mod sl_step s) 0); cbn [negb]; lia.
  - apply Z.ltb_ge in Hs. assert (sl_step s = 1) as Hone by lia.
    rewrite Hone, Z.mod_1_r, Z.div_1_r. cbn. lia.
Qed.

Lemma coords_equal_length_tail (e : sel_entry) (sel : list sel_entry) :
  coords_equal_length (e :: sel) -> coords_equal_length sel.
Proof.
  intros H i j li lj Hi Hj. exact (H (S i) (S j) li lj Hi Hj).
Qed.

Lemma coords_equal_length_head (l : list Z) (sel : list sel_entry) (l' : list Z) :
  coords_equal_length (Coords l :: sel) -> Coords l' ∈ sel -> len l' = len l.
Proof.
  intros H Hin. apply list_elem_of_lookup in Hin as [j Hj].
  unfold len. f_equal. exact (H (S j) O l' l Hj eq_refl).
Qed.

(** The loop, started in any state that agrees with the coordinate lists
    still to come. *)
Lemma getSelectionShape_loop_spec (sel : list sel_entry) :
  forall (ce : option Z) (shape : list Z),
    Forall valid_entry sel ->
    coords_equal_length sel ->
    (forall c l, ce = Some c -> Coords l ∈ sel -> len l = c) ->
    getSelectionShape_loop sel ce shape
    = Ok (shape ++ shape_of (bool_decide (is_Some ce)) sel).
Proof.
  induction sel as [| e sel IH]; intros ce shape Hv Heq Hce; simpl.
  - by rewrite app_nil_r.
  - apply Forall_cons in Hv as [He Hv].
    pose proof (coords_equal_length_tail _ _ Heq) as Heq'.
    destruct e as [s | l].
    + rewrite IH; [| done | done |].
      * rewrite <- app_assoc. simpl. by rewrite slice_extent_ceil.
      * intros c l Hc Hin. apply (Hce c l Hc). by right.
    + destruct ce as [c |].
      * rewrite (Hce c l eq_refl) by left. rewrite Z.eqb_refl. simpl.
        rewrite IH; [done | done | done |].
        intros c' l' Hc Hin. apply (Hce c' l' Hc). by right.
      * rewrite IH; [| done | done |].
        -- rewrite <- app_assoc. simpl. done.
        -- intros c l' [= <-] Hin. by apply (coords_equal_length_head l sel).
Qed.

Lemma shape_of_per_dimension (sel : list sel_entry) (seen : bool) :
  (count_coords sel + (if seen then 1 else 0) <= 1)%nat ->
  shape_of seen sel = entry_extent <$> sel.
Proof.
  revert seen. induction sel as [| e sel IH]; intros seen Hc; [done |].
  destruct e as [s | l]; simpl.
  - f_equal. apply IH. exact Hc.
  - unfold count_coords in Hc. simpl in Hc.
    destruct seen; [lia |]. f_equal. apply IH. unfold count_coords. lia.
Qed.

(** C5, as stated, fails: two coordinate lists of equal length give one
    extent, not two. *)
Lemma two_coordinate_lists_one_extent :
  ~ one_extent_per_dimension [Coords [1; 2]; Coords [3; 4]].
Proof.
  intros H.
  assert (data_model [Coords [1; 2]; Coords [3; 4]]) as Hd.
  { split; [repeat constructor |].
    intros i j li lj Hi Hj.
    destruct i as [| [| i]]; destruct j as [| [| j]]; simpl in Hi, Hj;
      try discriminate; injection Hi as <-; injection Hj as <-; reflexivity. }
  specialize (H Hd). vm_compute in H. discriminate H.
Qed.

(** C5 (amended): on a selection of the data model [getSelectionShape]
    returns one extent per range entry, [ceil((stop - start) / stride)], and
    one extent, the list length, for the first coordinate list; further
    coordinate lists add no extent.  With at most one coordinate list the
    shape has one extent per dimension.  The three examples hold. *)
Theorem getSelectionShape_extents :
  (forall sel : list sel_entry,
      data_model sel ->
      getSelectionShape sel = Ok (shape_of false sel) /\
      ((count_coords sel <= 1)%nat ->
       getSelectionShape sel = Ok (entry_extent <$> sel))) /\
  getSelectionShape [Range (Slice 3 7 1)] = Ok [4] /\
  getSelectionShape [Range (Slice 3 7 3)] = Ok [2] /\
  getSelectionShape [Range (Slice 44 52 1); Range (Slice 48 52 1)] = Ok [8; 4].
Proof.
  split; [| by vm_compute].
  intros sel [Hv Heq].
  assert (getSelectionShape sel = Ok (shape_of false sel)) as Hs.
  { unfold getSelectionShape. rewrite getSelectionShape_loop_spec; try done. }
  split; [exact Hs |].
  intros Hc. rewrite Hs. f_equal. apply shape_of_per_dimension. lia.
Qed.

Lemma getSelectionShape_extents_witness :
  data_model [Range (Slice 3 7 3); Coords [1; 2; 7]] /\
  getSelectionShape [Range (Slice 3 7 3); Coords [1; 2; 7]] = Ok [2; 3].
Proof.
  assert (data_model [Range (Slice 3 7 3); Coords [1; 2; 7]]) as Hd.
  { split.
    - repeat constructor; simpl; lia.
    - intros i j li lj Hi Hj.
      destruct i as [| [| i]]; destruct j as [| [| j]]; simpl in Hi, Hj;
        try discriminate; injection Hi as <-; injection Hj as <-; reflexivity. }
  split; [exact Hd |].
  exact (proj1 (proj1 getSelectionShape_extents _ Hd)).
Defined.

(** ** getSelectionPagination: the pagination dimension and the page extent *)

Lemma find_paginate_dim_none (select : list sel_entry) (n i : nat) :
  (i + n <= length select)%nat ->
  (forall j s, select !! j = Some s -> paginate_extent_of s <= 1) ->
  find_paginate_dim select i n = Ok None.
Proof.
  revert i. induction n as [| n IH]; intros i Hlen Hall; [done |].
  simpl. destruct (select !! i) as [s |] eqn:Hs.
  - pose proof (Hall i s Hs) as Hle.
    replace (1 <? paginate_extent_of s) with false by (symmetry; apply Z.ltb_ge; lia).
    apply IH; [lia | done].
  - apply lookup_ge_None in Hs. lia.
Qed.

Lemma find_paginate_dim_first (select : list sel_entry) (d : nat) (s : sel_entry)
    (n i : nat) :
  is_pagination_dim select d s ->
  (i <= d < i + n)%nat ->
  find_paginate_dim select i n = Ok (Some (d, paginate_extent_of s)).
Proof.
  intros (Hd & Hgt & Hbefore). revert i.
  induction n as [| n IH]; intros i Hi; [lia |].
  simpl. destruct (decide (i = d)) as [-> | Hne].
  - rewrite Hd. by replace (1 <? paginate_extent_of s) with true
      by (symmetry; apply Z.ltb_lt; lia).
  - assert (i < d)%nat as Hlt by lia.
    destruct (select !! i) as [s' |] eqn:Hs'.
    + pose proof (Hbefore i s' Hlt Hs') as Hle.
      replace (1 <? paginate_extent_of s') with false by (symmetry; apply Z.ltb_ge; lia).
      apply IH. lia.
    + apply lookup_ge_None in Hs'. apply lookup_lt_Some in Hd. lia.
Qed.

Lemma build_page_insert (select : list sel_entry) (d : nat) (page : sel_entry)
    (n i : nat) :
  (i + n = length select)%nat ->
  build_page select d page i n = Ok (drop i (<[d := page]> select)).
Proof.
  revert i. induction n as [| n IH]; intros i Hlen; simpl.
  - rewrite drop_ge; [done |]. rewrite length_insert. lia.
  - assert (i < length select)%nat as Hi by lia.
    destruct (lookup_lt_is_Some_2 select i Hi) as [x Hx].
    destruct (Nat.eqb_spec i d) as [-> | Hne].
    + rewrite IH by lia. simpl.
      rewrite (drop_S (<[d := page]> select) page d); [done |].
      by apply list_lookup_insert_eq.
    + rewrite Hx, IH by lia. simpl.
      rewrite (drop_S (<[d := page]> select) x i); [done |].
      by rewrite list_lookup_insert_ne.
Qed.

Lemma build_pagination_map (select : list sel_entry) (d : nat)
    (pages : list sel_entry) :
  build_pagination select d (length select) pages
  = Ok ((fun p => <[d := p]> select) <$> pages).
Proof.
  induction pages as [| p pages IH]; [done |].
  simpl. rewrite build_page_insert by lia. rewrite IH. done.
Qed.

Lemma page_stop_bounds (s : slice) (step page_extent start : Z) :
  1 <= step -> 1 <= page_extent -> start < sl_stop s ->
  start < page_stop s step page_extent start <= sl_stop s.
Proof.
  intros Hstep Hpe Hlt. unfold page_stop.
  pose proof (Z.mod_pos_bound (start + page_extent) step ltac:(lia)) as Hm.
  destruct (negb ((start + page_extent) mod step =? 0));
    match goal with |- context [?a <? ?b] => destruct (Z.ltb_spec a b) end; lia.
Qed.

Lemma slice_pages_total (s : slice) (step page_extent : Z) (fuel : nat) :
  forall start,
    1 <= step -> 1 <= page_extent ->
    sl_stop s - start <= Z.of_nat fuel ->
    exists pages, slice_pages fuel s step page_extent start = Some pages /\
                  (start < sl_stop s -> pages <> []).
Proof.
  induction fuel as [| fuel IH]; intros start Hstep Hpe Hfuel.
  - exists []. simpl. replace (start <? sl_stop s) with false
      by (symmetry; apply Z.ltb_ge; lia). split; [done | lia].
  - simpl. destruct (Z.ltb_spec start (sl_stop s)) as [Hlt | Hge].
    + pose proof (page_stop_bounds s step page_extent start Hstep Hpe Hlt) as Hb.
      destruct (IH (page_stop s step page_extent start) Hstep Hpe ltac:(lia))
        as (rest & -> & _).
      simpl. eexists. split; [done | done].
    + exists []. split; [done | lia].
Qed.

Lemma coord_pages_total (s : list Z) (page_extent : Z) (fuel : nat) :
  forall start,
    1 <= page_extent ->
    len s - start <= Z.of_nat fuel ->
    exists pages, coord_pages fuel s page_extent start = Some pages /\
                  (start < len s -> pages <> []).
Proof.
  induction fuel as [| fuel IH]; intros start Hpe Hfuel.
  - exists []. simpl. replace (start <? len s) with false
      by (symmetry; apply Z.ltb_ge; lia). split; [done | lia].
  - simpl. destruct (Z.ltb_spec start (len s)) as [Hlt | Hge].
    + destruct (Z.ltb_spec (len s) (start + page_extent)) as [Hclip | Hin].
      * destruct (IH (len s) Hpe ltac:(lia)) as (rest & -> & _).
        simpl. eexists. split; done.
      * destruct (IH (start + page_extent) Hpe ltac:(lia)) as (rest & -> & _).
        simpl. eexists. split; done.
    + exists []. split; [done | lia].
Qed.

Lemma paginate_step_pos (s : slice) : 1 <= sl_step s -> 1 <= paginate_step s.
Proof.
  intros H. unfold paginate_step.
  destruct (truthy (sl_step s) && (1 <? sl_stop s)); lia.
Qed.

Lemma paginate_slices_of_total (s : sel_entry) (page_extent : Z) :
  valid_entry s -> 1 <= page_extent -> 1 < paginate_extent_of s ->
  exists pages, paginate_slices_of s page_extent = Some pages /\ pages <> [].
Proof.
  intros Hv Hpe Hext. destruct s as [s | l]; simpl in *.
  - destruct Hv as [[H0 Hlt] Hstep].
    destruct (slice_pages_total s (paginate_step s) page_extent
                (Z.to_nat (sl_stop s - sl_start s)) (sl_start s))
      as (pages & Hp & Hne); [by apply paginate_step_pos | done | lia |].
    exists pages. split; [done | apply Hne; lia].
  - destruct (coord_pages_total l page_extent (length l) 0)
      as (pages & Hp & Hne); [done | unfold len; lia |].
    exists pages. split; [done | apply Hne; lia].
Qed.

(** C4, as stated, fails: a pagination dimension exists, yet the call
    raises, because that dimension is shorter than the number of pages. *)
Lemma short_pagination_dimension_raises :
  getSelectionPagination [Range (Slice 0 2 1); Range (Slice 0 100 1)] [2; 100] 1 10
  = Some (Raise (ValueError too_many_pages)) /\
  ~ paginates_when_dim_exists [Range (Slice 0 2 1); Range (Slice 0 100 1)] [2; 100] 1 10.
Proof.
  split; [by vm_compute |].
  intros H. destruct (H [2; 100]) as [pages Hp].
  - by vm_compute.
  - by vm_compute.
  - exists 0%nat, (Range (Slice 0 2 1)). split; [done |]. split; [by vm_compute |].
    intros j s' Hj. lia.
  - vm_compute in Hp. discriminate Hp.
Qed.

(** The extent the paginator looks at is the span [stop - start] of a range,
    whatever its stride: [0:3:5] selects one index, and is still taken as
    the pagination dimension before [0:10]. Its only page is the range
    itself. *)
Lemma pagination_dimension_by_span :
  getSelectionShape [Range (Slice 0 3 5); Range (Slice 0 10 1)] = Ok [1; 10] /\
  is_pagination_dim [Range (Slice 0 3 5); Range (Slice 0 10 1)] 0
    (Range (Slice 0 3 5)) /\
  getSelectionPagination [Range (Slice 0 3 5); Range (Slice 0 10 1)] [3; 10] 1 5
  = Some (Ok [[Range (Slice 0 3 5); Range (Slice 0 10 1)]]).
Proof.
  split; [by vm_compute |]. split; [| by vm_compute].
  split; [done |]. split; [by vm_compute |]. intros j s' Hj. lia.
Qed.

(** The paginator on a selection over budget, case by case. *)
Lemma paginate_over_budget
    (select : list sel_entry) (dims : list Z) (itemsize max_request_size : Z)
    (shape : list Z) :
  Forall valid_entry select ->
  length dims = length select ->
  getSelectionShape select = Ok shape ->
  0 < max_request_size ->
  max_request_size < prod shape * itemsize ->
  let page_count := prod shape * itemsize / max_request_size + 1 in
  ((forall j s, select !! j = Some s -> paginate_extent_of s <= 1) ->
   getSelectionPagination select dims itemsize max_request_size
   = Some (Raise (ValueError no_paginate_dim))) /\
  (forall d s,
      is_pagination_dim select d s ->
      let extent := paginate_extent_of s in
      let page_extent := extent / page_count in
      (extent < page_count ->
       getSelectionPagination select dims itemsize max_request_size
       = Some (Raise (ValueError too_many_pages))) /\
      (page_count <= extent ->
       1 <= page_extent /\
       exists pages,
         paginate_slices_of s page_extent = Some pages /\ pages <> [] /\
         getSelectionPagination select dims itemsize max_request_size
         = Some (Ok ((fun p => <[d := p]> select) <$> pages)))).
Proof.
  intros Hv Hlen Hshape Hmax Hover page_count.
  assert (2 <= page_count) as Hpc.
  { unfold page_count.
    assert (1 <= prod shape * itemsize / max_request_size); [| lia].
    apply Z.div_le_lower_bound; lia. }
  unfold getSelectionPagination. rewrite Hshape.
  replace (prod shape * itemsize <=? max_request_size) with false
    by (symmetry; apply Z.leb_gt; lia).
  rewrite Hlen. split.
  - intros Hall. by rewrite find_paginate_dim_none.
  - intros d s Hd.
    set (extent := paginate_extent_of s).
    set (page_extent := extent / page_count).
    pose proof Hd as (Hlook & Hgt & _).
    rewrite (find_paginate_dim_first select d s) by
      (try done; apply lookup_lt_Some in Hlook; lia).
    replace (max_request_size =? 0) with false by (symmetry; apply Z.eqb_neq; lia).
    fold page_count.
    replace (page_count =? 0) with false by (symmetry; apply Z.eqb_neq; lia).
    rewrite Hlook. fold extent. split.
    + intros Hlt. by replace (extent <? page_count) with true
        by (symmetry; apply Z.ltb_lt; lia).
    + intros Hge.
      replace (extent <? page_count) with false by (symmetry; apply Z.ltb_ge; lia).
      assert (1 <= page_extent) as Hpe.
      { unfold page_extent. apply Z.div_le_lower_bound; lia. }
      split; [exact Hpe |].
      fold page_extent.
      replace (page_extent <? 1) with false by (symmetry; apply Z.ltb_ge; lia).
      assert (valid_entry s) as Hs.
      { rewrite Forall_forall in Hv. apply Hv.
        apply list_elem_of_lookup. by exists d. }
      destruct (paginate_slices_of_total s page_extent Hs Hpe Hgt)
        as (pages & Hpages & Hne).
      exists pages. rewrite Hpages. split; [done |]. split; [done |].
      by rewrite build_pagination_map.
Qed.

(** C1: the pages of a strided range whose start is not a multiple of the
    stride do not reproduce the selection.  For [1:20:3] with one-byte items
    and a budget of 3 bytes the paginator returns [1:9:3], [9:15:3] and
    [15:20:3]; together they cover 1, 4, 7, 9, 12, 15, 18, while the selection
    covers 1, 4, 7, 10, 13, 16, 19. *)
Theorem pagination_shifts_strided_pages :
  getSelectionPagination [Range (Slice 1 20 3)] [20] 1 3
  = Some (Ok [[Range (Slice 1 9 3)]; [Range (Slice 9 15 3)]; [Range (Slice 15 20 3)]]) /\
  mjoin (selection_coords <$>
           [[Range (Slice 1 9 3)]; [Range (Slice 9 15 3)]; [Range (Slice 15 20 3)]])
  = [[1]; [4]; [7]; [9]; [12]; [15]; [18]] /\
  selection_coords [Range (Slice 1 20 3)]
  = [[1]; [4]; [7]; [10]; [13]; [16]; [19]].
Proof. by vm_compute. Qed.

(** ** ItemIterator *)

Lemma range_from_fuel (stop step : Z) (fuel fuel' : nat) :
  forall i,
    1 <= step ->
    stop - i <= Z.of_nat fuel -> stop - i <= Z.of_nat fuel' ->
    range_from fuel i stop step = range_from fuel' i stop step.
Proof.
  revert fuel'. induction fuel as [| fuel IH]; intros fuel' i Hstep Hf Hf'.
  - destruct fuel' as [| fuel']; [done |]. simpl.
    by replace (i <? stop) with false by (symmetry; apply Z.ltb_ge; lia).
  - destruct fuel' as [| fuel']; simpl.
    + by replace (i <? stop) with false by (symmetry; apply Z.ltb_ge; lia).
    + destruct (Z.ltb_spec i stop); [| done].
      f_equal. apply IH; lia.
Qed.

Lemma indices_from_lt (s : slice) (i : Z) :
  1 <= sl_step s -> i < sl_stop s ->
  indices_from s i = i :: indices_from s (i + sl_step s).
Proof.
  intros Hstep Hlt. unfold indices_from.
  destruct (Z.to_nat (sl_stop s - i)) as [| n] eqn:Hn; [lia |].
  simpl. replace (i <? sl_stop s) with true by (symmetry; apply Z.ltb_lt; lia).
  f_equal. apply range_from_fuel; lia.
Qed.

Lemma indices_from_ge (s : slice) (i : Z) :
  sl_stop s <= i -> indices_from s i = [].
Proof.
  intros Hge. unfold indices_from.
  destruct (Z.to_nat (sl_stop s - i)) as [| n] eqn:Hn; [done | lia].
Qed.

Lemma slice_indices_from_start (s : slice) :
  slice_indices s = indices_from s (sl_start s).
Proof. reflexivity. Qed.

Lemma row_major_cons (s : slice) (sel : list slice) :
  row_major (s :: sel)
  = x ← indices_from s (sl_start s); (fun t => x :: t) <$> row_major sel.
Proof. reflexivity. Qed.

(** [__init__] leaves every cursor on its slice's start. *)
Lemma init_index_starts (sel : list slice) (n i : nat) :
  (i + n = length sel)%nat ->
  init_index sel i n ((sl_start <$> take i sel) ++ replicate n 0)
  = sl_start <$> sel.
Proof.
  revert i. induction n as [| n IH]; intros i Hlen; simpl.
  - rewrite app_nil_r, take_ge by lia. done.
  - destruct (lookup_lt_is_Some_2 sel i ltac:(lia)) as [s Hs]. rewrite Hs.
    rewrite <- (IH (S i)) by lia. f_equal.
    rewrite (take_S_r sel i s Hs), fmap_app. simpl.
    rewrite <- app_assoc. simpl.
    assert (i = length (sl_start <$> take i sel) + 0)%nat as Hi.
    { rewrite length_fmap, length_take. lia. }
    rewrite Hi at 1. rewrite insert_app_r. done.
Qed.

Lemma as_slices_ranges (sel : list slice) : as_slices (Range <$> sel) = Ok sel.
Proof.
  induction sel as [| s sel IH]; [done |].
  rewrite fmap_cons. cbn [as_slices]. by rewrite IH.
Qed.

Lemma ItemIterator_init_ranges (sel : list slice) :
  ItemIterator_init (Range <$> sel)
  = Ok {| it_selection := sel; it_rank := length sel;
          it_index := sl_start <$> sel |}.
Proof.
  unfold ItemIterator_init. rewrite as_slices_ranges.
  simpl. f_equal. f_equal.
  exact (init_index_starts sel (length sel) 0 eq_refl).
Qed.

(** [tail_step] seen from the right end, the way the loop walks. *)
Lemma tail_step_snoc (sel : list slice) :
  forall (index : list Z) (s : slice) (v : Z),
    length sel = length index ->
    tail_step (sel ++ [s]) (index ++ [v])
    = if v + sl_step s <? sl_stop s then Some (index ++ [v + sl_step s])
      else (fun p => p ++ [sl_start s]) <$> tail_step sel index.
Proof.
  induction sel as [| a sel IH]; intros index s v Hlen.
  - destruct index; [| done]. simpl. by destruct (v + sl_step s <? sl_stop s).
  - destruct index as [| w index]; [done |]. simpl in Hlen.
    simpl. rewrite IH by lia.
    destruct (v + sl_step s <? sl_stop s); [done |].
    destruct (tail_step sel index) as [p |]; simpl; [done |].
    destruct (w + sl_step a <? sl_stop a); simpl; [| done].
    by rewrite fmap_app.
Qed.

Lemma next_loop_S (sel : list slice) (dim : nat) (index : list Z) :
  next_loop sel (S dim) index
  = match sel !! dim, index !! dim with
    | Some s, Some v =>
        if v + sl_step s <? sl_stop s then <[dim := v + sl_step s]> index
        else next_loop sel dim
               (if (0 <? dim)%nat
                then <[dim := sl_start s]> (<[dim := v + sl_step s]> index)
                else <[dim := v + sl_step s]> index)
    | _, _ => index
    end.
Proof. reflexivity. Qed.

(** The [while] loop of [next] with [n - 1] dimensions right of the first
    still to visit; the dimensions after them have been reset already. *)
Lemma next_loop_prefix (selp : list slice) :
  forall (pre : list Z) (s0 : slice) (v0 : Z) (sels : list slice) (suf : list Z),
    length selp = length pre ->
    next_loop (s0 :: selp ++ sels) (S (length selp)) (v0 :: pre ++ suf)
    = match tail_step selp pre with
      | Some pre' => v0 :: pre' ++ suf
      | None => v0 + sl_step s0 :: (sl_start <$> selp) ++ suf
      end.
Proof.
  induction selp as [| s selp IH] using rev_ind; intros pre s0 v0 sels suf Hlen.
  - destruct pre; [| done]. simpl.
    by destruct (v0 + sl_step s0 <? sl_stop s0).
  - destruct pre as [| v pre _] using rev_ind.
    { rewrite length_app in Hlen. simpl in Hlen. lia. }
    rewrite !length_app in Hlen. simpl in Hlen.
    assert (length selp = length pre) as Hlen' by lia.
    rewrite tail_step_snoc by done.
    rewrite length_app. simpl length.
    replace (S (length selp + 1)) with (S (S (length selp))) by lia.
    rewrite next_loop_S.
    assert ((s0 :: (selp ++ [s]) ++ sels) !! S (length selp) = Some s) as ->.
    { simpl. rewrite <- app_assoc. simpl. apply list_lookup_middle. done. }
    assert ((v0 :: (pre ++ [v]) ++ suf) !! S (length selp) = Some v) as ->.
    { simpl. rewrite <- app_assoc. simpl. apply list_lookup_middle. done. }
    assert (forall x y, <[S (length selp) := x]> (v0 :: (pre ++ [y]) ++ suf)
                        = v0 :: (pre ++ [x]) ++ suf) as Hins.
    { intros x y. simpl. f_equal. rewrite <- !app_assoc. simpl.
      rewrite Hlen'. replace (length pre) with (length pre + 0)%nat by lia.
      by rewrite insert_app_r. }
    rewrite Hins.
    destruct (v + sl_step s <? sl_stop s); [done |].
    cbn [Nat.ltb Nat.leb]. rewrite Hins.
    rewrite <- !app_assoc. cbn [app].
    rewrite (IH pre s0 v0 (s :: sels) (sl_start s :: suf) Hlen').
    destruct (tail_step selp pre) as [p |]; simpl.
    + by rewrite <- app_assoc.
    + by rewrite fmap_app, <- app_assoc.
Qed.

Lemma next_loop_next_index (sel : list slice) (index : list Z) :
  sel <> [] -> length sel = length index ->
  next_loop sel (length sel) index = next_index sel index.
Proof.
  intros Hne Hlen. destruct sel as [| s0 sel]; [done |].
  destruct index as [| v0 index]; [done |]. simpl in Hlen.
  pose proof (next_loop_prefix sel index s0 v0 [] [] ltac:(lia)) as H.
  rewrite !app_nil_r in H. simpl length. rewrite H. unfold next_index.
  destruct (tail_step sel index); by rewrite ?app_nil_r.
Qed.

Lemma valid_range_tail (s : slice) (sel : list slice) :
  Forall valid_range (s :: sel) -> valid_range s /\ Forall valid_range sel.
Proof. intros H. by apply Forall_cons in H. Qed.

Lemma starts_in_range (sel : list slice) :
  Forall valid_range sel ->
  Forall2 (fun s v => v < sl_stop s) sel (sl_start <$> sel).
Proof.
  induction 1 as [| s sel [[_ Hlt] _] _ IH]; simpl; constructor; done.
Qed.

Lemma tail_from_starts (sel : list slice) :
  Forall valid_range sel -> tail_from sel (sl_start <$> sel) = row_major sel.
Proof.
  induction 1 as [| s sel [[_ Hlt] Hstep] _ IH]; [done |].
  rewrite fmap_cons. cbn [tail_from]. rewrite IH, row_major_cons.
  rewrite (indices_from_lt s (sl_start s)) by done.
  by rewrite bind_cons.
Qed.

Lemma tail_step_in_range (sel : list slice) :
  forall index index',
    Forall valid_range sel ->
    Forall2 (fun s v => v < sl_stop s) sel index ->
    tail_step sel index = Some index' ->
    Forall2 (fun s v => v < sl_stop s) sel index'.
Proof.
  induction sel as [| s sel IH]; intros index index' Hv Hin Hstep.
  - by destruct index.
  - destruct index as [| v index]; [by inversion Hin |].
    apply valid_range_tail in Hv as [Hs Hv].
    apply Forall2_cons in Hin as [Hlt Hin]. simpl in Hstep.
    destruct (tail_step sel index) as [index'' |] eqn:Ht.
    + injection Hstep as <-. constructor; [done |]. by eapply IH.
    + destruct (Z.ltb_spec (v + sl_step s) (sl_stop s)); [| done].
      injection Hstep as <-. constructor; [done |]. by apply starts_in_range.
Qed.

(** The tuples from [index] on are [index] itself, then those from the next
    index on. *)
Lemma tail_from_step (sel : list slice) :
  forall index,
    Forall valid_range sel ->
    Forall2 (fun s v => v < sl_stop s) sel index ->
    tail_from sel index
    = index :: match tail_step sel index with
               | Some index' => tail_from sel index'
               | None => []
               end.
Proof.
  induction sel as [| s sel IH]; intros index Hv Hin.
  - by inversion Hin.
  - destruct index as [| v index]; [by inversion Hin |].
    apply valid_range_tail in Hv as [Hs Hv].
    apply Forall2_cons in Hin as [Hlt Hin].
    cbn [tail_from tail_step]. rewrite (IH index Hv Hin), fmap_cons.
    destruct (tail_step sel index) as [index' |] eqn:Ht; [done |].
    simpl app. f_equal.
    destruct (Z.ltb_spec (v + sl_step s) (sl_stop s)) as [Hnext | Hlast].
    + cbn [tail_from]. rewrite tail_from_starts by done.
      rewrite (indices_from_lt s (v + sl_step s)) by (try done; apply Hs).
      by rewrite bind_cons.
    + by rewrite indices_from_ge.
Qed.

Lemma make_item_as_item (rank : nat) (index : list Z) :
  index <> [] -> length index = rank ->
  make_item rank index = Ok (as_item index).
Proof.
  intros Hne <-. unfold make_item, as_item.
  destruct index as [| v [| w index]]; done.
Qed.

Lemma next_cons (s0 : slice) (sel : list slice) (v0 : Z) (index : list Z)
    (rank : nat) :
  next {| it_selection := s0 :: sel; it_rank := rank; it_index := v0 :: index |}
  = if sl_stop s0 <=? v0 then Raise StopIteration
    else
      x ← make_item rank (v0 :: index);
      Ok (x, {| it_selection := s0 :: sel; it_rank := rank;
                it_index := next_loop (s0 :: sel) rank (v0 :: index) |}).
Proof. reflexivity. Qed.

Lemma remaining_ge (s0 : slice) (sel : list slice) (v0 : Z) (index : list Z) :
  sl_stop s0 <= v0 -> remaining (s0 :: sel) (v0 :: index) = [].
Proof.
  intros H. unfold remaining.
  by replace (v0 <? sl_stop s0) with false by (symmetry; apply Z.ltb_ge; lia).
Qed.

Lemma remaining_lt (s0 : slice) (sel : list slice) (v0 : Z) (index : list Z) :
  v0 < sl_stop s0 ->
  remaining (s0 :: sel) (v0 :: index) = tail_from (s0 :: sel) (v0 :: index).
Proof.
  intros H. unfold remaining.
  by replace (v0 <? sl_stop s0) with true by (symmetry; apply Z.ltb_lt; lia).
Qed.

(** From any state of the iterator, calling [next] until it stops hands out
    exactly what is left. *)
Lemma items_remaining (fuel : nat) :
  forall (s0 : slice) (sel : list slice) (v0 : Z) (index : list Z),
    Forall valid_range (s0 :: sel) ->
    Forall2 (fun s v => v < sl_stop s) sel index ->
    (length (remaining (s0 :: sel) (v0 :: index)) < fuel)%nat ->
    items fuel {| it_selection := s0 :: sel; it_rank := length (s0 :: sel);
                  it_index := v0 :: index |}
    = Some (Ok (as_item <$> remaining (s0 :: sel) (v0 :: index))).
Proof.
  induction fuel as [| fuel IH]; intros s0 sel v0 index Hv Hin Hfuel; [lia |].
  pose proof (Forall2_length _ _ _ Hin) as Hlen.
  cbn [items]. rewrite next_cons.
  destruct (Z.leb_spec (sl_stop s0) v0) as [Hstop | Hgo].
  { by rewrite remaining_ge. }
  rewrite remaining_lt in * by done.
  rewrite make_item_as_item by (simpl; done || lia).
  rewrite next_loop_next_index by (simpl; done || lia).
  assert (Forall2 (fun s v => v < sl_stop s) (s0 :: sel) (v0 :: index)) as Hin0
    by (by constructor).
  rewrite (tail_from_step (s0 :: sel) (v0 :: index) Hv Hin0) in *.
  pose proof (valid_range_tail _ _ Hv) as [Hs0 Hvt].
  cbn [mbind result_bind] in *.
  unfold next_index. cbn [tail_step] in *.
  destruct (tail_step sel index) as [index' |] eqn:Ht.
  - rewrite (IH s0 sel v0 index' Hv).
    + by rewrite remaining_lt.
    + by eapply tail_step_in_range.
    + rewrite remaining_lt by done. cbn [length] in Hfuel. lia.
  - destruct (Z.ltb_spec (v0 + sl_step s0) (sl_stop s0)) as [Hnext | Hlast].
    + rewrite (IH s0 sel (v0 + sl_step s0) (sl_start <$> sel) Hv).
      * by rewrite remaining_lt.
      * by apply starts_in_range.
      * rewrite remaining_lt by done. cbn [length] in Hfuel. lia.
    + rewrite (IH s0 sel (v0 + sl_step s0) (sl_start <$> sel) Hv).
      * by rewrite remaining_ge.
      * by apply starts_in_range.
      * rewrite remaining_ge by done. cbn [length] in *. lia.
Qed.

Lemma singletons_as_items (l : list Z) :
  as_item <$> (x ← l; (fun t => x :: t) <$> [[]]) = Scalar <$> l.
Proof.
  induction l as [| x l IH]; [done |].
  rewrite bind_cons, fmap_app, IH. done.
Qed.

Lemma row_major_rank_1 (s : slice) :
  as_item <$> row_major [s] = Scalar <$> slice_indices s.
Proof. apply singletons_as_items. Qed.

(** C10: on an all-range selection of the data model, [ItemIterator] hands
    out exactly the coordinate tuples of the selection in row-major order and
    then stops; [next] stops exactly when the cursor of the first dimension
    has reached its stop; for rank 1 the items are scalar indices; over
    [0:3, 0:2] they are (0,0), (0,1), (1,0), (1,1), (2,0), (2,1). *)
Theorem ItemIterator_row_major :
  (forall sel : list slice,
      sel <> [] -> Forall valid_range sel ->
      exists it,
        ItemIterator_init (Range <$> sel) = Ok it /\
        forall fuel, (length (row_major sel) < fuel)%nat ->
          items fuel it = Some (Ok (as_item <$> row_major sel))) /\
  (forall it : ItemIterator,
      next it = Raise StopIteration <->
      exists i0 s0, it_index it !! 0%nat = Some i0 /\
                    it_selection it !! 0%nat = Some s0 /\ sl_stop s0 <= i0) /\
  (forall s : slice,
      valid_range s ->
      exists it,
        ItemIterator_init [Range s] = Ok it /\
        forall fuel, (length (slice_indices s) < fuel)%nat ->
          items fuel it = Some (Ok (Scalar <$> slice_indices s))) /\
  (exists it,
      ItemIterator_init [Range (Slice 0 3 1); Range (Slice 0 2 1)] = Ok it /\
      items 7 it = Some (Ok [Tuple [0; 0]; Tuple [0; 1]; Tuple [1; 0];
                             Tuple [1; 1]; Tuple [2; 0]; Tuple [2; 1]])).
Proof.
  assert (forall sel : list slice,
      sel <> [] -> Forall valid_range sel ->
      exists it,
        ItemIterator_init (Range <$> sel) = Ok it /\
        forall fuel, (length (row_major sel) < fuel)%nat ->
          items fuel it = Some (Ok (as_item <$> row_major sel))) as Hall.
  { intros sel Hne Hv. eexists. split; [apply ItemIterator_init_ranges |].
    intros fuel Hfuel. destruct sel as [| s0 sel]; [done |].
    pose proof (valid_range_tail _ _ Hv) as [[[_ Hlt] _] Hvt].
    assert (remaining (s0 :: sel) (sl_start <$> s0 :: sel) = row_major (s0 :: sel))
      as Hrem.
    { rewrite fmap_cons. unfold remaining.
      replace (sl_start s0 <? sl_stop s0) with true by (symmetry; apply Z.ltb_lt; lia).
      rewrite <- fmap_cons. by apply tail_from_starts. }
    rewrite <- Hrem. rewrite fmap_cons. apply items_remaining.
    - done.
    - by apply starts_in_range.
    - rewrite <- fmap_cons, Hrem. done. }
  split; [exact Hall |]. split; [| split].
  - intros it. unfold next. split.
    + destruct (it_index it !! 0%nat) as [i0 |]; [| done].
      destruct (it_selection it !! 0%nat) as [s0 |]; [| done].
      destruct (Z.leb_spec (sl_stop s0) i0) as [Hstop | Hgo].
      * intros _. by exists i0, s0.
      * destruct (make_item (it_rank it) (it_index it)) as [x | e] eqn:Hm; [done |].
        unfold make_item in Hm.
        destruct (Nat.eqb (it_rank it) 1); [| done].
        destruct (it_index it !! 0%nat); [done |]. by injection Hm as <-.
    + intros (i0 & s0 & -> & -> & Hstop).
      by replace (sl_stop s0 <=? i0) with true by (symmetry; apply Z.leb_le; lia).
  - intros s Hs.
    destruct (Hall [s] ltac:(done) ltac:(by constructor)) as (it & Hinit & Hitems).
    exists it. split; [exact Hinit |]. intros fuel Hfuel.
    rewrite <- row_major_rank_1. apply Hitems.
    pose proof (f_equal length (row_major_rank_1 s)) as Hl.
    rewrite !length_fmap in Hl. lia.
  - exists {| it_selection := [Slice 0 3 1; Slice 0 2 1]; it_rank := 2;
              it_index := [0; 0] |}.
    split; vm_compute; reflexivity.
Qed.

Lemma ItemIterator_row_major_witness :
  exists it,
    ItemIterator_init (Range <$> [Slice 0 5 2; Slice 1 3 1]) = Ok it /\
    items 7 it = Some (Ok [Tuple [0; 1]; Tuple [0; 2]; Tuple [2; 1];
                           Tuple [2; 2]; Tuple [4; 1]; Tuple [4; 2]]).
Proof.
  destruct (proj1 ItemIterator_row_major [Slice 0 5 2; Slice 1 3 1])
    as (it & Hinit & Hitems).
  - discriminate.
  - repeat constructor; simpl; lia.
  - exists it. split; [exact Hinit |].
    apply (Hitems 7%nat). vm_compute. lia.
Defined.

(** ** Filter resolution *)

Lemma dict_truthy_insert {V : Type} (k : string) (v : V) (d : gmap string V) :
  dict_truthy (<[k := v]> d) = true.
Proof.
  unfold dict_truthy. apply negb_true_iff, Nat.eqb_neq.
  intros Hsize. apply map_size_empty_inv in Hsize.
  by apply insert_non_empty in Hsize.
Qed.

Lemma compression_ops_keeps_shuffle (cf : option (gmap string fval))
    (ops ops' : gmap string opval) :
  compression_ops cf ops = Ok ops' ->
  is_Some (ops !! "shuffle"%string) -> is_Some (ops' !! "shuffle"%string).
Proof.
  intros H Hs. unfold compression_ops in H.
  destruct cf as [cf |]; [| by injection H as <-].
  destruct (dict_truthy cf); [| by injection H as <-].
  destruct (cf !! "class"%string) as [cls |]; [| done].
  cbn [mbind result_bind] in H.
  assert (forall o : gmap string opval,
             is_Some (o !! "shuffle"%string) ->
             match cf !! "level"%string with
             | Some level =>
                 level ← fval_int level; Ok (<["level"%string := OInt level]> o)
             | None => Ok (<["level"%string := OInt 5]> o)
             end = Ok ops' ->
             is_Some (ops' !! "shuffle"%string)) as Hlevel.
  { intros o Ho Hl. destruct (cf !! "level"%string) as [level |].
    - destruct (fval_int level) as [n | e]; [| done].
      injection Hl as <-. by rewrite lookup_insert_ne.
    - injection Hl as <-. by rewrite lookup_insert_ne. }
  destruct (fval_is cls "H5Z_FILTER_DEFLATE").
  - eapply Hlevel; [| exact H]. by rewrite lookup_insert_ne.
  - destruct (cf !! "name"%string) as [name |];
      (eapply Hlevel; [| exact H]; by rewrite lookup_insert_ne).
Qed.

(** On a miss [getFilterOps] never takes its [return None] branch: a
    descriptor always has the key [shuffle]. *)
Lemma getFilterOps_miss_returns_descriptor
    (filter_map : gmap string (gmap string opval)) (dset_id : string)
    (filters : list (gmap string fval)) (dt : option dtype)
    (chunk_shape : option (list Z)) (r : option (gmap string opval))
    (filter_map' : gmap string (gmap string opval)) :
  filter_map !! dset_id = None ->
  getFilterOps filter_map dset_id filters dt chunk_shape = Ok (r, filter_map') ->
  exists ops, r = Some ops /\ filter_map' = <[dset_id := ops]> filter_map /\
              is_Some (ops !! "shuffle"%string).
Proof.
  intros Hmiss H. unfold getFilterOps in H. rewrite Hmiss in H.
  destruct (getCompressionFilter filters) as [cf | e]; [| done].
  cbn [mbind result_bind] in H.
  destruct (shuffle_op (getShuffleFilter filters) dt) as [sh | e]; [| done].
  cbn [mbind result_bind] in H.
  destruct (compression_ops cf (<["shuffle"%string := OInt sh]> ∅))
    as [ops | e] eqn:Hc; [| done].
  cbn [mbind result_bind] in H.
  pose proof (compression_ops_keeps_shuffle _ _ _ Hc
                ltac:(by rewrite lookup_insert_eq)) as [v Hv].
  assert (dict_truthy ops = true) as Ht.
  { rewrite <- (insert_id ops _ _ Hv). apply dict_truthy_insert. }
  rewrite Ht in H. injection H as <- <-.
  eexists. split; [done |]. split; [done |].
  rewrite lookup_insert_ne by done. rewrite lookup_insert_ne by done. by eexists.
Qed.

(** C2: with no shuffle and no compression entry among the declared filters,
    and nothing memoized for the dataset, [getFilterOps] does not return
    [None]: it returns the descriptor [{shuffle: 0, chunk_shape, dtype}] and
    stores it in the memoization map. *)
Theorem getFilterOps_no_filters_is_memoized
    (filter_map : gmap string (gmap string opval)) (dset_id : string)
    (filters : list (gmap string fval)) (dt : option dtype)
    (chunk_shape : option (list Z)) :
  filter_map !! dset_id = None ->
  getShuffleFilter filters = None ->
  getCompressionFilter filters = Ok None ->
  let ops : gmap string opval :=
    <["dtype"%string := ODtype dt]>
      (<["chunk_shape"%string := OShape chunk_shape]>
         (<["shuffle"%string := OInt 0]> ∅)) in
  getFilterOps filter_map dset_id filters dt chunk_shape
  = Ok (Some ops, <[dset_id := ops]> filter_map).
Proof.
  intros Hmiss Hsh Hc ops. unfold getFilterOps.
  rewrite Hmiss, Hc, Hsh. cbn [mbind result_bind shuffle_op compression_ops].
  by rewrite dict_truthy_insert.
Qed.

Lemma getFilterOps_no_filters_is_memoized_witness :
  getFilterOps ∅ "d-0001" [] (Some (Dtype [] false)) (Some [10])
  = Ok (Some (<["dtype"%string := ODtype (Some (Dtype [] false))]>
                (<["chunk_shape"%string := OShape (Some [10])]>
                   (<["shuffle"%string := OInt 0]> ∅))),
        <["d-0001"%string :=
            <["dtype"%string := ODtype (Some (Dtype [] false))]>
              (<["chunk_shape"%string := OShape (Some [10])]>
                 (<["shuffle"%string := OInt 0]> ∅))]> ∅).
Proof.
  apply (getFilterOps_no_filters_is_memoized ∅ "d-0001" []
           (Some (Dtype [] false)) (Some [10])); reflexivity.
Defined.

(** ** Handler runs *)

Lemma trace_bind {A B : Type} (m : M A) (f : A -> M B) :
  trace (m ≫= f)
  = trace m ++ match outcome m with Ok a => trace (f a) | Raise _ => [] end.
Proof.
  unfold mbind, M_bind. destruct (outcome m); [done |]. by rewrite app_nil_r.
Qed.

Lemma outcome_bind {A B : Type} (m : M A) (f : A -> M B) :
  outcome (m ≫= f)
  = match outcome m with Ok a => outcome (f a) | Raise e => Raise e end.
Proof. unfold mbind, M_bind. by destruct (outcome m). Qed.

Lemma bind_raise {A B : Type} (m : M A) (f : A -> M B) (e : exn) :
  outcome m = Raise e -> m ≫= f = MkM (trace m) (Raise e).
Proof. intros H. unfold mbind, M_bind. by rewrite H. Qed.

(** ** PUT_Chunk: the cache check *)

Lemma PUT_Chunk_params_id {arr : Type} (E : Env arr) (req : request) (a : put_args) :
  PUT_Chunk_params E req = Ok a -> rq_id req = Some (pa_chunk_id a).
Proof.
  unfold PUT_Chunk_params, mbind, result_bind. intros H.
  repeat case_match; simplify_eq; done.
Qed.

(** C8: a write whose chunk is not in the chunk cache, sent while the
    cache's free memory is below [min_chunk_size], ends in an exception
    without any call on the chunk store or a kernel, and the exception is
    [HTTPServiceUnavailable] once the request has passed the tests on its
    parameters that come first; when the chunk is in the cache the check
    lets the request through, and the handler goes on to load the dataset
    descriptor. *)
Theorem PUT_Chunk_cache_check :
  (forall (arr : Type) (E : Env arr) (req : request) (c : string),
      rq_id req = Some c ->
      c ∉ chunk_cache E ->
      memFree E < min_chunk_size E ->
      trace (PUT_Chunk E req) = [] /\
      (exists e, outcome (PUT_Chunk E req) = Raise e) /\
      (is_ok (PUT_Chunk_params E req) = true ->
       outcome (PUT_Chunk E req) = Raise HTTPServiceUnavailable)) /\
  (forall (arr : Type) (E : Env arr) (req : request) (a : put_args),
      PUT_Chunk_params E req = Ok a ->
      pa_chunk_id a ∈ chunk_cache E ->
      cache_check E (pa_chunk_id a) = Ok tt /\
      exists rest,
        trace (PUT_Chunk E req)
        = EvGetMetadata (getDatasetId E (pa_chunk_id a)) :: rest).
Proof.
  split.
  - intros arr E req c Hid Hout Hfree. unfold PUT_Chunk.
    destruct (PUT_Chunk_params E req) as [a | e] eqn:Hp.
    + pose proof (PUT_Chunk_params_id E req a Hp) as Ha.
      rewrite Hid in Ha. injection Ha as ->.
      assert (cache_check E (pa_chunk_id a) = Raise HTTPServiceUnavailable) as Hc.
      { unfold cache_check. rewrite bool_decide_eq_false_2 by done.
        by replace (memFree E <? min_chunk_size E) with true
          by (symmetry; apply Z.ltb_lt; lia). }
      assert (PUT_Chunk_body E req a = MkM [] (Raise HTTPServiceUnavailable)) as Hb.
      { unfold PUT_Chunk_body. rewrite Hc. reflexivity. }
      rewrite trace_bind, outcome_bind. cbn [lift trace outcome]. rewrite Hb.
      split; [done |]. split; [by eexists | done].
    + rewrite trace_bind, outcome_bind. cbn [lift trace outcome].
      split; [done |]. split; [by eexists | done].
  - intros arr E req a Hp Hin.
    assert (cache_check E (pa_chunk_id a) = Ok tt) as Hc.
    { unfold cache_check. by rewrite bool_decide_eq_true_2. }
    split; [exact Hc |].
    unfold PUT_Chunk. rewrite Hp, trace_bind. cbn [lift trace outcome app].
    unfold PUT_Chunk_body. rewrite Hc, trace_bind. cbn [lift trace outcome app].
    rewrite trace_bind. cbn [call trace]. by eexists.
Qed.

Lemma PUT_Chunk_cache_check_witness :
  trace (PUT_Chunk (sample_env ∅ 100) sample_put) = [] /\
  outcome (PUT_Chunk (sample_env ∅ 100) sample_put) = Raise HTTPServiceUnavailable.
Proof.
  destruct (proj1 PUT_Chunk_cache_check (list Z) (sample_env ∅ 100) sample_put
              "c-0001_0"%string eq_refl ltac:(set_solver) ltac:(simpl; lia))
    as (Ht & _ & Ho).
  split; [exact Ht |]. apply Ho. reflexivity.
Defined.

(** ** Parsing and fetching *)

Lemma elem_of_trace_bind {A B : Type} (m : M A) (f : A -> M B) (ev : event) :
  ev ∈ trace (m ≫= f) ->
  ev ∈ trace m \/ exists a, outcome m = Ok a /\ ev ∈ trace (f a).
Proof.
  rewrite trace_bind. intros [H | H]%elem_of_app; [by left |].
  destruct (outcome m) as [a | e]; [right; by exists a | by apply elem_of_nil in H].
Qed.

(** The first statement of a sequence cannot be where a chunk event comes
    from: it has no event, or only the load of the dataset descriptor. *)
Ltac no_chunk_event H :=
  solve [ try unfold opt_param in H; cbn in H; repeat case_match; cbn in H;
          solve [ by apply elem_of_nil in H
                | apply list_elem_of_singleton in H; subst;
                  match goal with
                  | Hc : is_chunk_event _ = true |- _ => by cbn in Hc
                  end ] ].

(** One step into a sequence of handler statements: either the event comes
    from the first statement, or that statement returned and the event comes
    from the rest. *)
Ltac trace_step H x Hx :=
  apply elem_of_trace_bind in H as [H | (x & Hx & H)];
  [ no_chunk_event H | cbn in Hx ].

(** A test that raises: the event comes from the branch that goes on. *)
Ltac skip_test H :=
  match type of H with
  | _ ∈ trace (if ?c then _ else _) =>
      destruct c eqn:?; [ by (cbn in H; apply elem_of_nil in H) | ]
  end.

(** X25: in [PUT_Chunk] every call that fetches, changes or persists a chunk
    comes after the dataset descriptor has been loaded, the selection parsed
    for the chunk layout and its shape computed. *)
Lemma PUT_Chunk_parses_first {arr : Type} (E : Env arr) (req : request) (ev : event) :
  ev ∈ trace (PUT_Chunk E req) ->
  is_chunk_event ev = true ->
  exists a d dims selection mshape,
    PUT_Chunk_params E req = Ok a /\
    get_metadata_obj E (getDatasetId E (pa_chunk_id a)) (pa_bucket a) = Ok d /\
    getChunkLayout d = Ok dims /\
    value_error_as (HTTPInternalServerError "")
      (getSelectionList
         (match rq_params req !! "select"%string with
          | Some s => SelStr s
          | None => SelNone
          end) dims) = Ok selection /\
    getSelectionShape selection = Ok mshape.
Proof.
  intros H Hev. unfold PUT_Chunk in H.
  trace_step H a Ha.
  unfold PUT_Chunk_body in H. cbv zeta in H.
  trace_step H u Hu.
  trace_step H d Hd.
  trace_step H dims Hdims.
  trace_step H dset_dt Hdt.
  trace_step H select_dt Hsdt.
  trace_step H selection Hsel.
  trace_step H mshape Hshape.
  exists a, d, dims, selection, mshape. done.
Qed.

(** X26: in [GET_Chunk] every call that fetches, reads or persists a chunk
    comes after the dataset descriptor has been loaded and the selection
    parsed for the chunk layout. *)
Lemma GET_Chunk_parses_first {arr : Type} (E : Env arr) (req : request) (ev : event) :
  ev ∈ trace (GET_Chunk E req) ->
  is_chunk_event ev = true ->
  exists chunk_id bucket d dims selection,
    rq_id req = Some chunk_id /\
    get_metadata_obj E (getDatasetId E chunk_id) bucket = Ok d /\
    getChunkLayout d = Ok dims /\
    value_error_as (HTTPInternalServerError "")
      (getSelectionList
         (match rq_params req !! "select"%string with
          | Some s => SelStr s
          | None => SelNone
          end) dims) = Ok selection.
Proof.
  intros H Hev. unfold GET_Chunk in H. cbv zeta in H.
  trace_step H chunk_id Hid.
  skip_test H. skip_test H.
  trace_step H bucket Hbucket.
  trace_step H s3offset Hoff.
  trace_step H s3size Hsize.
  trace_step H hyper_dims Hhd.
  trace_step H limit Hlimit.
  apply elem_of_trace_bind in H as [H | (u & Hu & H)].
  { destruct (opt_truthy (rq_params req !! "s3path"%string)).
    - apply elem_of_trace_bind in H as [H | (num_bytes & Hn & H)];
        no_chunk_event H.
    - no_chunk_event H. }
  trace_step H d Hd.
  trace_step H sdims Hshape.
  trace_step H dims Hdims.
  trace_step H selection Hsel.
  exists chunk_id, bucket, d, dims, selection.
  split; [| done].
  destruct (rq_id req) as [c |]; [| done].
  destruct (str_truthy c); [| done]. by injection Hid as ->.
Qed.

(** C7: in [POST_Chunk] a hyperslab selection is parsed only after the chunk
    has been fetched and, for a dataset with an initializer, written back.
    The selection [0:100] does not fit a chunk of extent 10; the handler
    ends in an internal-server error, after [get_chunk] and [save_chunk]. *)
Theorem POST_Chunk_parses_after_fetch :
  getSelectionList (SelStr "[0:100]") [10] = Raise (ValueError stop_range) /\
  POST_Chunk (sample_env ∅ 100000) sample_post_bad_select
  = MkM [EvGetMetadata "d-0001"; EvReadJson; EvGetChunk "c-0001_0" true;
         EvSaveChunk "c-0001_0"]
        (Raise (HTTPInternalServerError "")).
Proof. split; vm_compute; reflexivity. Qed.

(** ** Coordinate lists of unequal length *)

Lemma getSelectionShape_loop_mismatch (sel : list sel_entry) :
  forall (c : Z) (shape : list Z) (l : list Z),
    Coords l ∈ sel -> len l <> c ->
    getSelectionShape_loop sel (Some c) shape
    = Raise (HTTPBadRequest shape_mismatch).
Proof.
  induction sel as [| e sel IH]; intros c shape l Hin Hne.
  - by apply elem_of_nil in Hin.
  - apply elem_of_cons in Hin as [<- | Hin]; simpl.
    + by replace (c =? len l) with false by (symmetry; apply Z.eqb_neq; lia).
    + destruct e as [s | l0]; [exact (IH _ _ l Hin Hne) |].
      destruct (Z.eqb_spec c (len l0)); simpl; [exact (IH _ _ l Hin Hne) | done].
Qed.

Lemma getSelectionShape_mismatch (sel : list sel_entry) :
  forall (shape : list Z) (l l' : list Z),
    Coords l ∈ sel -> Coords l' ∈ sel -> len l <> len l' ->
    getSelectionShape_loop sel None shape
    = Raise (HTTPBadRequest shape_mismatch).
Proof.
  induction sel as [| e sel IH]; intros shape l l' Hin Hin' Hne.
  - by apply elem_of_nil in Hin.
  - destruct e as [s | l0]; simpl.
    + apply elem_of_cons in Hin as [? | Hin]; [done |].
      apply elem_of_cons in Hin' as [? | Hin']; [done |].
      exact (IH _ l l' Hin Hin' Hne).
    + destruct (Z.eq_dec (len l) (len l0)) as [Heq | Hneq].
      * apply elem_of_cons in Hin' as [[= ->] | Hin']; [lia |].
        eapply getSelectionShape_loop_mismatch; [exact Hin' | lia].
      * apply elem_of_cons in Hin as [[= ->] | Hin]; [lia |].
        eapply getSelectionShape_loop_mismatch; [exact Hin | lia].
Qed.

Lemma read_coords_in_range (extent : Z) (l : list Z) :
  forall coords,
    Forall (fun c => 0 <= c < extent) l ->
    read_coords extent (Some <$> l) coords = Ok (coords ++ l).
Proof.
  induction l as [| c l IH]; intros coords Hr; simpl.
  - by rewrite app_nil_r.
  - apply Forall_cons in Hr as [Hc Hr].
    replace (c <? 0) with false by (symmetry; apply Z.ltb_ge; lia).
    replace (extent <=? c) with false by (symmetry; apply Z.leb_gt; lia).
    simpl. rewrite IH by done. by rewrite <- app_assoc.
Qed.

Lemma read_elements_coords (dims : list Z) (ls : list (list Z)) (n i : nat) :
  forall select_list,
    Forall2 (fun extent l => Forall (fun c => 0 <= c < extent) l) dims ls ->
    (i + n = length ls)%nat ->
    read_elements dims (ElList <$> ls) i n select_list
    = Ok (select_list ++ (Coords <$> drop i ls)).
Proof.
  revert i. induction n as [| n IH]; intros i select_list Hr Hlen; simpl.
  - rewrite drop_ge by lia. by rewrite app_nil_r.
  - pose proof (Forall2_length _ _ _ Hr) as Hl.
    destruct (lookup_lt_is_Some_2 ls i ltac:(lia)) as [l Hli].
    destruct (lookup_lt_is_Some_2 dims i ltac:(lia)) as [extent Hd].
    rewrite Hd, list_lookup_fmap, Hli. simpl.
    pose proof (Forall2_lookup_lr _ dims ls i extent l Hr Hd Hli) as Hin.
    cbn beta in Hin. rewrite (read_coords_in_range extent l [] Hin).
    simpl. rewrite IH by (done || lia).
    rewrite <- app_assoc. by rewrite (drop_S ls l i Hli).
Qed.

(** C6, as stated, fails: the parser returns coordinate lists of lengths 2
    and 3 side by side. *)
Lemma parser_returns_unequal_coordinate_lists :
  getSelectionList (SelStr "[[1,2],[3,4,5]]") [10; 10]
  = Ok [Coords [1; 2]; Coords [3; 4; 5]] /\
  ~ parse_keeps_coords_equal (SelStr "[[1,2],[3,4,5]]") [10; 10].
Proof.
  split; [by vm_compute |].
  intros H. specialize (H [Coords [1; 2]; Coords [3; 4; 5]] ltac:(by vm_compute)).
  specialize (H 0%nat 1%nat [1; 2] [3; 4; 5] eq_refl eq_refl). discriminate H.
Qed.

(** ** Strings *)

Lemma chars_app (s t : string) : chars (s ++ t) = chars s ++ chars t.
Proof. unfold chars. induction s as [| c s IH]; [done |]. simpl. by rewrite IH. Qed.

Lemma chars_inj (s t : string) : chars s = chars t -> s = t.
Proof.
  unfold chars. intros H.
  rewrite <- (string_of_list_ascii_of_string s), <- (string_of_list_ascii_of_string t).
  by rewrite H.
Qed.

Lemma chars_of_chars (l : list ascii) : chars (of_chars l) = l.
Proof. apply list_ascii_of_string_of_list_ascii. Qed.

Lemma of_chars_chars (s : string) : of_chars (chars s) = s.
Proof. apply string_of_list_ascii_of_string. Qed.

Lemma string_app_assoc (s t u : string) : ((s ++ t) ++ u = s ++ (t ++ u))%string.
Proof. apply chars_inj. rewrite !chars_app. by rewrite app_assoc. Qed.

Lemma string_app_nil_r (s : string) : (s ++ "" = s)%string.
Proof. apply chars_inj. rewrite chars_app. simpl. by rewrite app_nil_r. Qed.




(** ** The structured form of a selection *)

Lemma dim_exprs_length (starts : list Z) :
  forall stops steps,
    length stops = length starts ->
    (forall st, steps = Some st -> length st = length starts) ->
    length (dim_exprs starts stops steps) = length starts.
Proof.
  induction starts as [| a starts IH]; intros stops steps Hstops Hsteps; [done |].
  destruct stops as [| b stops]; [done |]. simpl in Hstops.
  destruct steps as [[| c st] |]; simpl.
  - specialize (Hsteps [] eq_refl). done.
  - rewrite IH; [done | lia |]. intros st' [= <-].
    specialize (Hsteps (c :: st) eq_refl). simpl in Hsteps. lia.
  - rewrite IH; [done | lia | done].
Qed.




(** ** Printing and reading integers *)

Lemma numch_facts (c : ascii) :
  numch c = true ->
  int_space c = false /\ isspace c = false /\ eqc c "," = false /\
  eqc c "[" = false /\ eqc c "]" = false /\ eqc c ":" = false /\
  eqc c "_" = false /\ eqc c "+" = false.
Proof.
  destruct c as [[] [] [] [] [] [] [] []]; vm_compute; intros H;
    first [discriminate H | repeat split].
Qed.

Lemma dimch_facts (c : ascii) :
  dimch c = true ->
  isspace c = false /\ eqc c "," = false /\ eqc c "[" = false /\
  eqc c "]" = false.
Proof.
  destruct c as [[] [] [] [] [] [] [] []]; vm_compute; intros H;
    first [discriminate H | repeat split].
Qed.

Lemma numch_dimch (c : ascii) : numch c = true -> dimch c = true.
Proof. unfold dimch. by intros ->. Qed.

Lemma uint_chars (d : Decimal.uint) :
  Forall (fun c => isdigit c = true) (chars (NilEmpty.string_of_uint d)).
Proof. induction d; simpl; constructor; done. Qed.

Lemma int_digits_uint (d : Decimal.uint) :
  forall acc, int_digits (chars (NilEmpty.string_of_uint d)) acc true
              = Some (uint_val d acc).
Proof. induction d; intros acc; simpl; [done | ..]; apply IHd. Qed.

Lemma int_digits_uint_first (d : Decimal.uint) (acc : Z) :
  d <> Decimal.Nil ->
  int_digits (chars (NilEmpty.string_of_uint d)) acc false = Some (uint_val d acc).
Proof. destruct d; intros Hne; [done | ..]; simpl; apply int_digits_uint. Qed.

Lemma of_uint_acc_val (d : Decimal.uint) :
  forall acc, Z.pos (Pos.of_uint_acc d acc) = uint_val d (Z.pos acc).
Proof.
  induction d; intros acc; simpl; [done | ..]; rewrite IHd; f_equal; lia.
Qed.

Lemma of_uint_val (d : Decimal.uint) : Z.of_N (Pos.of_uint d) = uint_val d 0.
Proof.
  induction d; simpl; [done | done | ..]; rewrite of_uint_acc_val; f_equal.
Qed.

Lemma to_uint_val (p : positive) : uint_val (Pos.to_uint p) 0 = Z.pos p.
Proof. by rewrite <- of_uint_val, DecimalPos.Unsigned.of_to. Qed.

Lemma lstrip_id (l : list ascii) :
  Forall (fun c => int_space c = false) l -> lstrip l = l.
Proof. destruct 1 as [| c l Hc _]; [done |]. simpl. by rewrite Hc. Qed.

Lemma strip_id (l : list ascii) :
  Forall (fun c => int_space c = false) l -> strip l = l.
Proof.
  intros H. unfold strip. rewrite (lstrip_id l H).
  rewrite lstrip_id by (by apply Forall_rev). apply rev_involutive.
Qed.

(** The characters of a printed integer: an optional minus sign, then the
    digits of a numeral that is not empty. *)
Lemma str_of_int_chars (n : Z) :
  exists (d : Decimal.uint),
    d <> Decimal.Nil /\
    uint_val d 0 = Z.abs n /\
    chars (str_of_int n)
    = (if n <? 0 then ["-"%char] else []) ++ chars (NilEmpty.string_of_uint d).
Proof.
  destruct n as [| p | p].
  - exists (Decimal.D0 Decimal.Nil). done.
  - exists (Pos.to_uint p). split; [apply DecimalPos.Unsigned.to_uint_nonnil |].
    split; [apply to_uint_val |].
    unfold str_of_int. cbn [Z.to_int NilZero.string_of_int].
    unfold NilZero.string_of_uint.
    pose proof (DecimalPos.Unsigned.to_uint_nonnil p).
    by destruct (Pos.to_uint p).
  - exists (Pos.to_uint p). split; [apply DecimalPos.Unsigned.to_uint_nonnil |].
    split; [apply to_uint_val |].
    unfold str_of_int. cbn [Z.to_int NilZero.string_of_int].
    unfold NilZero.string_of_uint.
    pose proof (DecimalPos.Unsigned.to_uint_nonnil p).
    by destruct (Pos.to_uint p).
Qed.

Lemma str_of_int_numch (n : Z) :
  Forall (fun c => numch c = true) (chars (str_of_int n)).
Proof.
  destruct (str_of_int_chars n) as (d & _ & _ & ->).
  apply Forall_app. split.
  - destruct (n <? 0); by repeat constructor.
  - eapply Forall_impl; [apply uint_chars |].
    intros c Hc. unfold numch. by rewrite Hc.
Qed.

Lemma str_of_int_nonempty (n : Z) : chars (str_of_int n) <> [].
Proof.
  destruct (str_of_int_chars n) as (d & Hd & _ & ->).
  destruct (n <? 0); [done |]. by destruct d.
Qed.

(** Reading back a printed integer. *)
Lemma py_int_str_of_int (n : Z) : py_int (str_of_int n) = Some n.
Proof.
  unfold py_int. rewrite strip_id.
  2:{ eapply Forall_impl; [apply str_of_int_numch |].
      intros c Hc. by apply numch_facts in Hc as (? & _). }
  destruct (str_of_int_chars n) as (d & Hd & Hval & ->).
  destruct (Z.ltb_spec n 0) as [Hneg | Hpos]; cbn [app].
  - change (eqc "-" "-") with true. cbn iota.
    rewrite int_digits_uint_first by done. simpl. f_equal. lia.
  - pose proof (uint_chars d) as Hdig.
    destruct (chars (NilEmpty.string_of_uint d)) as [| c cs] eqn:Hcs.
    { by destruct d. }
    apply Forall_cons in Hdig as [Hc _].
    assert (numch c = true) as Hn by (unfold numch; by rewrite Hc).
    apply numch_facts in Hn as (_ & _ & _ & _ & _ & _ & _ & Hplus).
    assert (eqc c "-" = false) as ->.
    { destruct c as [[] [] [] [] [] [] [] []]; vm_compute in Hc |- *;
        first [done | discriminate Hc]. }
    rewrite Hplus, <- Hcs, int_digits_uint_first by done. f_equal. lia.
Qed.

(** ** Reading the string form of bounds *)

Lemma scan_select_dimch (cs : list ascii) :
  forall rest query_array dim_query,
    Forall (fun c => dimch c = true) cs ->
    scan_select (cs ++ rest) query_array dim_query false
    = scan_select rest query_array (dim_query ++ cs) false.
Proof.
  induction cs as [| c cs IH]; intros rest qa dq Hcs.
  - by rewrite app_nil_r.
  - apply Forall_cons in Hcs as [Hc Hcs].
    apply dimch_facts in Hc as (Hsp & Hcomma & Hopen & Hclose).
    cbn [app scan_select]. rewrite Hsp, Hcomma, Hopen, Hclose. cbn [negb].
    destruct (eqc c ":"); rewrite IH by done; by rewrite <- app_assoc.
Qed.

Lemma scan_select_join (ds : list string) :
  forall (d : string) (query_array : list string),
    Forall dim_text (d :: ds) ->
    exists query_array' dim_query,
      scan_select (chars (join "," (d :: ds))) query_array [] false
      = Ok (query_array', dim_query) /\
      dim_query <> [] /\
      query_array' ++ [of_chars dim_query] = query_array ++ d :: ds.
Proof.
  induction ds as [| d' ds IH]; intros d qa Hds.
  - apply Forall_cons in Hds as [[Hd Hne] _].
    exists qa, (chars d). cbn [join].
    rewrite <- (app_nil_r (chars d)), scan_select_dimch by done.
    rewrite app_nil_r. cbn [app]. by rewrite of_chars_chars.
  - apply Forall_cons in Hds as [[Hd Hne] Hds].
    destruct (IH d' (qa ++ [d]) Hds) as (qa' & dq & Hscan & Hdq & Hall).
    exists qa', dq.
    change (join "," (d :: d' :: ds)) with (d ++ "," ++ join "," (d' :: ds))%string.
    rewrite !chars_app, scan_select_dimch by done.
    change (chars ",") with [","%char]. cbn [app scan_select].
    change (isspace ",") with false. change (eqc "," ",") with true. cbn iota.
    destruct (chars d) as [| c cs] eqn:Hcs; [done |].
    rewrite <- Hcs, of_chars_chars, Hscan.
    split; [done |]. split; [done |]. by rewrite Hall, <- app_assoc.
Qed.

Lemma split_go_field (sep : ascii) (cs : list ascii) :
  forall cur rest,
    Forall (fun c => eqc c sep = false) cs ->
    split_go sep (cs ++ sep :: rest) cur = (cur ++ cs) :: split_go sep rest [].
Proof.
  induction cs as [| c cs IH]; intros cur rest Hcs.
  - cbn [app split_go]. unfold eqc. by rewrite Ascii.eqb_refl, app_nil_r.
  - apply Forall_cons in Hcs as [Hc Hcs]. cbn [app split_go]. rewrite Hc.
    rewrite IH by done. by rewrite <- app_assoc.
Qed.

Lemma split_go_last (sep : ascii) (cs : list ascii) :
  forall cur,
    Forall (fun c => eqc c sep = false) cs ->
    split_go sep cs cur = [cur ++ cs].
Proof.
  induction cs as [| c cs IH]; intros cur Hcs.
  - by rewrite app_nil_r.
  - apply Forall_cons in Hcs as [Hc Hcs]. cbn [split_go]. rewrite Hc.
    rewrite IH by done. by rewrite <- app_assoc.
Qed.

Lemma str_of_int_no_colon (n : Z) :
  Forall (fun c => eqc c ":" = false) (chars (str_of_int n)).
Proof.
  eapply Forall_impl; [apply str_of_int_numch |].
  intros c Hc. by apply numch_facts in Hc as (_ & _ & _ & _ & _ & ? & _).
Qed.

Lemma str_of_int_dimch (n : Z) :
  Forall (fun c => dimch c = true) (chars (str_of_int n)).
Proof.
  eapply Forall_impl; [apply str_of_int_numch |]. apply numch_dimch.
Qed.

Lemma str_of_int_len (n : Z) : (len (chars (str_of_int n)) =? 0) = false.
Proof.
  pose proof (str_of_int_nonempty n). apply Z.eqb_neq.
  destruct (chars (str_of_int n)); [done |]. rewrite len_cons.
  pose proof (len_nonneg l). lia.
Qed.

Lemma dim_expr_chars (a b : Z) (oc : option Z) :
  chars (dim_expr a b oc)
  = chars (str_of_int a) ++ ":"%char ::
    chars (str_of_int b) ++
    match oc with
    | Some c => ":"%char :: chars (str_of_int c)
    | None => []
    end.
Proof.
  destruct oc as [c |]; unfold dim_expr; rewrite !chars_app;
    change (chars ":") with [":"%char]; cbn [app]; by rewrite ?app_nil_r.
Qed.

Lemma dim_expr_text (a b : Z) (oc : option Z) : dim_text (dim_expr a b oc).
Proof.
  split.
  - rewrite dim_expr_chars. apply Forall_app. split; [apply str_of_int_dimch |].
    constructor; [done |]. apply Forall_app. split; [apply str_of_int_dimch |].
    destruct oc; [| done]. constructor; [done | apply str_of_int_dimch].
  - rewrite dim_expr_chars. pose proof (str_of_int_nonempty a).
    by destruct (chars (str_of_int a)).
Qed.

Lemma dim_expr_split (a b : Z) (oc : option Z) :
  split ":" (dim_expr a b oc)
  = str_of_int a :: str_of_int b ::
    match oc with Some c => [str_of_int c] | None => [] end.
Proof.
  unfold split. rewrite dim_expr_chars.
  rewrite split_go_field by apply str_of_int_no_colon. cbn [app fmap list_fmap].
  rewrite of_chars_chars. f_equal.
  destruct oc as [c |].
  - rewrite split_go_field by apply str_of_int_no_colon.
    rewrite split_go_last by apply str_of_int_no_colon.
    cbn [app fmap list_fmap]. by rewrite !of_chars_chars.
  - rewrite app_nil_r, split_go_last by apply str_of_int_no_colon.
    cbn [app fmap list_fmap]. by rewrite !of_chars_chars.
Qed.

Lemma dim_expr_read_range (extent a b : Z) (oc : option Z) :
  0 <= a < extent -> a < b <= extent ->
  (forall c, oc = Some c -> 1 <= c) ->
  read_range extent (dim_expr a b oc)
  = Ok (Range (Slice a b (default 1 oc))).
Proof.
  intros Ha Hb Hc. unfold read_range. rewrite dim_expr_split.
  assert (forall c : Z, 0 <= c -> (c <? 0) = false) as Hge
      by (intros; apply Z.ltb_ge; lia).
  assert ((extent <=? a) = false) as Ha1 by (apply Z.leb_gt; lia).
  assert ((extent <? b) = false) as Hb1 by (apply Z.ltb_ge; lia).
  assert ((b <=? a) = false) as Hb2 by (apply Z.leb_gt; lia).
  destruct oc as [c |];
    cbn [length Nat.eqb orb negb lookup list_lookup default from_option id];
    rewrite !str_of_int_len, !py_int_str_of_int;
    cbn [int_or mbind result_bind];
    rewrite (Hge a), Ha1 by lia; cbn [orb mbind result_bind];
    rewrite (Hge b), Hb1, Hb2 by lia; cbn [orb mbind result_bind].
  - specialize (Hc c eq_refl).
    by replace (c <=? 0) with false by (symmetry; apply Z.leb_gt; lia).
  - done.
Qed.

Lemma dim_expr_read_element (extent a b : Z) (oc : option Z) :
  0 <= a < extent -> a < b <= extent ->
  (forall c, oc = Some c -> 1 <= c) ->
  read_element extent (ElStr (dim_expr a b oc))
  = Ok (Range (Slice a b (default 1 oc))).
Proof.
  intros Ha Hb Hc. unfold read_element.
  pose proof (str_of_int_numch a) as Hnum.
  pose proof (str_of_int_nonempty a) as Hne.
  pose proof (dim_expr_chars a b oc) as Hchars.
  destruct (chars (str_of_int a)) as [| c0 cs] eqn:Hcs; [done |].
  apply Forall_cons in Hnum as [Hc0 _].
  apply numch_facts in Hc0 as (_ & _ & _ & Hopen & _ & Hcolon & _).
  assert (startswith "[" (dim_expr a b oc) = false) as ->.
  { unfold startswith. by rewrite Hchars. }
  assert (String.eqb (dim_expr a b oc) ":" = false) as ->.
  { apply String.eqb_neq. intros Heq. rewrite Heq in Hchars.
    cbn in Hchars. injection Hchars as <- _. done. }
  assert (contains ":" (dim_expr a b oc) = true) as ->.
  { unfold contains. apply existsb_exists. exists ":"%char. split; [| done].
    rewrite Hchars. apply in_or_app. right. by left. }
  by apply dim_expr_read_range.
Qed.

Lemma dim_exprs_cons (a b : Z) (starts stops : list Z) (steps : option (list Z)) :
  dim_exprs (a :: starts) (b :: stops) steps
  = dim_expr a b (steps ≫= head)
    :: dim_exprs starts stops (match steps with
                               | Some (_ :: steps') => Some steps'
                               | _ => None
                               end).
Proof. by destruct steps as [[| c st] |]. Qed.

Lemma dim_exprs_text (starts : list Z) :
  forall stops steps, Forall dim_text (dim_exprs starts stops steps).
Proof.
  induction starts as [| a starts IH]; intros stops steps; [by constructor |].
  destruct stops as [| b stops]; [by constructor |].
  rewrite dim_exprs_cons. constructor; [apply dim_expr_text | apply IH].
Qed.

Lemma read_elements_shift (extent : Z) (dims : list Z) (e : element)
    (elements : list element) (n : nat) :
  forall i select_list,
    read_elements (extent :: dims) (e :: elements) (S i) n select_list
    = read_elements dims elements i n select_list.
Proof.
  induction n as [| n IH]; intros i select_list; [done |].
  cbn [read_elements]. rewrite !lookup_cons.
  destruct (dims !! i) as [x |]; [| done].
  destruct (elements !! i) as [el |]; [| done].
  destruct (read_element x el) as [s | err]; [| done].
  cbn [mbind result_bind]. apply IH.
Qed.

Lemma read_elements_bounds (dims : list Z) :
  forall starts stops steps select_list,
    valid_bounds dims starts stops steps ->
    read_elements dims (ElStr <$> dim_exprs starts stops steps) 0 (length dims)
      select_list
    = Ok (select_list ++ bound_slices starts stops steps).
Proof.
  induction dims as [| extent dims IH]; intros starts stops steps acc Hv.
  - destruct starts, stops; try done. simpl. by rewrite app_nil_r.
  - destruct starts as [| a starts]; [done |].
    destruct stops as [| b stops]; [done |].
    destruct Hv as (Ha & Hb & Hrest).
    rewrite dim_exprs_cons, fmap_cons. cbn [length read_elements].
    rewrite !lookup_cons.
    rewrite dim_expr_read_element; [| done | done |].
    2:{ intros c Hc. destruct steps as [[| c' st] |]; try done.
        injection Hc as <-. apply Hrest. }
    cbn [mbind result_bind]. rewrite read_elements_shift.
    destruct steps as [[| c st] |]; [done | |].
    + destruct Hrest as [_ Hrest]. rewrite (IH _ _ _ _ Hrest).
      by rewrite <- app_assoc.
    + rewrite (IH _ _ _ _ Hrest). by rewrite <- app_assoc.
Qed.

Lemma valid_bounds_length (dims : list Z) :
  forall starts stops steps,
    valid_bounds dims starts stops steps ->
    length dims = length starts /\ length stops = length starts /\
    (forall st, steps = Some st -> length st = length starts).
Proof.
  induction dims as [| extent dims IH]; intros starts stops steps Hv.
  - destruct starts, stops; try done. repeat split.
    intros st ->. by destruct Hv as [? | [= ->]].
  - destruct starts as [| a starts]; [done |].
    destruct stops as [| b stops]; [done |].
    destruct Hv as (_ & _ & Hrest).
    destruct steps as [[| c st] |]; [done | |].
    + destruct Hrest as [_ Hrest]. apply IH in Hrest as (H1 & H2 & Hst).
      cbn [length]. rewrite H1, H2. repeat split.
      intros st' [= <-]. cbn [length]. f_equal. by apply Hst.
    + apply IH in Hrest as (H1 & H2 & _). cbn [length]. by rewrite H1, H2.
Qed.

Lemma getSelectElements_expr (starts stops : list Z) (steps : option (list Z)) :
  dim_exprs starts stops steps <> [] ->
  _getSelectElements_str (selection_expr starts stops steps)
  = Ok (ElStr <$> dim_exprs starts stops steps).
Proof.
  intros Hne. unfold _getSelectElements_str, strip_ends, selection_expr.
  rewrite !chars_app. change (chars "[") with ["["%char].
  change (chars "]") with ["]"%char]. cbn [app tail].
  rewrite removelast_last, chars_of_chars.
  pose proof (dim_exprs_text starts stops steps) as Htext.
  destruct (dim_exprs starts stops steps) as [| d ds]; [done |].
  destruct (scan_select_join ds d [] Htext) as (qa & dq & -> & Hdq & Hall).
  cbn [mbind result_bind]. destruct dq; [done |]. by rewrite Hall.
Qed.

(** A structured request with valid bounds parses to the slices it names. *)
Lemma getSelectionList_expr (dims starts stops : list Z) (steps : option (list Z)) :
  starts <> [] ->
  valid_bounds dims starts stops steps ->
  getSelectionList (SelStr (selection_expr starts stops steps)) dims
  = Ok (bound_slices starts stops steps).
Proof.
  intros Hne Hv.
  destruct (valid_bounds_length _ _ _ _ Hv) as (Hdims & Hstops & Hsteps).
  pose proof (dim_exprs_length starts stops steps Hstops Hsteps) as Hlen.
  unfold getSelectionList. cbn [mbind result_bind].
  assert (select_is_empty (SelStr (selection_expr starts stops steps)) = false) as ->.
  { unfold select_is_empty, selection_expr. rewrite chars_app.
    change (chars "[") with ["["%char]. cbn [app]. rewrite len_cons.
    apply Z.eqb_neq. match goal with |- len ?l + 1 <> 0 =>
      pose proof (len_nonneg l) end. lia. }
  rewrite getSelectElements_expr.
  2:{ intros Hnil. rewrite Hnil in Hlen. by destruct starts. }
  cbn [mbind result_bind]. rewrite length_fmap, Hlen, Hdims, Nat.eqb_refl.
  cbn [negb]. rewrite <- Hdims. by rewrite read_elements_bounds.
Qed.



(** ** getSelectionPagination: pages that do reproduce the selection *)

Lemma mjoin_cons {A : Type} (x : list A) (l : list (list A)) :
  mjoin (x :: l) = x ++ mjoin l.
Proof. reflexivity. Qed.

Lemma indices_from_ext (s s' : slice) (i : Z) :
  sl_stop s = sl_stop s' -> sl_step s = sl_step s' ->
  indices_from s i = indices_from s' i.
Proof. unfold indices_from. by intros -> ->. Qed.

(** A range cut at a point of its own progression. *)
Lemma indices_from_split (n : nat) :
  forall (x y z a b stop step : Z),
    Z.to_nat (b - a) = n ->
    1 <= step -> a mod step = 0 -> b mod step = 0 -> a <= b <= stop ->
    indices_from (Slice x stop step) a
    = indices_from (Slice y b step) a ++ indices_from (Slice z stop step) b.
Proof.
  induction n as [n IH] using lt_wf_ind.
  intros x y z a b stop step Hn Hstep Ha Hb Hab.
  destruct (Z.eq_dec a b) as [-> | Hne].
  - rewrite (indices_from_ge (Slice y b step) b) by (simpl; lia).
    by apply indices_from_ext.
  - assert (a + step <= b) as Hnext.
    { apply Z.mod_divide in Ha as [ka Hka]; [| lia].
      apply Z.mod_divide in Hb as [kb Hkb]; [| lia].
      assert (ka < kb) as Hk by nia.
      replace b with ((kb - ka - 1) * step + (a + step)) by lia.
      assert (0 <= (kb - ka - 1) * step) by (apply Z.mul_nonneg_nonneg; lia).
      lia. }
    rewrite (indices_from_lt (Slice x stop step) a) by (simpl; lia).
    rewrite (indices_from_lt (Slice y b step) a) by (simpl; lia).
    cbn [sl_step app]. f_equal.
    apply (IH (Z.to_nat (b - (a + step)))); try lia.
    rewrite Z.add_mod, Ha, Z.mod_same, Z.add_0_l, Z.mod_0_l by lia. done.
Qed.

Lemma page_stop_aligned (s : slice) (step page_extent start : Z) :
  1 <= step ->
  page_stop s step page_extent start = sl_stop s \/
  (page_stop s step page_extent start mod step = 0 /\
   page_stop s step page_extent start <= sl_stop s).
Proof.
  intros Hstep. unfold page_stop.
  set (stop0 := start + page_extent).
  assert ((if negb (stop0 mod step =? 0) then stop0 + (step - stop0 mod step)
           else stop0) mod step = 0) as Hal.
  { destruct (Z.eqb_spec (stop0 mod step) 0) as [Hz | Hnz]; cbn [negb]; [done |].
    replace (stop0 + (step - stop0 mod step))
      with (step * (stop0 / step + 1))
      by (pose proof (Z.div_mod stop0 step ltac:(lia)); nia).
    apply Z.mod_divide; [lia |]. by eexists; rewrite Z.mul_comm. }
  destruct (Z.ltb_spec (sl_stop s)
              (if negb (stop0 mod step =? 0) then stop0 + (step - stop0 mod step)
               else stop0)); [by left | right; split; [done | lia]].
Qed.

(** The pages of a range whose cursor sits on a multiple of the stride cover
    the rest of the range, in order. *)
Lemma slice_pages_coords (s : slice) (step page_extent : Z) (fuel : nat) :
  forall start pages,
    1 <= step -> 1 <= page_extent -> start mod step = 0 ->
    slice_pages fuel s step page_extent start = Some pages ->
    mjoin (entry_coords <$> pages) = indices_from (Slice 0 (sl_stop s) step) start.
Proof.
  induction fuel as [| fuel IH]; intros start pages Hstep Hpe Hal Hp.
  - simpl in Hp. destruct (Z.ltb_spec start (sl_stop s)); [done |].
    injection Hp as <-. by rewrite indices_from_ge.
  - simpl in Hp. destruct (Z.ltb_spec start (sl_stop s)) as [Hlt | Hge].
    2:{ injection Hp as <-. by rewrite indices_from_ge. }
    pose proof (page_stop_bounds s step page_extent start Hstep Hpe Hlt) as Hb.
    set (b := page_stop s step page_extent start) in *.
    destruct (slice_pages fuel s step page_extent b) as [rest |] eqn:Hrest;
      [| done].
    injection Hp as <-. rewrite fmap_cons, mjoin_cons.
    change (entry_coords (Range (Slice start b step)))
      with (indices_from (Slice start b step) start).
    destruct (page_stop_aligned s step page_extent start Hstep) as [Hend | [Hb0 _]];
      fold b in Hend || fold b in Hb0.
    + assert (rest = []) as ->.
      { destruct fuel; simpl in Hrest;
          (replace (b <? sl_stop s) with false in Hrest
             by (symmetry; apply Z.ltb_ge; lia)); by injection Hrest as <-. }
      simpl. rewrite app_nil_r. apply indices_from_ext; simpl; congruence.
    + rewrite (IH b rest Hstep Hpe Hb0 Hrest).
      symmetry. apply (indices_from_split (Z.to_nat (b - start))); try done; lia.
Qed.

Lemma coord_pages_coords (l : list Z) (page_extent : Z) (fuel : nat) :
  forall start pages,
    1 <= page_extent -> 0 <= start ->
    coord_pages fuel l page_extent start = Some pages ->
    mjoin (entry_coords <$> pages) = drop (Z.to_nat start) l.
Proof.
  induction fuel as [| fuel IH]; intros start pages Hpe Hs Hp.
  - simpl in Hp. destruct (Z.ltb_spec start (len l)); [done |].
    injection Hp as <-. rewrite drop_ge; [done | unfold len in *; lia].
  - simpl in Hp. destruct (Z.ltb_spec start (len l)) as [Hlt | Hge].
    2:{ injection Hp as <-. rewrite drop_ge; [done | unfold len in *; lia]. }
    set (stop := if len l <? start + page_extent then len l
                 else start + page_extent) in *.
    assert (start < stop <= len l) as Hstop.
    { unfold stop. destruct (Z.ltb_spec (len l) (start + page_extent)); lia. }
    destruct (coord_pages fuel l page_extent stop) as [rest |] eqn:Hrest; [| done].
    injection Hp as <-. rewrite fmap_cons, mjoin_cons.
    rewrite (IH stop rest Hpe ltac:(lia) Hrest).
    cbn [entry_coords]. unfold list_slice.
    replace (Z.to_nat stop) with (Z.to_nat start + Z.to_nat (stop - start))%nat by lia.
    rewrite <- drop_drop. apply take_drop.
Qed.

(** A dimension the paginator passes over holds at most one coordinate. *)
Lemma passed_over_entry (e : sel_entry) :
  valid_entry e -> paginate_extent_of e <= 1 -> (length (entry_coords e) <= 1)%nat.
Proof.
  destruct e as [s | l]; simpl.
  - intros [[_ Hlt] Hstep] Hext.
    replace (sl_start s <? sl_stop s) with true in Hext
      by (symmetry; apply Z.ltb_lt; lia).
    rewrite slice_indices_from_start, indices_from_lt by done.
    rewrite indices_from_ge by lia. done.
  - unfold len. lia.
Qed.

Lemma selection_coords_cons (e : sel_entry) (sel : list sel_entry) :
  selection_coords (e :: sel)
  = x ← entry_coords e; (fun t => x :: t) <$> selection_coords sel.
Proof. reflexivity. Qed.

(** Cutting one dimension into pieces whose coordinates add up cuts the
    selection into pieces whose coordinates add up, as long as the dimensions
    before it hold one coordinate at most. *)
Lemma selection_coords_pages (pre post : list sel_entry) (s : sel_entry)
    (pages : list sel_entry) :
  Forall (fun e => (length (entry_coords e) <= 1)%nat) pre ->
  mjoin (entry_coords <$> pages) = entry_coords s ->
  mjoin ((fun p => selection_coords (pre ++ p :: post)) <$> pages)
  = selection_coords (pre ++ s :: post).
Proof.
  intros Hpre Hpages. induction Hpre as [| e pre He Hpre IH].
  - cbn [app]. rewrite selection_coords_cons, <- Hpages.
    clear Hpages. induction pages as [| p pages IHp]; [done |].
    rewrite !fmap_cons, !mjoin_cons, bind_app, <- IHp. done.
  - cbn [app]. rewrite selection_coords_cons, <- IH. clear IH Hpages.
    destruct (entry_coords e) as [| x [| y cs]] eqn:Hx; [| | simpl in He; lia].
    + induction pages as [| p pages IHp]; [done |].
      rewrite fmap_cons, mjoin_cons, IHp, selection_coords_cons, Hx. done.
    + rewrite bind_cons, app_nil_r.
      induction pages as [| p pages IHp]; [done |].
      rewrite !fmap_cons, !mjoin_cons, fmap_app, <- IHp.
      rewrite selection_coords_cons, Hx, bind_cons, app_nil_r. done.
Qed.

Lemma insert_middle (select : list sel_entry) (d : nat) (s p : sel_entry) :
  select !! d = Some s ->
  <[d := p]> select = take d select ++ p :: drop (S d) select /\
  select = take d select ++ s :: drop (S d) select.
Proof.
  intros Hd. pose proof (lookup_lt_Some _ _ _ Hd) as Hlt. split.
  - rewrite <- (take_drop_middle select d s Hd) at 1.
    assert (d = length (take d select) + 0)%nat as Hlen
      by (rewrite length_take; lia).
    rewrite Hlen at 1. by rewrite insert_app_r.
  - by rewrite take_drop_middle.
Qed.

Lemma pagination_dim_or_none (select : list sel_entry) :
  (exists d s, is_pagination_dim select d s) \/
  (forall j s, select !! j = Some s -> paginate_extent_of s <= 1).
Proof.
  induction select as [| e select IH].
  - right. intros j s Hj. done.
  - destruct (Z.ltb_spec 1 (paginate_extent_of e)) as [Hgt | Hle].
    + left. exists 0%nat, e. split; [done |]. split; [done |]. intros j s' Hj. lia.
    + destruct IH as [(d & s & Hd & Hgt & Hbefore) | Hall].
      * left. exists (S d), s. split; [done |]. split; [done |].
        intros j s' Hj Hs'. destruct j as [| j]; [by injection Hs' as <- |].
        apply (Hbefore j s'); [lia | done].
      * right. intros j s Hj. destruct j as [| j]; [by injection Hj as <- |].
        by apply (Hall j s).
Qed.

(** The pages along the pagination dimension hold that dimension's
    coordinates, in order. *)
Lemma paginate_slices_of_coords (s : sel_entry) (page_extent : Z)
    (pages : list sel_entry) :
  valid_entry s -> 1 < paginate_extent_of s -> 1 <= page_extent ->
  (forall sl, s = Range sl -> sl_start sl mod sl_step sl = 0) ->
  paginate_slices_of s page_extent = Some pages ->
  mjoin (entry_coords <$> pages) = entry_coords s.
Proof.
  intros Hv Hext Hpe Hal Hp. destruct s as [sl | l]; simpl in Hv, Hext, Hp.
  - destruct Hv as [[H0 Hlt] Hstep].
    replace (sl_start sl <? sl_stop sl) with true in Hext
      by (symmetry; apply Z.ltb_lt; lia).
    assert (paginate_step sl = sl_step sl) as Hps.
    { unfold paginate_step, truthy.
      replace (sl_step sl =? 0) with false by (symmetry; apply Z.eqb_neq; lia).
      by replace (1 <? sl_stop sl) with true by (symmetry; apply Z.ltb_lt; lia). }
    rewrite Hps in Hp.
    rewrite (slice_pages_coords sl (sl_step sl) page_extent _ _ pages Hstep Hpe
               (Hal sl eq_refl) Hp).
    cbn [entry_coords]. rewrite slice_indices_from_start.
    by apply indices_from_ext.
  - by rewrite (coord_pages_coords l page_extent _ 0 pages Hpe ltac:(lia) Hp).
Qed.

(** X8: the round trip holds where the claim about it is sound: for a selection
    of the data model with at most one coordinate list, whose pagination
    dimension, if it is a range, starts on a multiple of its stride (any
    start when the stride is 1), the coordinates of the pages, in page order,
    are the coordinates of the selection. *)
Lemma aligned_pagination_round_trip
    (select : list sel_entry) (dims : list Z) (itemsize max_request_size : Z)
    (pages : list (list sel_entry)) :
  Forall valid_entry select ->
  (count_coords select <= 1)%nat ->
  length dims = length select ->
  0 < max_request_size ->
  (forall d s, is_pagination_dim select d (Range s) ->
               sl_start s mod sl_step s = 0) ->
  getSelectionPagination select dims itemsize max_request_size = Some (Ok pages) ->
  mjoin (selection_coords <$> pages) = selection_coords select.
Proof.
  intros Hv _ Hlen Hmax Hal Hp.
  destruct (getSelectionShape select) as [shape | e] eqn:Hshape.
  2:{ unfold getSelectionPagination in Hp. by rewrite Hshape in Hp. }
  destruct (Z.leb_spec (prod shape * itemsize) max_request_size) as [Hfit | Hover].
  { unfold getSelectionPagination in Hp. rewrite Hshape in Hp.
    replace (prod shape * itemsize <=? max_request_size) with true in Hp
      by (symmetry; apply Z.leb_le; lia).
    injection Hp as <-. simpl. by rewrite app_nil_r. }
  destruct (paginate_over_budget select dims itemsize max_request_size shape
              Hv Hlen Hshape Hmax Hover) as [Hnone Hsome].
  destruct (pagination_dim_or_none select) as [(d & s & Hd) | Hall].
  2:{ rewrite (Hnone Hall) in Hp. done. }
  destruct (Hsome d s Hd) as [Hfew Hmany].
  set (page_count := prod shape * itemsize / max_request_size + 1) in *.
  destruct (Z.ltb_spec (paginate_extent_of s) page_count) as [Hlt | Hge].
  { rewrite (Hfew Hlt) in Hp. done. }
  destruct (Hmany Hge) as (Hpe & pl & Hpl & _ & Hres).
  rewrite Hres in Hp. injection Hp as <-.
  pose proof Hd as (Hlook & Hgt & Hbefore).
  assert (valid_entry s) as Hs.
  { rewrite Forall_forall in Hv. apply Hv. apply list_elem_of_lookup. by exists d. }
  rewrite <- list_fmap_compose.
  rewrite (list_fmap_ext _ (fun p => selection_coords
             (take d select ++ p :: drop (S d) select)) pl).
  2:{ intros i p _. cbn. by rewrite (proj1 (insert_middle select d s p Hlook)). }
  transitivity (selection_coords (take d select ++ s :: drop (S d) select));
    [| by rewrite <- (proj2 (insert_middle select d s s Hlook))].
  apply selection_coords_pages.
  - apply Forall_forall. intros e He.
    apply list_elem_of_lookup in He as [j Hj].
    apply lookup_take_Some in Hj as [Hj Hjd].
    apply passed_over_entry; [| by apply (Hbefore j e)].
    rewrite Forall_forall in Hv. apply Hv. apply list_elem_of_lookup. by exists j.
  - apply (paginate_slices_of_coords s _ pl Hs Hgt Hpe); [| done].
    intros sl ->. by apply (Hal d sl).
Qed.

(** ** Selections inside the chunk *)

Lemma result_bind_ok {A B : Type} (r : result A) (f : A -> result B) (b : B) :
  r ≫= f = Ok b -> exists a, r = Ok a /\ f a = Ok b.
Proof. destruct r as [a|e]; cbn; [eauto | discriminate]. Qed.

Lemma result_fmap_ok {A B : Type} (r : result A) (f : A -> B) (b : B) :
  f <$> r = Ok b -> exists a, r = Ok a /\ b = f a.
Proof. destruct r as [a|e]; cbn; [intros [= <-]; eauto | discriminate]. Qed.

Lemma read_coords_sound (extent : Z) (fields : list (option Z)) :
  forall coords l,
    Forall (fun c => 0 <= c < extent) coords ->
    read_coords extent fields coords = Ok l ->
    Forall (fun c => 0 <= c < extent) l.
Proof.
  induction fields as [|f fields IH]; intros coords l Hc H; cbn in H.
  - by injection H as <-.
  - destruct f as [c|]; cbn in H; [|discriminate].
    destruct ((c <? 0) || (extent <=? c)) eqn:Hb; [discriminate|].
    apply (IH (coords ++ [c]) l); [|done].
    apply Forall_app; split; [done|]. apply Forall_singleton. lia.
Qed.

Lemma read_index_sound (extent : Z) (o : option Z) (e : sel_entry) :
  read_index extent o = Ok e -> in_bounds extent e.
Proof.
  unfold read_index. destruct o as [n|]; cbn; [|discriminate].
  destruct ((n <? 0) || (extent <=? n)) eqn:Hb; [discriminate|].
  intros [= <-]. cbn. lia.
Qed.

Ltac case_if H :=
  match type of H with
  | context [if ?c then _ else _] => destruct c eqn:?
  end.

Lemma read_range_sound (extent : Z) (s : string) (e : sel_entry) :
  0 <= extent -> read_range extent s = Ok e -> in_bounds extent e.
Proof.
  intros Hext. unfold read_range.
  destruct (negb _); [discriminate|].
  intros H.
  apply result_bind_ok in H as (start & Hstart & H).
  apply result_bind_ok in H as (stop & Hstop & H).
  apply result_bind_ok in H as (step & Hstep & H).
  injection H as <-.
  assert (start = 0 \/ 0 <= start < extent) as Ha.
  { case_if Hstart; [left; congruence|].
    apply result_bind_ok in Hstart as (a & _ & Hstart).
    destruct ((a <? 0) || (extent <=? a)) eqn:Hb; [discriminate|].
    injection Hstart as <-. right. lia. }
  assert (stop = extent \/ 0 <= stop <= extent /\ start < stop) as Hb.
  { case_if Hstop; [left; congruence|].
    apply result_bind_ok in Hstop as (b & _ & Hstop).
    destruct ((b <? 0) || (extent <? b) || (b <=? start)) eqn:Hb; [discriminate|].
    injection Hstop as <-. right. lia. }
  assert (1 <= step) as Hc.
  { case_if Hstep; [|injection Hstep as <-; lia].
    case_if Hstep; [injection Hstep as <-; lia|].
    apply result_bind_ok in Hstep as (c & _ & Hstep).
    destruct (c <=? 0) eqn:Hc; [discriminate|].
    injection Hstep as <-. lia. }
  cbn. lia.
Qed.

Lemma read_element_sound (extent : Z) (el : element) (e : sel_entry) :
  0 <= extent -> read_element extent el = Ok e -> in_bounds extent e.
Proof.
  intros Hext. destruct el as [s|l|n]; cbn [read_element].
  - destruct (startswith _ _).
    { intros H. apply result_fmap_ok in H as (l & H & ->). cbn.
      by eapply read_coords_sound; [apply Forall_nil|exact H]. }
    destruct (String.eqb s ":").
    { intros [= <-]. cbn. lia. }
    destruct (contains _ _); [by apply read_range_sound|apply read_index_sound].
  - intros H. apply result_fmap_ok in H as (l' & H & ->). cbn.
    by eapply read_coords_sound; [apply Forall_nil|exact H].
  - apply read_index_sound.
Qed.

Lemma read_elements_sound (dims : list Z) (elements : list element) :
  Forall (fun d => 0 <= d) dims ->
  forall n dim select_list sel,
    Forall2 in_bounds (take dim dims) select_list ->
    (dim + n = length dims)%nat ->
    read_elements dims elements dim n select_list = Ok sel ->
    Forall2 in_bounds dims sel.
Proof.
  intros Hd. induction n as [|n IH]; intros dim select_list sel Hpre Hlen H; cbn in H.
  - injection H as <-. rewrite Nat.add_0_r in Hlen. subst dim.
    by rewrite firstn_all in Hpre.
  - destruct (dims !! dim) as [extent|] eqn:Hx; [|discriminate].
    destruct (elements !! dim) as [el|] eqn:He; [|discriminate].
    apply result_bind_ok in H as (s & Hs & H).
    apply (IH (S dim) (select_list ++ [s]) sel); [|lia|done].
    rewrite (take_S_r _ _ _ Hx). apply Forall2_app; [done|].
    constructor; [|constructor].
    eapply read_element_sound; [|exact Hs].
    by eapply (proj1 (Forall_lookup _ _) Hd).
Qed.

Lemma select_all_in_bounds (dims : list Z) :
  Forall (fun d => 0 <= d) dims -> Forall2 in_bounds dims (select_all dims).
Proof.
  intros Hd. unfold select_all. apply Forall2_fmap_r, Forall_Forall2_diag.
  eapply Forall_impl; [exact Hd|]. intros d Hd'. unfold in_bounds; cbn in *. lia.
Qed.

(** X1: For a chunk whose extents are not negative, every selection
    [getSelectionList] returns has one entry per dimension and stays inside
    the chunk: a range has [0 <= start <= stop <= extent] and a stride of at
    least 1 (with [start < stop] when the extent is positive), and every
    coordinate of a coordinate list lies in [0, extent). *)
Theorem getSelectionList_in_bounds (select : select_arg) (dims : list Z)
    (sel : list sel_entry) :
  Forall (fun d => 0 <= d) dims ->
  getSelectionList select dims = Ok sel ->
  Forall2 in_bounds dims sel.
Proof.
  intros Hd H. unfold getSelectionList in H.
  apply result_bind_ok in H as (select' & _ & H).
  destruct (select_is_empty select').
  { injection H as <-. by apply select_all_in_bounds. }
  apply result_bind_ok in H as (elements & _ & H).
  destruct (negb _) eqn:Hr; [discriminate|].
  apply negb_false_iff, Nat.eqb_eq in Hr.
  refine (read_elements_sound dims elements Hd _ 0%nat [] sel _ _ H).
  - cbn. constructor.
  - lia.
Qed.

Lemma getSelectionList_in_bounds_witness :
  Forall (fun d => 0 <= d) [10; 20] /\
  Forall2 in_bounds [10; 20]
    [Range (Slice 2 8 3); Coords [1; 5; 19]].
Proof.
  assert (Forall (fun d => 0 <= d) [10; 20]) as Hd by (repeat constructor; lia).
  split; [exact Hd|].
  apply (getSelectionList_in_bounds (SelStr "[2:8:3,[1,5,19]]") [10; 20] _ Hd).
  vm_compute. reflexivity.
Defined.

Lemma result_bind_raise {A B : Type} (r : result A) (f : A -> result B) (e : exn) :
  r ≫= f = Raise e -> r = Raise e \/ exists a, r = Ok a /\ f a = Raise e.
Proof. destruct r as [a|e']; cbn; [eauto | intros [= ->]; by left]. Qed.

Lemma result_fmap_raise {A B : Type} (r : result A) (f : A -> B) (e : exn) :
  f <$> r = Raise e -> r = Raise e.
Proof. destruct r as [a|e']; cbn; [discriminate | by intros [= ->]]. Qed.

Lemma int_or_raise (msg : string) (o : option Z) (e : exn) :
  int_or msg o = Raise e -> e = ValueError msg.
Proof. destruct o; cbn; [discriminate|by intros [= <-]]. Qed.

Lemma scan_select_raise (cs : list ascii) :
  forall query_array dim_query coord_list e,
    scan_select cs query_array dim_query coord_list = Raise e ->
    exists msg, e = ValueError msg.
Proof.
  induction cs as [|ch cs IH]; intros qa dq b e H; cbn in H; [discriminate|].
  repeat case_match; try (injection H as <-; eauto); by eapply IH.
Qed.

Lemma read_coords_raise (extent : Z) (fields : list (option Z)) :
  forall coords e,
    read_coords extent fields coords = Raise e -> exists msg, e = ValueError msg.
Proof.
  induction fields as [|f fields IH]; intros coords e H; cbn in H; [discriminate|].
  apply result_bind_raise in H as [H|(c & _ & H)].
  - apply int_or_raise in H. eauto.
  - case_if H; [injection H as <-; eauto|by eapply IH].
Qed.

Lemma read_index_raise (extent : Z) (o : option Z) (e : exn) :
  read_index extent o = Raise e -> exists msg, e = ValueError msg.
Proof.
  unfold read_index. intros H.
  apply result_bind_raise in H as [H|(c & _ & H)].
  - apply int_or_raise in H. eauto.
  - case_if H; [injection H as <-; eauto|discriminate].
Qed.

Lemma read_range_raise (extent : Z) (s : string) (e : exn) :
  read_range extent s = Raise e -> exists msg, e = ValueError msg.
Proof.
  unfold read_range. intros H.
  case_if H; [injection H as <-; eauto|].
  apply result_bind_raise in H as [H|(start & _ & H)].
  { case_if H; [discriminate|].
    apply result_bind_raise in H as [H|(c & _ & H)].
    - apply int_or_raise in H. eauto.
    - case_if H; [injection H as <-; eauto|discriminate]. }
  apply result_bind_raise in H as [H|(stop & _ & H)].
  { case_if H; [discriminate|].
    apply result_bind_raise in H as [H|(c & _ & H)].
    - apply int_or_raise in H. eauto.
    - case_if H; [injection H as <-; eauto|discriminate]. }
  apply result_bind_raise in H as [H|(step & _ & H)]; [|discriminate].
  case_if H; [|discriminate].
  case_if H; [discriminate|].
  apply result_bind_raise in H as [H|(c & _ & H)].
  - apply int_or_raise in H. eauto.
  - case_if H; [injection H as <-; eauto|discriminate].
Qed.

Lemma read_element_str_raise (extent : Z) (s : string) (e : exn) :
  read_element extent (ElStr s) = Raise e -> exists msg, e = ValueError msg.
Proof.
  cbn [read_element]. intros H.
  case_if H; [apply result_fmap_raise in H; by eapply read_coords_raise|].
  case_if H; [discriminate|].
  case_if H; [by eapply read_range_raise|by eapply read_index_raise].
Qed.

Lemma read_elements_str_raise (dims : list Z) (l : list string) :
  length dims = length l ->
  forall n dim select_list e,
    (dim + n = length dims)%nat ->
    read_elements dims (ElStr <$> l) dim n select_list = Raise e ->
    exists msg, e = ValueError msg.
Proof.
  intros Hlen. induction n as [|n IH]; intros dim select_list e Hn H; cbn in H;
    [discriminate|].
  destruct (lookup_lt_is_Some_2 dims dim ltac:(lia)) as [extent Hx].
  destruct (lookup_lt_is_Some_2 l dim ltac:(lia)) as [s Hs].
  rewrite Hx, list_lookup_fmap, Hs in H. cbn in H.
  apply result_bind_raise in H as [H|(x & _ & H)].
  - by eapply read_element_str_raise.
  - eapply IH; [|exact H]. lia.
Qed.

Lemma getSelectionList_str_raises_ValueError_aux (s : string) (dims : list Z)
    (e : exn) :
  getSelectionList (SelStr s) dims = Raise e -> exists msg, e = ValueError msg.
Proof.
  unfold getSelectionList. cbn [mbind result_bind select_is_empty].
  intros H. case_if H; [discriminate|].
  apply result_bind_raise in H as [H|(elements & Hel & H)].
  - unfold _getSelectElements_str in H.
    apply result_bind_raise in H as [H|([qa dq] & _ & H)].
    + by eapply scan_select_raise.
    + destruct dq; [injection H as <-; eauto|discriminate].
  - case_if H; [injection H as <-; eauto|].
    unfold _getSelectElements_str in Hel.
    apply result_bind_ok in Hel as ([qa dq] & _ & Hel).
    destruct dq as [|c dq]; [discriminate|]. injection Hel as <-.
    match goal with Hr : negb _ = false |- _ =>
      apply negb_false_iff, Nat.eqb_eq in Hr; rewrite length_fmap in Hr end.
    eapply (read_elements_str_raise dims); [| |exact H].
    + rewrite length_fmap in *. lia.
    + rewrite length_fmap. lia.
Qed.

(** X2: Whatever the selection string and the extents, a call of
    [getSelectionList] on a string that fails raises [ValueError] and nothing
    else, so the handlers' [except ValueError] sees every parse failure. *)
Theorem getSelectionList_str_raises_ValueError (s : string) (dims : list Z)
    (e : exn) :
  getSelectionList (SelStr s) dims = Raise e -> exists msg, e = ValueError msg.
Proof. exact (getSelectionList_str_raises_ValueError_aux s dims e). Qed.

Lemma getSelectionList_str_raises_ValueError_witness :
  exists msg, ValueError stop_range = ValueError msg.
Proof.
  apply (getSelectionList_str_raises_ValueError "[5:2]" [10]).
  vm_compute. reflexivity.
Defined.

Lemma isSelectAll_loop_true (slices : list sel_entry) :
  forall dims,
    length slices = length dims ->
    (isSelectAll_loop (zip slices dims) = Ok true <-> slices = select_all dims).
Proof.
  induction slices as [|s slices IH]; intros [|d dims] Hlen; try discriminate.
  - done.
  - cbn in Hlen. injection Hlen as Hlen. specialize (IH dims Hlen).
    cbn [zip zip_with isSelectAll_loop select_all fmap list_fmap].
    destruct s as [[a b c]|l]; cbn [sl_start sl_stop sl_step].
    + destruct (c =? 1) eqn:Hc; cbn [negb].
      2:{ split; [discriminate|]. intros [= -> -> ->]. lia. }
      destruct (a =? 0) eqn:Ha; cbn [negb].
      2:{ split; [discriminate|]. intros [= -> -> ->]. lia. }
      destruct (b =? d) eqn:Hb; cbn [negb].
      2:{ split; [discriminate|]. intros [= -> -> ->]. lia. }
      apply Z.eqb_eq in Ha, Hb, Hc. subst.
      rewrite IH. unfold select_all. split; [by intros ->|by intros [= ->]].
    + split; discriminate.
Qed.

(** X3: [isSelectAll] answers [True] exactly for the selection
    [0:extent:1] in every dimension. *)
Theorem isSelectAll_true_iff (slices : list sel_entry) (dims : list Z) :
  isSelectAll slices dims = Ok true <-> slices = select_all dims.
Proof.
  unfold isSelectAll.
  destruct (Nat.eqb (length slices) (length dims)) eqn:Hlen; cbn [negb].
  - apply Nat.eqb_eq in Hlen. by apply isSelectAll_loop_true.
  - apply Nat.eqb_neq in Hlen. split; [discriminate|].
    intros ->. unfold select_all in Hlen. by rewrite length_fmap in Hlen.
Qed.

Lemma slice_extent_all (d : Z) : 0 <= d -> slice_extent (Slice 0 d 1) = d.
Proof.
  intros Hd. unfold slice_extent. cbn [sl_start sl_stop sl_step].
  rewrite Z.mod_1_r. cbn. destruct (0 <? d) eqn:H; lia.
Qed.

Lemma getSelectionShape_loop_all (dims : list Z) :
  Forall (fun d => 0 <= d) dims ->
  forall ce shape,
    getSelectionShape_loop (select_all dims) ce shape = Ok (shape ++ dims).
Proof.
  induction 1 as [|d dims Hd _ IH]; intros ce shape; cbn.
  - by rewrite app_nil_r.
  - fold (select_all dims). rewrite IH, slice_extent_all by done.
    by rewrite <- app_assoc.
Qed.

(** X4: With no selection given, [getSelectionList] returns the whole chunk:
    [isSelectAll] holds of it and [getSelectionShape] gives back the extents. *)
Theorem no_select_is_whole_chunk (dims : list Z) :
  Forall (fun d => 0 <= d) dims ->
  exists sel,
    getSelectionList SelNone dims = Ok sel /\
    isSelectAll sel dims = Ok true /\
    getSelectionShape sel = Ok dims.
Proof.
  intros Hd. exists (select_all dims). split; [done|]. split.
  - unfold isSelectAll.
    assert (length (select_all dims) = length dims) as Hlen
      by (unfold select_all; by rewrite length_fmap).
    rewrite Hlen, Nat.eqb_refl. cbn [negb].
    by apply (isSelectAll_loop_true (select_all dims) dims Hlen).
  - unfold getSelectionShape. by rewrite getSelectionShape_loop_all.
Qed.

Lemma no_select_is_whole_chunk_witness :
  Forall (fun d => 0 <= d) [10; 20] /\
  exists sel,
    getSelectionList SelNone [10; 20] = Ok sel /\
    isSelectAll sel [10; 20] = Ok true /\
    getSelectionShape sel = Ok [10; 20].
Proof.
  assert (Forall (fun d => 0 <= d) [10; 20]) as Hd by (repeat constructor; lia).
  split; [exact Hd|]. exact (no_select_is_whole_chunk [10; 20] Hd).
Defined.

Lemma getSelectionShape_loop_ranges (sel : list slice) :
  forall ce shape,
    getSelectionShape_loop (Range <$> sel) ce shape = Ok (shape ++ (slice_extent <$> sel)).
Proof.
  induction sel as [|s sel IH]; intros ce shape; cbn.
  - by rewrite app_nil_r.
  - rewrite IH. by rewrite <- app_assoc.
Qed.

Lemma ceil_div_step (a b : Z) : 0 < b -> ceil_div (a - b) b = ceil_div a b - 1.
Proof.
  intros Hb. unfold ceil_div.
  replace (- (a - b)) with (- a + 1 * b) by lia.
  rewrite Z.div_add by lia. lia.
Qed.

Lemma ceil_div_pos (a b : Z) : 0 < b -> 0 < a -> 1 <= ceil_div a b.
Proof.
  intros Hb Ha. unfold ceil_div.
  assert (- a / b < 0); [|lia]. apply Z.div_lt_upper_bound; lia.
Qed.

Lemma ceil_div_nonpos (a b : Z) : 0 < b -> a <= 0 -> ceil_div a b <= 0.
Proof.
  intros Hb Ha. unfold ceil_div.
  assert (0 <= - a / b); [|lia]. apply Z.div_pos; lia.
Qed.

Lemma range_from_len (stop step : Z) (fuel : nat) :
  1 <= step ->
  forall i, stop - i <= Z.of_nat fuel ->
    len (range_from fuel i stop step) = Z.max 0 (ceil_div (stop - i) step).
Proof.
  intros Hstep. induction fuel as [|fuel IH]; intros i Hfuel; cbn [range_from].
  - pose proof (ceil_div_nonpos (stop - i) step). unfold len; cbn. lia.
  - destruct (Z.ltb_spec i stop) as [Hlt|Hge].
    + rewrite len_cons, IH by lia.
      replace (stop - (i + step)) with (stop - i - step) by lia.
      rewrite ceil_div_step by lia.
      pose proof (ceil_div_pos (stop - i) step). lia.
    + pose proof (ceil_div_nonpos (stop - i) step). unfold len; cbn. lia.
Qed.

Lemma slice_indices_len (s : slice) :
  valid_range s -> len (slice_indices s) = slice_extent s.
Proof.
  intros Hs. rewrite slice_extent_ceil by done. cbn [entry_extent].
  unfold slice_indices. destruct Hs as [Hr Hstep].
  rewrite range_from_len by lia.
  pose proof (ceil_div_pos (sl_stop s - sl_start s) (sl_step s)). lia.
Qed.

Lemma len_bind_cons (l : list Z) (rest : list (list Z)) :
  len (x ← l; (fun t => x :: t) <$> rest) = len l * len rest.
Proof.
  unfold len. induction l as [|x l IH]; [done|].
  cbn. rewrite length_app, length_fmap. cbn in IH. lia.
Qed.

Lemma row_major_len (sel : list slice) :
  Forall valid_range sel -> len (row_major sel) = prod (slice_extent <$> sel).
Proof.
  induction 1 as [|s sel Hs _ IH]; [done|].
  rewrite row_major_cons, <- slice_indices_from_start, len_bind_cons, IH.
  by rewrite slice_indices_len.
Qed.

Lemma items_from_start (sel : list slice) (fuel : nat) :
  sel <> [] -> Forall valid_range sel ->
  (length (row_major sel) < fuel)%nat ->
  items fuel {| it_selection := sel; it_rank := length sel;
                it_index := sl_start <$> sel |}
  = Some (Ok (as_item <$> row_major sel)).
Proof.
  intros Hne Hv Hfuel. destruct sel as [| s0 sel]; [done |].
  pose proof (valid_range_tail _ _ Hv) as [[[_ Hlt] _] Hvt].
  assert (remaining (s0 :: sel) (sl_start <$> s0 :: sel) = row_major (s0 :: sel))
    as Hrem.
  { rewrite fmap_cons. unfold remaining.
    replace (sl_start s0 <? sl_stop s0) with true by (symmetry; apply Z.ltb_lt; lia).
    rewrite <- fmap_cons. by apply tail_from_starts. }
  rewrite <- Hrem. rewrite fmap_cons. apply items_remaining.
  - done.
  - by apply starts_in_range.
  - rewrite <- fmap_cons, Hrem. done.
Qed.

(** X5: For a non-empty selection of ranges of the data model,
    [ItemIterator] hands out exactly as many items as the product of the
    extents [getSelectionShape] computes. *)
Theorem ItemIterator_yields_shape_product (sel : list slice) :
  sel <> [] -> Forall valid_range sel ->
  exists it shape l,
    ItemIterator_init (Range <$> sel) = Ok it /\
    getSelectionShape (Range <$> sel) = Ok shape /\
    (forall fuel, prod shape < Z.of_nat fuel -> items fuel it = Some (Ok l)) /\
    len l = prod shape.
Proof.
  intros Hne Hv.
  exists {| it_selection := sel; it_rank := length sel; it_index := sl_start <$> sel |},
    (slice_extent <$> sel), (as_item <$> row_major sel).
  split; [apply ItemIterator_init_ranges|]. split.
  { unfold getSelectionShape. by rewrite getSelectionShape_loop_ranges. }
  pose proof (row_major_len sel Hv) as Hlen. split.
  - intros fuel Hfuel. apply items_from_start; [done..|].
    unfold len in Hlen. lia.
  - unfold len in *. by rewrite length_fmap.
Qed.

Lemma ItemIterator_yields_shape_product_witness :
  exists it shape l,
    ItemIterator_init (Range <$> [Slice 0 5 2; Slice 1 3 1]) = Ok it /\
    getSelectionShape (Range <$> [Slice 0 5 2; Slice 1 3 1]) = Ok shape /\
    (forall fuel, prod shape < Z.of_nat fuel -> items fuel it = Some (Ok l)) /\
    len l = prod shape.
Proof.
  apply (ItemIterator_yields_shape_product [Slice 0 5 2; Slice 1 3 1]).
  - discriminate.
  - repeat constructor; simpl; lia.
Defined.

Lemma page_stop_width (s : slice) (step page_extent start : Z) :
  1 <= step ->
  page_stop s step page_extent start <= start + page_extent + (step - 1).
Proof.
  intros Hstep. unfold page_stop.
  pose proof (Z.mod_pos_bound (start + page_extent) step ltac:(lia)).
  destruct (negb _) eqn:Hm.
  - apply negb_true_iff, Z.eqb_neq in Hm. case_match; lia.
  - case_match; lia.
Qed.

Lemma slice_pages_tiles (s : slice) (step page_extent : Z) (fuel : nat) :
  1 <= step -> 1 <= page_extent ->
  forall start pages,
    start <= sl_stop s ->
    slice_pages fuel s step page_extent start = Some pages ->
    tiles pages start (sl_stop s) /\
    Forall (page_of step (page_extent + (step - 1))) pages.
Proof.
  intros Hstep Hpe. induction fuel as [|fuel IH]; intros start pages Hle H.
  - cbn in H. revert H. destruct (Z.ltb_spec start (sl_stop s)); [discriminate|].
    intros [= <-]. cbn. split; [lia|constructor].
  - cbn [slice_pages] in H. revert H.
    destruct (Z.ltb_spec start (sl_stop s)) as [Hlt|Hge]; intros H.
    + pose proof (page_stop_bounds s step page_extent start Hstep Hpe Hlt) as Hb.
      pose proof (page_stop_width s step page_extent start Hstep) as Hw.
      destruct (slice_pages fuel s step page_extent _) as [rest|] eqn:Hrest;
        [|discriminate].
      cbn in H. injection H as <-.
      destruct (IH (page_stop s step page_extent start) rest ltac:(lia) Hrest)
        as [Ht Hf].
      split.
      * cbn [tiles sl_start sl_stop]. split; [done|]. split; [lia|exact Ht].
      * constructor; [|exact Hf]. cbn [page_of sl_start sl_stop sl_step]. lia.
    + injection H as <-. cbn. split; [lia|constructor].
Qed.

Lemma paginated_pages (select : list sel_entry) (dims : list Z)
    (itemsize max_request_size : Z) (shape : list Z) (d : nat) (s : sel_entry)
    (pages : list (list sel_entry)) :
  Forall valid_entry select ->
  length dims = length select ->
  getSelectionShape select = Ok shape ->
  0 < max_request_size ->
  max_request_size < prod shape * itemsize ->
  is_pagination_dim select d s ->
  getSelectionPagination select dims itemsize max_request_size = Some (Ok pages) ->
  let page_count := prod shape * itemsize / max_request_size + 1 in
  let page_extent := paginate_extent_of s / page_count in
  1 <= page_extent /\
  exists ps,
    paginate_slices_of s page_extent = Some ps /\
    pages = (fun p => <[d := p]> select) <$> ps.
Proof.
  intros Hv Hlen Hshape Hmax Hover Hd Hres page_count page_extent.
  destruct (paginate_over_budget select dims itemsize max_request_size shape
              Hv Hlen Hshape Hmax Hover) as [_ Hdim].
  destruct (Hdim d s Hd) as [Hfew Hmany].
  destruct (Z.lt_ge_cases (paginate_extent_of s) page_count) as [Hlt|Hge].
  - rewrite (Hfew Hlt) in Hres. discriminate.
  - destruct (Hmany Hge) as (Hpe & ps & Hps & _ & Heq).
    split; [exact Hpe|]. exists ps. split; [exact Hps|].
    rewrite Heq in Hres. by injection Hres as <-.
Qed.

(** X6: When [getSelectionPagination] paginates along a range, the pages
    differ from the selection only in that dimension, and their ranges there
    are non-empty, start where the one before stops, begin at the range's
    start and end at its stop. *)
Theorem pagination_tiles_the_range (select : list sel_entry) (dims : list Z)
    (itemsize max_request_size : Z) (shape : list Z) (d : nat) (s : slice)
    (pages : list (list sel_entry)) :
  Forall valid_entry select ->
  length dims = length select ->
  getSelectionShape select = Ok shape ->
  0 < max_request_size ->
  max_request_size < prod shape * itemsize ->
  is_pagination_dim select d (Range s) ->
  getSelectionPagination select dims itemsize max_request_size = Some (Ok pages) ->
  exists ps,
    pages = (fun p => <[d := p]> select) <$> ps /\
    tiles ps (sl_start s) (sl_stop s).
Proof.
  intros Hv Hlen Hshape Hmax Hover Hd Hres.
  destruct (paginated_pages _ _ _ _ _ _ _ _ Hv Hlen Hshape Hmax Hover Hd Hres)
    as (Hpe & ps & Hps & ->).
  exists ps. split; [done|].
  destruct Hd as (Hsd & _ & _).
  pose proof (proj1 (Forall_lookup _ _) Hv _ _ Hsd) as [Hr Hstep]. cbn in Hps.
  by destruct (slice_pages_tiles s _ _ _ (paginate_step_pos s Hstep) Hpe
                 (sl_start s) ps ltac:(lia) Hps).
Qed.

Lemma pagination_tiles_the_range_witness :
  exists ps,
    [[Range (Slice 0 3 1)]; [Range (Slice 3 6 1)]; [Range (Slice 6 9 1)];
     [Range (Slice 9 10 1)]]
    = (fun p => <[0%nat := p]> [Range (Slice 0 10 1)]) <$> ps /\
    tiles ps 0 10.
Proof.
  apply (pagination_tiles_the_range [Range (Slice 0 10 1)] [10] 4 16 [10] 0
           (Slice 0 10 1)).
  - repeat constructor; simpl; lia.
  - reflexivity.
  - reflexivity.
  - lia.
  - simpl; lia.
  - split; [reflexivity|]. split; [simpl; lia|]. intros j s' Hj. lia.
  - vm_compute. reflexivity.
Defined.

Lemma prod_app (l k : list Z) : prod (l ++ k) = prod l * prod k.
Proof.
  unfold prod. induction l as [|x l IH]; cbn [app fold_right]; [lia|].
  rewrite IH. lia.
Qed.

Lemma prod_slice_extent_pos (sel : list slice) :
  Forall valid_range sel -> 1 <= prod (slice_extent <$> sel).
Proof.
  induction 1 as [|s sel Hs _ IH]; cbn; [lia|].
  fold (prod (slice_extent <$> sel)).
  rewrite <- slice_indices_len by done.
  rewrite slice_indices_len, slice_extent_ceil by done. cbn [entry_extent].
  destruct Hs as [Hr Hstep].
  pose proof (ceil_div_pos (sl_stop s - sl_start s) (sl_step s) ltac:(lia) ltac:(lia)).
  nia.
Qed.

Lemma slice_extent_unit (s : slice) :
  sl_start s < sl_stop s -> sl_step s = 1 -> slice_extent s = sl_stop s - sl_start s.
Proof.
  intros Hlt Hstep. unfold slice_extent. rewrite Hstep. cbn.
  rewrite Z.mod_1_r. cbn.
  destruct (Z.ltb_spec (sl_start s) (sl_stop s)); lia.
Qed.

(** X7: For a selection of ranges whose pagination dimension has stride 1,
    every page [getSelectionPagination] returns has a shape, and its size in
    bytes is within [max_request_size]. *)
Theorem unit_stride_pages_fit_budget (sel : list slice) (dims : list Z)
    (itemsize max_request_size : Z) (d : nat) (s : slice)
    (pages : list (list sel_entry)) :
  Forall valid_range sel ->
  length dims = length sel ->
  0 < max_request_size ->
  0 <= itemsize ->
  is_pagination_dim (Range <$> sel) d (Range s) ->
  sl_step s = 1 ->
  getSelectionPagination (Range <$> sel) dims itemsize max_request_size
    = Some (Ok pages) ->
  Forall (fun page => exists shape,
            getSelectionShape page = Ok shape /\
            prod shape * itemsize <= max_request_size) pages.
Proof.
  intros Hv Hlen Hmax Hitem Hd Hunit Hres.
  assert (getSelectionShape (Range <$> sel) = Ok (slice_extent <$> sel)) as Hshape.
  { unfold getSelectionShape. by rewrite getSelectionShape_loop_ranges. }
  destruct (Z.le_gt_cases (prod (slice_extent <$> sel) * itemsize) max_request_size)
    as [Hfit|Hover].
  { unfold getSelectionPagination in Hres. rewrite Hshape in Hres.
    replace (_ <=? _) with true in Hres by (symmetry; by apply Z.leb_le).
    injection Hres as <-. constructor; [|constructor]. eauto. }
  assert (Forall valid_entry (Range <$> sel)) as Hve.
  { apply Forall_fmap. eapply Forall_impl; [exact Hv|]. done. }
  assert (length dims = length (Range <$> sel)) as Hlen' by (by rewrite length_fmap).
  destruct (paginated_pages _ _ _ _ _ _ _ _ Hve Hlen' Hshape Hmax Hover Hd Hres)
    as (Hpe & ps & Hps & ->).
  destruct Hd as (Hsd & _ & _).
  rewrite list_lookup_fmap in Hsd.
  destruct (sel !! d) as [s'|] eqn:Hsel; [|discriminate].
  injection Hsd as ->.
  pose proof (proj1 (Forall_lookup _ _) Hv _ _ Hsel) as [Hr Hstep].
  cbn [paginate_slices_of] in Hps.
  assert (paginate_step s = 1) as Hps1.
  { unfold paginate_step. rewrite Hunit. by destruct (_ && _). }
  rewrite Hps1 in Hps.
  destruct (slice_pages_tiles s 1 _ _ ltac:(lia) Hpe (sl_start s) ps ltac:(lia) Hps)
    as [Htiles Hpages].
  assert (forall a, tiles ps a (sl_stop s) -> 0 <= a ->
          Forall (fun p => exists sl, p = Range sl /\ valid_range sl /\ sl_step sl = 1 /\
                    sl_stop sl - sl_start sl <=
                    paginate_extent_of (Range s) /
                      (prod (slice_extent <$> sel) * itemsize / max_request_size + 1)) ps)
    as Hall.
  { clear Hps Htiles Hres. induction Hpages as [|p ps Hp _ IH]; intros a Ht Ha; [constructor|].
    destruct p as [sl|]; [|done]. cbn in Ht. destruct Hp as [Hs1 Hw].
    destruct Ht as (Hst & Hlt & Ht).
    constructor; [|apply (IH (sl_stop sl)); [done|lia]].
    exists sl. repeat split; try lia. }
  specialize (Hall _ Htiles ltac:(lia)).
  apply Forall_fmap. eapply Forall_impl; [exact Hall|].
  intros p (sl & -> & Hvsl & Hsl1 & Hw). cbn.
  rewrite <- list_fmap_insert.
  exists (slice_extent <$> <[d := sl]> sel). split.
  { unfold getSelectionShape. by rewrite getSelectionShape_loop_ranges. }
  assert (slice_extent <$> sel
          = (slice_extent <$> take d sel) ++
            slice_extent s :: (slice_extent <$> drop (S d) sel)) as Hsplit.
  { rewrite <- fmap_cons, <- fmap_app. by rewrite take_drop_middle. }
  assert (slice_extent <$> <[d := sl]> sel
          = (slice_extent <$> take d sel) ++
            slice_extent sl :: (slice_extent <$> drop (S d) sel)) as Hsplit'.
  { rewrite insert_take_drop by (by eapply lookup_lt_Some).
    by rewrite fmap_app, fmap_cons. }
  rewrite Hsplit in Hover, Hw. rewrite Hsplit'. clear Hsplit Hsplit' Hshape Hres.
  rewrite !prod_app in *.
  cbn [prod fold_right] in *.
  fold (prod (slice_extent <$> drop (S d) sel)) in *.
  pose proof (prod_slice_extent_pos (take d sel) (Forall_take _ _ _ Hv)) as HA.
  pose proof (prod_slice_extent_pos (drop (S d) sel) (Forall_drop _ _ _ Hv)) as HB.
  set (A := prod (slice_extent <$> take d sel)) in *.
  set (B := prod (slice_extent <$> drop (S d) sel)) in *.
  rewrite (slice_extent_unit s) in * by lia.
  rewrite (slice_extent_unit sl) by (destruct Hvsl; lia).
  cbn [paginate_extent_of] in Hw.
  replace (sl_start s <? sl_stop s) with true in Hw by (symmetry; apply Z.ltb_lt; lia).
  set (y := sl_stop s - sl_start s) in *.
  set (x := sl_stop sl - sl_start sl) in *.
  set (size := A * (y * B) * itemsize) in *.
  set (pc := size / max_request_size + 1) in *.
  assert (0 < pc) as Hpc.
  { assert (0 <= size / max_request_size) by (apply Z.div_pos; lia). lia. }
  assert (size < pc * max_request_size) as Hsz.
  { pose proof (Z.div_mod size max_request_size ltac:(lia)).
    pose proof (Z.mod_pos_bound size max_request_size ltac:(lia)). lia. }
  assert (y / pc * pc <= y) as Hq.
  { pose proof (Z.div_mod y pc ltac:(lia)).
    pose proof (Z.mod_pos_bound y pc ltac:(lia)). lia. }
  assert (0 <= A * B * itemsize) as HR by nia.
  assert (x * (A * B * itemsize) * pc <= size) as Hle.
  { unfold size. 
    transitivity (y / pc * pc * (A * B * itemsize)); [|nia].
    assert (x * (A * B * itemsize) <= y / pc * (A * B * itemsize)) by nia. nia. }
  assert (x * (A * B * itemsize) < max_request_size); [|lia].
  nia.
Qed.

Lemma unit_stride_pages_fit_budget_witness :
  Forall (fun page => exists shape,
            getSelectionShape page = Ok shape /\ prod shape * 4 <= 16)
    [[Range (Slice 0 3 1)]; [Range (Slice 3 6 1)]; [Range (Slice 6 9 1)];
     [Range (Slice 9 10 1)]].
Proof.
  apply (unit_stride_pages_fit_budget [Slice 0 10 1] [10] 4 16 0 (Slice 0 10 1)).
  - repeat constructor; simpl; lia.
  - reflexivity.
  - lia.
  - lia.
  - split; [reflexivity|]. split; [simpl; lia|]. intros j s' Hj. lia.
  - reflexivity.
  - vm_compute. reflexivity.
Defined.

(** X9: A call of [getFilterOps] that returns leaves a filter map in which
    every later call for the same dataset returns the same descriptor and
    leaves the map as it is, whatever filters, type and chunk shape it is
    given; the entries of other datasets are not touched. *)
Theorem getFilterOps_memoizes
    (filter_map : gmap string (gmap string opval)) (dset_id : string)
    (filters : list (gmap string fval)) (dt : option dtype)
    (chunk_shape : option (list Z))
    (r : option (gmap string opval))
    (filter_map' : gmap string (gmap string opval)) :
  getFilterOps filter_map dset_id filters dt chunk_shape = Ok (r, filter_map') ->
  (forall other, other <> dset_id -> filter_map' !! other = filter_map !! other) /\
  (forall filters' dt' chunk_shape',
      getFilterOps filter_map' dset_id filters' dt' chunk_shape' = Ok (r, filter_map')).
Proof.
  intros H. destruct (filter_map !! dset_id) as [cached|] eqn:Hc.
  - unfold getFilterOps in H. rewrite Hc in H. injection H as <- <-.
    split; [done|]. intros. unfold getFilterOps. by rewrite Hc.
  - destruct (getFilterOps_miss_returns_descriptor _ _ _ _ _ _ _ Hc H)
      as (ops & -> & -> & _).
    split.
    + intros other Hne. by rewrite lookup_insert_ne.
    + intros. unfold getFilterOps. by rewrite lookup_insert_eq.
Qed.

Lemma getFilterOps_memoizes_witness :
  let ops : gmap string opval :=
    <["dtype"%string := ODtype None]>
      (<["chunk_shape"%string := OShape None]>
         (<["shuffle"%string := OInt 0]> ∅)) in
  let fm : gmap string (gmap string opval) := <["d-1"%string := ops]> ∅ in
  (forall other, other <> "d-1"%string -> fm !! other = (∅ : gmap string (gmap string opval)) !! other) /\
  (forall filters' dt' chunk_shape',
      getFilterOps fm "d-1" filters' dt' chunk_shape' = Ok (Some ops, fm)).
Proof.
  apply (getFilterOps_memoizes ∅ "d-1" [] None None).
  reflexivity.
Defined.

Lemma compression_ops_shuffle (cf : option (gmap string fval))
    (ops ops' : gmap string opval) :
  compression_ops cf ops = Ok ops' ->
  ops' !! "shuffle"%string = ops !! "shuffle"%string.
Proof.
  unfold compression_ops. intros H.
  destruct cf as [cf|]; [|by injection H as <-].
  destruct (dict_truthy cf); [|by injection H as <-].
  apply result_bind_ok in H as (cls & _ & H).
  destruct (cf !! "level"%string) as [level|].
  - apply result_bind_ok in H as (n & _ & H). injection H as <-.
    rewrite lookup_insert_ne by done.
    repeat case_match; by rewrite lookup_insert_ne.
  - injection H as <-. rewrite lookup_insert_ne by done.
    repeat case_match; by rewrite lookup_insert_ne.
Qed.

(** X10: On a miss, [getFilterOps] stores and returns a descriptor whose
    [shuffle] is 0 when the filters hold no shuffle filter or the type has
    variable-length elements. *)
Theorem getFilterOps_shuffle_off
    (filter_map : gmap string (gmap string opval)) (dset_id : string)
    (filters : list (gmap string fval)) (dt : option dtype)
    (chunk_shape : option (list Z))
    (r : option (gmap string opval))
    (filter_map' : gmap string (gmap string opval)) :
  filter_map !! dset_id = None ->
  getShuffleFilter filters = None \/ (exists d, dt = Some d /\ isVlen d = true) ->
  getFilterOps filter_map dset_id filters dt chunk_shape = Ok (r, filter_map') ->
  exists ops,
    r = Some ops /\ filter_map' !! dset_id = Some ops /\
    ops !! "shuffle"%string = Some (OInt 0).
Proof.
  intros Hmiss Hoff H. unfold getFilterOps in H. rewrite Hmiss in H.
  apply result_bind_ok in H as (cf & _ & H).
  apply result_bind_ok in H as (shuffle & Hsh & H).
  apply result_bind_ok in H as (ops & Hops & H).
  assert (shuffle = 0) as ->.
  { unfold shuffle_op in Hsh. destruct Hoff as [Hn | (d & -> & Hv)].
    - rewrite Hn in Hsh. by injection Hsh as <-.
    - revert Hsh. destruct (getShuffleFilter filters) as [sf|]; [|by intros [= <-]].
      destruct (dict_truthy sf); [|by intros [= <-]].
      cbn. rewrite Hv. cbn. by intros [= <-]. }
  apply compression_ops_shuffle in Hops as Hs.
  rewrite lookup_insert_eq in Hs.
  destruct (dict_truthy ops) eqn:Ht.
  - injection H as <- <-. eexists. split; [done|].
    rewrite lookup_insert_eq. split; [done|].
    by rewrite !lookup_insert_ne.
  - unfold dict_truthy in Ht. apply negb_false_iff, Nat.eqb_eq in Ht.
    apply map_size_empty_inv in Ht. subst ops. by rewrite lookup_empty in Hs.
Qed.

Lemma getFilterOps_shuffle_off_witness :
  exists ops,
    Some (<["dtype"%string := ODtype (Some (Dtype [] true))]>
      (<["chunk_shape"%string := OShape None]>
         (<["shuffle"%string := OInt 0]> (∅ : gmap string opval)))) = Some ops /\
    (<["d-1"%string :=
        <["dtype"%string := ODtype (Some (Dtype [] true))]>
          (<["chunk_shape"%string := OShape None]>
             (<["shuffle"%string := OInt 0]> (∅ : gmap string opval)))]>
       (∅ : gmap string (gmap string opval))) !! "d-1"%string = Some ops /\
    ops !! "shuffle"%string = Some (OInt 0).
Proof.
  apply (getFilterOps_shuffle_off ∅ "d-1"
           [<["class"%string := FStr "H5Z_FILTER_SHUFFLE"]>
              (<["name"%string := FStr "shuffle"]> ∅)]
           (Some (Dtype [] true)) None).
  - reflexivity.
  - right. exists (Dtype [] true). split; reflexivity.
  - vm_compute. reflexivity.
Defined.

Lemma preview_extents_bounds (nrows ncols : Z) :
  1 <= nrows -> 1 <= ncols ->
  let '(r, c) := preview_extents nrows ncols in
  1 <= r <= nrows /\ 1 <= c <= ncols /\ r * c <= 100.
Proof.
  intros Hr Hc. unfold preview_extents.
  set (c := if 100 <? ncols then 100 else ncols).
  set (r := if 100 <? nrows then 100 else nrows).
  assert (1 <= c <= ncols /\ c <= 100) as Hc' by (subst c; case_match; lia).
  assert (1 <= r <= nrows /\ r <= 100) as Hr' by (subst r; case_match; lia).
  clearbody c r.
  destruct (Z.ltb_spec 100 (r * c)) as [Hbig|Hsmall]; [|lia].
  destruct (Z.ltb_spec c r) as [Hlt|Hge].
  - pose proof (Z.div_mod 100 c ltac:(lia)).
    pose proof (Z.mod_pos_bound 100 c ltac:(lia)).
    assert (1 <= 100 / c) by (apply Z.div_le_lower_bound; lia).
    assert (100 / c < r) by (apply Z.div_lt_upper_bound; lia).
    nia.
  - pose proof (Z.div_mod 100 r ltac:(lia)).
    pose proof (Z.mod_pos_bound 100 r ltac:(lia)).
    assert (1 <= 100 / r) by (apply Z.div_le_lower_bound; lia).
    assert (100 / r < c) by (apply Z.div_lt_upper_bound; lia).
    nia.
Qed.

Lemma join_cons_cons (sep d d' : string) (ds : list string) :
  join sep (d :: d' :: ds) = (d ++ sep ++ join sep (d' :: ds))%string.
Proof. done. Qed.

Lemma preview_dims_S (i n : nat) (rank nrows ncols : Z) (select : string) :
  preview_dims i (S n) rank nrows ncols select
  = preview_dims (S i) n rank nrows ncols
      (if Z.of_nat i =? rank - 1 then (select ++ "0:" ++ str_of_int ncols)%string
       else if Z.of_nat i =? rank - 2
       then (select ++ "0:" ++ str_of_int nrows ++ ",")%string
       else (select ++ "0:1,")%string).
Proof. done. Qed.

Lemma preview_dims_join (rank nrows ncols : Z) (n : nat) :
  forall (i : nat) (select : string),
    Z.of_nat i + Z.of_nat (S n) = rank ->
    preview_dims i (S n) rank nrows ncols select
    = (select ++ join "," (dim_exprs (replicate (S n) 0)
                            (preview_stops i (S n) rank nrows ncols) None))%string.
Proof.
  induction n as [|n IH]; intros i select Hi.
  - cbn [preview_dims preview_stops replicate dim_exprs join].
    replace (Z.of_nat i =? rank - 1) with true by (symmetry; apply Z.eqb_eq; lia).
    done.
  - rewrite preview_dims_S, IH by lia.
    change (preview_stops i (S (S n)) rank nrows ncols)
      with ((if Z.of_nat i =? rank - 1 then ncols
             else if Z.of_nat i =? rank - 2 then nrows else 1)
              :: preview_stops (S i) (S n) rank nrows ncols).
    change (replicate (S (S n)) 0) with (0 :: replicate (S n) 0).
    replace (Z.of_nat i =? rank - 1) with false by (symmetry; apply Z.eqb_neq; lia).
    set (rest := preview_stops (S i) (S n) rank nrows ncols).
    assert (exists d ds, dim_exprs (replicate (S n) 0) rest None = d :: ds)
      as (d & ds & Hds) by (cbn; eauto).
    cbn [dim_exprs]. fold (@replicate Z). rewrite Hds, join_cons_cons.
    destruct (Z.of_nat i =? rank - 2).
    + change (str_of_int 0) with "0"%string.
      rewrite !string_app_assoc. reflexivity.
    + change (str_of_int 1) with "1"%string.
      change (str_of_int 0) with "0"%string.
      rewrite !string_app_assoc. reflexivity.
Qed.

Lemma preview_stops_length (i n : nat) (rank nrows ncols : Z) :
  length (preview_stops i n rank nrows ncols) = n.
Proof. revert i. induction n as [|n IH]; intros i; cbn; [done|by rewrite IH]. Qed.

Lemma preview_stops_bounds (dims : list Z) (nrows ncols : Z) :
  Forall (fun d => 1 <= d) dims ->
  (forall d, dims !! Z.to_nat (len dims - 1) = Some d -> 1 <= ncols <= d) ->
  (forall d, dims !! Z.to_nat (len dims - 2) = Some d -> 1 <= nrows <= d) ->
  forall n i,
    (i + n = length dims)%nat ->
    valid_bounds (drop i dims) (replicate n 0)
      (preview_stops i n (len dims) nrows ncols) None.
Proof.
  intros Hd Hc Hr. induction n as [|n IH]; intros i Hi.
  - rewrite drop_ge by lia. cbn. by left.
  - destruct (lookup_lt_is_Some_2 dims i ltac:(lia)) as [d Hdi].
    rewrite (drop_S _ _ _ Hdi). cbn [replicate preview_stops valid_bounds].
    pose proof (proj1 (Forall_lookup _ _) Hd _ _ Hdi) as Hd1. cbn in Hd1.
    split; [lia|]. split; [|apply IH; lia].
    unfold len in *.
    destruct (Z.eqb_spec (Z.of_nat i) (Z.of_nat (length dims) - 1)) as [E1|N1].
    { rewrite <- E1, Nat2Z.id in Hc. specialize (Hc _ Hdi). lia. }
    destruct (Z.eqb_spec (Z.of_nat i) (Z.of_nat (length dims) - 2)) as [E2|N2].
    { rewrite <- E2, Nat2Z.id in Hr. specialize (Hr _ Hdi). lia. }
    lia.
Qed.

Lemma preview_stops_prod (rank nrows ncols : Z) (n : nat) :
  forall i : nat,
    prod (preview_stops i n rank nrows ncols)
    = (if (Z.of_nat i <=? rank - 2) && (rank - 2 <? Z.of_nat i + Z.of_nat n)
       then nrows else 1) *
      (if (Z.of_nat i <=? rank - 1) && (rank - 1 <? Z.of_nat i + Z.of_nat n)
       then ncols else 1).
Proof.
  induction n as [|n IH]; intros i.
  - cbn [preview_stops prod fold_right].
    destruct (Z.leb_spec (Z.of_nat i) (rank - 2)), (Z.ltb_spec (rank - 2) (Z.of_nat i + Z.of_nat 0)),
      (Z.leb_spec (Z.of_nat i) (rank - 1)), (Z.ltb_spec (rank - 1) (Z.of_nat i + Z.of_nat 0));
      cbn [andb]; lia.
  - cbn [preview_stops prod fold_right]. fold (prod (preview_stops (S i) n rank nrows ncols)).
    rewrite IH.
    destruct (Z.eqb_spec (Z.of_nat i) (rank - 1)), (Z.eqb_spec (Z.of_nat i) (rank - 2)),
      (Z.leb_spec (Z.of_nat i) (rank - 2)), (Z.ltb_spec (rank - 2) (Z.of_nat i + Z.of_nat (S n))),
      (Z.leb_spec (Z.of_nat i) (rank - 1)), (Z.ltb_spec (rank - 1) (Z.of_nat i + Z.of_nat (S n))),
      (Z.leb_spec (Z.of_nat (S i)) (rank - 2)), (Z.ltb_spec (rank - 2) (Z.of_nat (S i) + Z.of_nat n)),
      (Z.leb_spec (Z.of_nat (S i)) (rank - 1)), (Z.ltb_spec (rank - 1) (Z.of_nat (S i) + Z.of_nat n));
      cbn [andb]; lia.
Qed.

Lemma getSelectionShape_loop_from_zero (stops : list Z) :
  Forall (fun b => 0 <= b) stops ->
  forall ce shape,
    getSelectionShape_loop (bound_slices (replicate (length stops) 0) stops None)
      ce shape = Ok (shape ++ stops).
Proof.
  induction 1 as [|b stops Hb _ IH]; intros ce shape; cbn.
  - by rewrite app_nil_r.
  - rewrite IH, slice_extent_all by done. by rewrite <- app_assoc.
Qed.

Lemma py_index_nonneg {A : Type} (l : list A) (i : Z) (x : A) :
  0 <= i -> l !! Z.to_nat i = Some x -> py_index l i = Ok x.
Proof.
  intros Hi Hx. unfold py_index.
  assert ((i <? 0) = false) as Hf by (apply Z.ltb_ge; lia).
  rewrite !Hf. cbv zeta. rewrite ?Hf. by rewrite Hx.
Qed.

Lemma valid_bounds_stops_pos (stops : list Z) :
  forall dims starts,
    valid_bounds dims starts stops None -> Forall (fun b => 0 <= b) stops.
Proof.
  induction stops as [|b stops IH]; intros dims zs Hvb; [constructor|].
  destruct dims as [|d dims], zs as [|z zs]; try done.
  cbn in Hvb. destruct Hvb as (? & ? & Hvb).
  constructor; [lia|by eapply IH].
Qed.

(** X14: For a dataset with at least one dimension and extents of at
    least 1, [getPreviewQuery] returns [select=] followed by a selection that
    [getSelectionList] accepts for these extents and that selects between 1
    and 100 elements. *)
Theorem getPreviewQuery_selects_at_most_100 (dims : list Z) :
  dims <> [] ->
  Forall (fun d => 1 <= d) dims ->
  exists q sel shape,
    getPreviewQuery dims = Ok ("select=" ++ q)%string /\
    getSelectionList (SelStr q) dims = Ok sel /\
    getSelectionShape sel = Ok shape /\
    1 <= prod shape <= 100.
Proof.
  intros Hne Hd.
  assert (1 <= len dims) as Hrank by (destruct dims; [done|unfold len; cbn; lia]).
  destruct (lookup_lt_is_Some_2 dims (Z.to_nat (len dims - 1))
              ltac:(unfold len in *; lia)) as [c0 Hc0].
  pose proof (proj1 (Forall_lookup _ _) Hd _ _ Hc0) as Hc1. cbn in Hc1.
  assert (exists r0, (if 1 <? len dims then py_index dims (len dims - 2) else Ok 1)
                     = Ok r0 /\ 1 <= r0 /\
                     (forall d, dims !! Z.to_nat (len dims - 2) = Some d ->
                                1 < len dims -> r0 = d) /\
                     (len dims <= 1 -> r0 = 1)) as (r0 & Hr0 & Hr1 & Hr2 & Hr3).
  { destruct (Z.ltb_spec 1 (len dims)) as [Hbig|Hone].
    - destruct (lookup_lt_is_Some_2 dims (Z.to_nat (len dims - 2))
                  ltac:(unfold len in *; lia)) as [r0 Hr0].
      exists r0. rewrite (py_index_nonneg dims _ r0) by (done || lia).
      split; [done|]. split.
      + by pose proof (proj1 (Forall_lookup _ _) Hd _ _ Hr0).
      + split; [|lia]. intros d Hd' _. congruence.
    - exists 1. split; [done|]. split; [lia|]. split; [intros; lia|done]. }
  unfold getPreviewQuery. rewrite Hr0.
  rewrite (py_index_nonneg dims _ c0) by (done || lia).
  cbn [mbind result_bind].
  pose proof (preview_extents_bounds r0 c0 Hr1 Hc1) as Hb.
  destruct (preview_extents r0 c0) as [r c]. destruct Hb as (Hr & Hc & Hrc).
  set (stops := preview_stops 0 (length dims) (len dims) r c).
  set (zeros := replicate (length dims) 0).
  assert (valid_bounds dims zeros stops None) as Hvb.
  { rewrite <- (drop_0 dims) at 1. apply preview_stops_bounds; [done| | |done].
    - intros d Hd'. assert (d = c0) by congruence. lia.
    - intros d Hd'. destruct (Z.ltb_spec 1 (len dims)).
      + rewrite (Hr2 d Hd') in Hr by done. lia.
      + pose proof (proj1 (Forall_lookup _ _) Hd _ _ Hd') as Hd1. cbn in Hd1.
        specialize (Hr3 ltac:(lia)). lia. }
  exists (selection_expr zeros stops None), (bound_slices zeros stops None), stops.
  split; [|split; [|split]].
  - f_equal. destruct (length dims) as [|n] eqn:Hn.
    { unfold len in Hrank. lia. }
    subst stops zeros. rewrite preview_dims_join by (unfold len; lia).
    unfold selection_expr. rewrite !string_app_assoc. reflexivity.
  - apply getSelectionList_expr; [|done].
    subst zeros. destruct dims; [done|]. discriminate.
  - unfold getSelectionShape. subst zeros.
    rewrite <- (preview_stops_length 0 (length dims) (len dims) r c).
    fold stops. rewrite getSelectionShape_loop_from_zero; [done|].
    by eapply valid_bounds_stops_pos.
  - subst stops. rewrite preview_stops_prod.
    repeat case_match; nia.
Qed.

Lemma getPreviewQuery_selects_at_most_100_witness :
  exists q sel shape,
    getPreviewQuery [4; 500; 300] = Ok ("select=" ++ q)%string /\
    getSelectionList (SelStr q) [4; 500; 300] = Ok sel /\
    getSelectionShape sel = Ok shape /\
    1 <= prod shape <= 100.
Proof.
  apply (getPreviewQuery_selects_at_most_100 [4; 500; 300]).
  - discriminate.
  - repeat constructor; lia.
Defined.

(** ** Writing a selection and reading it back *)

Lemma join_snoc_comma (sep : string) (l : list string) (x : string) :
  l <> [] -> join sep (l ++ [x]) = (join sep l ++ sep ++ x)%string.
Proof.
  induction l as [|y l IH]; [done|]. intros _.
  destruct l as [|z l]; [done|].
  change ((y :: z :: l) ++ [x]) with (y :: (z :: l) ++ [x]).
  change (join sep (y :: (z :: l) ++ [x]))
    with (y ++ sep ++ join sep ((z :: l) ++ [x]))%string.
  rewrite IH by done. rewrite join_cons_cons.
  by rewrite !string_app_assoc.
Qed.

Lemma coords_param_spec (s : list Z) (n : nat) :
  forall (j : nat) (sel_param : string),
    (j + n = length s)%nat ->
    coords_param s j n (len s) sel_param
    = Ok (sel_param ++ join "," (str_of_int <$> drop j s))%string.
Proof.
  induction n as [|n IH]; intros j sel_param Hj.
  - rewrite drop_ge by lia. cbn. by rewrite string_app_nil_r.
  - destruct (lookup_lt_is_Some_2 s j ltac:(lia)) as [c Hc].
    cbn [coords_param]. rewrite Hc, IH by lia.
    rewrite (drop_S _ _ _ Hc), fmap_cons. f_equal.
    destruct (Z.ltb_spec (Z.of_nat j) (len s - 1)) as [Hlt|Hge].
    + destruct (lookup_lt_is_Some_2 s (S j) ltac:(unfold len in *; lia)) as [c' Hc'].
      rewrite (drop_S _ _ _ Hc'), fmap_cons, join_cons_cons.
      by rewrite !string_app_assoc.
    + rewrite drop_ge by (unfold len in *; lia). cbn.
      by rewrite string_app_nil_r.
Qed.

Lemma slice_param_spec (sel : list sel_entry) (n : nat) :
  forall (i : nat) (sel_param : string),
    (i + n = length sel)%nat ->
    slice_param sel i n (len sel) sel_param
    = Ok (sel_param ++ join "," (entry_text <$> drop i sel))%string.
Proof.
  induction n as [|n IH]; intros i sel_param Hi.
  - rewrite drop_ge by lia. cbn. by rewrite string_app_nil_r.
  - destruct (lookup_lt_is_Some_2 sel i ltac:(lia)) as [e He].
    cbn [slice_param]. rewrite He.
    assert ((match e with
             | Range s =>
                 if 1 <? sl_step s
                 then Ok ((sel_param ++ str_of_int (sl_start s) ++ ":" ++
                           str_of_int (sl_stop s)) ++ ":" ++ str_of_int (sl_step s))%string
                 else Ok (sel_param ++ str_of_int (sl_start s) ++ ":" ++
                          str_of_int (sl_stop s))%string
             | Coords s =>
                 coords_param s 0 (length s) (len s) (sel_param ++ "[")
                 ≫= fun sel_param => Ok (sel_param ++ "]")%string
             end) = Ok (sel_param ++ entry_text e)%string) as ->.
    { destruct e as [s|l]; cbn [entry_text].
      - unfold dim_expr. destruct (1 <? sl_step s); by rewrite ?string_app_assoc.
      - rewrite coords_param_spec by done. rewrite drop_0. cbn [mbind result_bind].
        unfold coords_text. by rewrite !string_app_assoc. }
    cbn [mbind result_bind]. rewrite IH by lia.
    rewrite (drop_S _ _ _ He), fmap_cons. f_equal.
    destruct (Z.ltb_spec (Z.of_nat i) (len sel - 1)) as [Hlt|Hge].
    + destruct (lookup_lt_is_Some_2 sel (S i) ltac:(unfold len in *; lia)) as [e' He'].
      rewrite (drop_S _ _ _ He'), fmap_cons, join_cons_cons.
      by rewrite !string_app_assoc.
    + rewrite drop_ge by (unfold len in *; lia). cbn.
      by rewrite string_app_nil_r.
Qed.

Lemma getSliceQueryParam_text (sel : list sel_entry) :
  sel <> [] ->
  getSliceQueryParam sel
  = Ok (Some ("[" ++ join "," (entry_text <$> sel) ++ "]")%string).
Proof.
  intros Hne. unfold getSliceQueryParam.
  replace (0 <? len sel) with true
    by (symmetry; apply Z.ltb_lt; destruct sel; [done|unfold len; cbn; lia]).
  rewrite slice_param_spec by done. rewrite drop_0. cbn [mbind result_bind].
  by rewrite !string_app_assoc.
Qed.

Lemma scans_dim_text (d : string) : dim_text d -> scans d.
Proof.
  intros [Hd Hne]. split; [done|]. intros rest qa dq.
  by apply scan_select_dimch.
Qed.

Lemma scan_select_in_coords (cs : list ascii) :
  forall rest query_array dim_query,
    Forall (fun c => numch c = true \/ c = ","%char) cs ->
    scan_select (cs ++ rest) query_array dim_query true
    = scan_select rest query_array (dim_query ++ cs) true.
Proof.
  induction cs as [|c cs IH]; intros rest qa dq Hcs.
  - by rewrite app_nil_r.
  - apply Forall_cons in Hcs as [Hc Hcs].
    cbn [app scan_select]. destruct Hc as [Hc| ->].
    + apply numch_facts in Hc as (_ & Hsp & Hcomma & Hopen & Hclose & Hcolon & _).
      rewrite Hsp, Hcomma, Hopen, Hclose, Hcolon.
      rewrite IH by done. by rewrite <- app_assoc.
    + change (isspace ",") with false. change (eqc "," ",") with true. cbn iota.
      rewrite IH by done. by rewrite <- app_assoc.
Qed.

Lemma join_numbers_chars (l : list Z) :
  Forall (fun c => numch c = true \/ c = ","%char)
    (chars (join "," (str_of_int <$> l))).
Proof.
  induction l as [|x l IH]; [constructor|].
  assert (Forall (fun c => numch c = true \/ c = ","%char) (chars (str_of_int x)))
    as Hx.
  { eapply Forall_impl; [apply str_of_int_numch|]. intros c Hc. by left. }
  destruct l as [|y l]; [done|].
  rewrite fmap_cons, fmap_cons, join_cons_cons, !chars_app.
  apply Forall_app. split; [done|].
  apply Forall_app. split; [|exact IH].
  change (chars ",") with [","%char]. constructor; [by right|constructor].
Qed.

Lemma coords_text_chars (l : list Z) :
  chars (coords_text l)
  = "["%char :: chars (join "," (str_of_int <$> l)) ++ ["]"%char].
Proof. unfold coords_text. by rewrite !chars_app. Qed.

Lemma scans_coords_text (l : list Z) : scans (coords_text l).
Proof.
  split; [by rewrite coords_text_chars|].
  intros rest qa dq. rewrite coords_text_chars.
  cbn [app scan_select].
  change (isspace "[") with false. change (eqc "[" ",") with false.
  change (eqc "[" "[") with true. cbn iota.
  rewrite <- app_assoc, scan_select_in_coords by apply join_numbers_chars.
  cbn [app scan_select].
  change (isspace "]") with false. change (eqc "]" ",") with false.
  change (eqc "]" "[") with false. change (eqc "]" "]") with true. cbn [negb]. cbn iota.
  f_equal. by rewrite <- !app_assoc.
Qed.

Lemma scans_entry_text (e : sel_entry) : scans (entry_text e).
Proof.
  destruct e as [s|l]; cbn [entry_text].
  - apply scans_dim_text, dim_expr_text.
  - apply scans_coords_text.
Qed.

Lemma scan_select_join_texts (ds : list string) :
  forall (d : string) (query_array : list string),
    Forall scans (d :: ds) ->
    exists query_array' dim_query,
      scan_select (chars (join "," (d :: ds))) query_array [] false
      = Ok (query_array', dim_query) /\
      dim_query <> [] /\
      query_array' ++ [of_chars dim_query] = query_array ++ d :: ds.
Proof.
  induction ds as [| d' ds IH]; intros d qa Hds.
  - apply Forall_cons in Hds as [[Hne Hd] _].
    exists qa, (chars d). cbn [join].
    rewrite <- (app_nil_r (chars d)), Hd.
    rewrite app_nil_r. cbn [app scan_select]. by rewrite of_chars_chars.
  - apply Forall_cons in Hds as [[Hne Hd] Hds].
    destruct (IH d' (qa ++ [d]) Hds) as (qa' & dq & Hscan & Hdq & Hall).
    exists qa', dq.
    rewrite join_cons_cons.
    rewrite !chars_app, Hd.
    change (chars ",") with [","%char]. cbn [app scan_select].
    change (isspace ",") with false. change (eqc "," ",") with true. cbn iota.
    destruct (chars d) as [| c cs] eqn:Hcs; [done |].
    rewrite <- Hcs, of_chars_chars, Hscan.
    split; [done |]. split; [done |]. by rewrite Hall, <- app_assoc.
Qed.

Lemma getSelectElements_texts (ds : list string) :
  ds <> [] -> Forall scans ds ->
  _getSelectElements_str ("[" ++ join "," ds ++ "]")
  = Ok (ElStr <$> ds).
Proof.
  intros Hne Hds. unfold _getSelectElements_str, strip_ends.
  rewrite !chars_app. change (chars "[") with ["["%char].
  change (chars "]") with ["]"%char]. cbn [app tail].
  rewrite removelast_last, chars_of_chars.
  destruct ds as [| d ds]; [done |].
  destruct (scan_select_join_texts ds d [] Hds) as (qa & dq & -> & Hdq & Hall).
  cbn [mbind result_bind]. destruct dq; [done |]. by rewrite Hall.
Qed.

Lemma str_of_int_no_comma (n : Z) :
  Forall (fun c => eqc c "," = false) (chars (str_of_int n)).
Proof.
  eapply Forall_impl; [apply str_of_int_numch|].
  intros c Hc. by apply numch_facts in Hc as (_ & _ & Hcomma & _).
Qed.

Lemma split_go_numbers (l : list Z) :
  forall (x : Z) (cur : list ascii),
    split_go "," (chars (join "," (str_of_int <$> x :: l))) cur
    = (cur ++ chars (str_of_int x)) :: (chars <$> (str_of_int <$> l)).
Proof.
  induction l as [|y l IH]; intros x cur.
  - cbn [fmap list_fmap join]. by rewrite split_go_last by apply str_of_int_no_comma.
  - rewrite fmap_cons, fmap_cons, join_cons_cons, !chars_app.
    change (chars ",") with [","%char]. cbn [app].
    rewrite split_go_field by apply str_of_int_no_comma.
    rewrite <- fmap_cons, IH. by rewrite !fmap_cons.
Qed.

Lemma split_numbers (l : list Z) :
  l <> [] -> split "," (join "," (str_of_int <$> l)) = str_of_int <$> l.
Proof.
  intros Hne. destruct l as [|x l]; [done|]. unfold split.
  rewrite split_go_numbers. cbn [app]. rewrite !fmap_cons, of_chars_chars.
  f_equal. rewrite <- !list_fmap_compose. apply list_fmap_ext.
  intros i s _. cbn. apply of_chars_chars.
Qed.

Lemma coords_text_read_element (extent : Z) (l : list Z) :
  l <> [] -> Forall (fun c => 0 <= c < extent) l ->
  read_element extent (ElStr (coords_text l)) = Ok (Coords l).
Proof.
  intros Hne Hl. cbn [read_element].
  assert (startswith "[" (coords_text l) = true) as ->.
  { unfold startswith. by rewrite coords_text_chars. }
  assert (strip_ends (coords_text l) = join "," (str_of_int <$> l)) as ->.
  { unfold strip_ends. rewrite coords_text_chars. cbn [tail].
    by rewrite removelast_last, of_chars_chars. }
  rewrite split_numbers by done.
  rewrite <- list_fmap_compose.
  rewrite (list_fmap_ext (py_int ∘ str_of_int) Some l)
    by (intros; cbn; apply py_int_str_of_int).
  by rewrite read_coords_in_range.
Qed.

Lemma entry_text_read_element (extent : Z) (e : sel_entry) :
  accepted extent e -> read_element extent (ElStr (entry_text e)) = Ok e.
Proof.
  destruct e as [[a b c]|l]; cbn [entry_text accepted sl_start sl_stop sl_step].
  - intros (Ha & Hb & Hc).
    rewrite dim_expr_read_element; [|lia|lia|].
    + destruct (Z.ltb_spec 1 c); cbn; [done|]. do 3 f_equal. lia.
    + intros c'. destruct (Z.ltb_spec 1 c); [|done]. intros [= <-]. lia.
  - intros [Hne Hl]. by apply coords_text_read_element.
Qed.

Lemma read_elements_texts (dims : list Z) (sel : list sel_entry) :
  Forall2 accepted dims sel ->
  forall select_list,
    read_elements dims (ElStr <$> (entry_text <$> sel)) 0 (length dims) select_list
    = Ok (select_list ++ sel).
Proof.
  induction 1 as [|extent e dims sel He _ IH]; intros select_list.
  - cbn. by rewrite app_nil_r.
  - cbn [length read_elements fmap list_fmap lookup list_lookup].
    rewrite (entry_text_read_element _ _ He). cbn [mbind result_bind].
    rewrite read_elements_shift. fold (@fmap list _ _ _ entry_text sel).
    rewrite IH. by rewrite <- app_assoc.
Qed.

(** The parser reads back the text of a selection: brackets around the
    texts of its dimensions, separated by commas. *)
Lemma getSelectionList_reads_texts (dims : list Z) (sel : list sel_entry) :
  sel <> [] ->
  Forall2 accepted dims sel ->
  getSelectionList (SelStr ("[" ++ join "," (entry_text <$> sel) ++ "]")) dims
  = Ok sel.
Proof.
  intros Hne Hacc.
  unfold getSelectionList. cbn [mbind result_bind select_is_empty].
  rewrite chars_app. change (chars "[") with ["["%char].
  cbn [app length len].
  replace (len ("["%char :: _) =? 0) with false
    by (symmetry; apply Z.eqb_neq; unfold len; cbn [length]; lia).
  rewrite getSelectElements_texts.
  - cbn [mbind result_bind]. rewrite !length_fmap.
    rewrite (Forall2_length _ _ _ Hacc), Nat.eqb_refl. cbn [negb].
    rewrite <- (Forall2_length _ _ _ Hacc). by rewrite read_elements_texts.
  - by destruct sel.
  - apply Forall_fmap, Forall_forall. intros e _. apply scans_entry_text.
Qed.

(** X15: [getSliceQueryParam] and [getSelectionList] are inverse on the
    selections a chunk accepts: the text written for a non-empty selection of
    non-empty ranges and coordinate lists inside the extents parses back to
    the same selection. *)
Theorem getSliceQueryParam_round_trip (dims : list Z) (sel : list sel_entry) :
  sel <> [] ->
  Forall2 accepted dims sel ->
  exists q,
    getSliceQueryParam sel = Ok (Some q) /\
    getSelectionList (SelStr q) dims = Ok sel.
Proof.
  intros Hne Hacc. eexists. split; [by apply getSliceQueryParam_text|].
  by apply getSelectionList_reads_texts.
Qed.

Lemma getSliceQueryParam_round_trip_witness :
  exists q,
    getSliceQueryParam [Range (Slice 2 8 3); Coords [1; 5; 19]; Range (Slice 0 4 1)]
      = Ok (Some q) /\
    getSelectionList (SelStr q) [10; 20; 4]
      = Ok [Range (Slice 2 8 3); Coords [1; 5; 19]; Range (Slice 0 4 1)].
Proof.
  apply (getSliceQueryParam_round_trip [10; 20; 4]).
  - discriminate.
  - repeat constructor; simpl; try lia; discriminate.
Defined.

(** ** getHyperslabSelection *)

Lemma hyperslab_check_ok (bad : nat -> result bool) (msg : string) (n : nat) :
  forall dim,
    hyperslab_check bad dim n msg = Ok tt ->
    forall k, (dim <= k < dim + n)%nat -> bad k = Ok false.
Proof.
  induction n as [|n IH]; intros dim H k Hk; [lia|].
  cbn in H. destruct (bad dim) as [[|]|e] eqn:Hb; try discriminate.
  destruct (decide (k = dim)) as [->|Hne]; [done|].
  apply (IH (S dim) H). lia.
Qed.

Lemma hyperslab_check_pass (bad : nat -> result bool) (msg : string) (n : nat) :
  forall dim,
    (forall k, (dim <= k < dim + n)%nat -> bad k = Ok false) ->
    hyperslab_check bad dim n msg = Ok tt.
Proof.
  induction n as [|n IH]; intros dim H; [done|].
  cbn. rewrite (H dim) by lia. apply IH. intros k Hk. apply H. lia.
Qed.

Lemma at_dim_ok (l : list Z) (dim : nat) (x : Z) :
  at_dim l dim = Ok x <-> l !! dim = Some x.
Proof. unfold at_dim. destruct (l !! dim); split; congruence. Qed.

Lemma hyperslab_slices_ok (start stop step : list Z) (n : nat) :
  forall dim slices sel,
    hyperslab_slices start stop step dim n slices = Ok sel ->
    exists rest,
      sel = slices ++ rest /\ length rest = n /\
      forall k, (k < n)%nat ->
        exists a b c,
          start !! (dim + k)%nat = Some a /\ stop !! (dim + k)%nat = Some b /\
          step !! (dim + k)%nat = Some c /\
          rest !! k = Some (Range (Slice a b c)).
Proof.
  induction n as [|n IH]; intros dim slices sel H.
  - injection H as <-. exists []. rewrite app_nil_r. split; [done|]. split; [done|].
    intros; lia.
  - cbn [hyperslab_slices] in H.
    apply result_bind_ok in H as (a & Ha & H).
    apply result_bind_ok in H as (b & Hb & H).
    apply result_bind_ok in H as (c & Hc & H).
    apply at_dim_ok in Ha, Hb, Hc.
    destruct (IH _ _ _ H) as (rest & -> & Hlen & Hrest).
    exists (Range (Slice a b c) :: rest). rewrite <- app_assoc. split; [done|].
    split; [cbn; lia|]. intros [|k] Hk.
    + rewrite Nat.add_0_r. by exists a, b, c.
    + destruct (Hrest k ltac:(lia)) as (a' & b' & c' & ? & ? & ? & ?).
      exists a', b', c'. by rewrite <- Nat.add_succ_comm.
Qed.

(** X16: For extents that are not negative, the slices
    [getHyperslabSelection] returns stay inside the dataset, one per
    dimension, whichever of start, stop and step are given. *)
Theorem getHyperslabSelection_in_bounds (dsetshape : list Z)
    (start stop step : option bval) (sel : list sel_entry) :
  Forall (fun d => 0 <= d) dsetshape ->
  getHyperslabSelection dsetshape start stop step = Ok sel ->
  Forall2 in_bounds dsetshape sel.
Proof.
  intros Hd H. unfold getHyperslabSelection in H.
  apply result_bind_ok in H as (starts & Hstart & H).
  apply result_bind_ok in H as (stops & Hstop & H).
  apply result_bind_ok in H as (steps & Hstep & H).
  apply hyperslab_slices_ok in H as (rest & -> & Hlen & Hrest). cbn [app].
  assert (forall i a d, starts !! i = Some a -> dsetshape !! i = Some d ->
            0 <= a /\ (a < d \/ a = 0)) as Ha.
  { intros i a d Hi Hdi. case_if Hstart.
    - case_if Hstart; [discriminate|].
      apply result_bind_ok in Hstart as ([] & Hchk & Hstart). injection Hstart as <-.
      pose proof (hyperslab_check_ok _ _ _ _ Hchk i
                    ltac:(apply lookup_lt_Some in Hdi; lia)) as Hk.
      cbn beta in Hk. rewrite (proj2 (at_dim_ok _ _ _) Hi) in Hk.
      rewrite (proj2 (at_dim_ok _ _ _) Hdi) in Hk. cbn in Hk.
      injection Hk as Hk. lia.
    - injection Hstart as <-. apply lookup_replicate in Hi as [-> _]. lia. }
  assert (forall i a b d, starts !! i = Some a -> stops !! i = Some b ->
            dsetshape !! i = Some d -> (a < b /\ b <= d) \/ b = d) as Hb.
  { intros i a b d Hai Hi Hdi. case_if Hstop.
    - case_if Hstop; [discriminate|].
      apply result_bind_ok in Hstop as ([] & Hchk & Hstop). injection Hstop as <-.
      pose proof (hyperslab_check_ok _ _ _ _ Hchk i
                    ltac:(apply lookup_lt_Some in Hdi; lia)) as Hk.
      cbn beta in Hk. rewrite (proj2 (at_dim_ok _ _ _) Hi) in Hk.
      rewrite (proj2 (at_dim_ok _ _ _) Hai) in Hk.
      rewrite (proj2 (at_dim_ok _ _ _) Hdi) in Hk. cbn in Hk.
      injection Hk as Hk. lia.
    - injection Hstop as <-. right. congruence. }
  assert (forall i c d, steps !! i = Some c -> dsetshape !! i = Some d -> 1 <= c) as Hc.
  { intros i c d Hi Hdi. case_if Hstep.
    - case_if Hstep; [discriminate|].
      apply result_bind_ok in Hstep as ([] & Hchk & Hstep). injection Hstep as <-.
      pose proof (hyperslab_check_ok _ _ _ _ Hchk i
                    ltac:(apply lookup_lt_Some in Hdi; lia)) as Hk.
      cbn beta in Hk. rewrite (proj2 (at_dim_ok _ _ _) Hi) in Hk.
      rewrite (proj2 (at_dim_ok _ _ _) Hdi) in Hk. cbn in Hk.
      injection Hk as Hk. lia.
    - injection Hstep as <-. apply lookup_replicate in Hi as [-> _]. lia. }
  apply Forall2_same_length_lookup_2; [done|].
  intros i d e Hdi Hei.
  destruct (Hrest i ltac:(apply lookup_lt_Some in Hei; lia))
    as (a & b & c & Hai & Hbi & Hci & Hri).
  cbn in Hai, Hbi, Hci. assert (e = Range (Slice a b c)) as -> by congruence.
  pose proof (proj1 (Forall_lookup _ _) Hd _ _ Hdi) as Hd0. cbn in Hd0.
  specialize (Ha _ _ _ Hai Hdi). specialize (Hb _ _ _ _ Hai Hbi Hdi).
  specialize (Hc _ _ _ Hci Hdi). cbn. lia.
Qed.

Lemma getHyperslabSelection_in_bounds_witness :
  Forall (fun d => 0 <= d) [10; 20] /\
  Forall2 in_bounds [10; 20] [Range (Slice 2 10 1); Range (Slice 4 20 1)].
Proof.
  assert (Forall (fun d => 0 <= d) [10; 20]) as Hd by (repeat constructor; lia).
  split; [exact Hd|].
  apply (getHyperslabSelection_in_bounds [10; 20] (Some (BList [2; 4])) None None _ Hd).
  vm_compute. reflexivity.
Defined.

Lemma valid_bounds_lookup (dims : list Z) :
  forall starts stops steps,
    valid_bounds dims starts stops steps ->
    forall i d a b,
      dims !! i = Some d -> starts !! i = Some a -> stops !! i = Some b ->
      0 <= a < d /\ a < b <= d /\
      (forall st c, steps = Some st -> st !! i = Some c -> 1 <= c).
Proof.
  induction dims as [|d0 dims IH]; intros [|a0 starts] [|b0 stops] steps Hv i d a b;
    try done.
  cbn [valid_bounds] in Hv. destruct Hv as (Ha0 & Hb0 & Hv).
  destruct i as [|i]; cbn.
  - intros [= <-] [= <-] [= <-]. split; [done|]. split; [done|].
    intros st c -> Hc. destruct st as [|c0 st]; [done|].
    injection Hc as <-. by destruct Hv.
  - intros Hd Ha Hb. destruct steps as [[|c0 st]|]; [done| |].
    + destruct Hv as [_ Hv].
      destruct (IH _ _ _ Hv i d a b Hd Ha Hb) as (? & ? & Hc).
      split; [done|]. split; [done|].
      intros st' c [= <-] Hc'. by apply (Hc st c).
    + destruct (IH _ _ _ Hv i d a b Hd Ha Hb) as (? & ? & Hc).
      split; [done|]. split; [done|]. intros st' c [=].
Qed.

Lemma bound_slices_lookup (starts : list Z) :
  forall stops steps i a b,
    starts !! i = Some a -> stops !! i = Some b ->
    (forall st, steps = Some st -> length st = length starts) ->
    bound_slices starts stops steps !! i
    = Some (Range (Slice a b (default 1 (steps ≫= (.!! i))))).
Proof.
  induction starts as [|a0 starts IH]; intros [|b0 stops] steps i a b Ha Hb Hlen;
    try done.
  destruct steps as [[|c0 st]|]; cbn [bound_slices].
  - by specialize (Hlen [] eq_refl).
  - destruct i as [|i]; [cbn in *; congruence|].
    refine (IH stops (Some st) i a b Ha Hb _).
    intros st' [= <-]. specialize (Hlen _ eq_refl). cbn in Hlen. lia.
  - destruct i as [|i]; [cbn in *; congruence|].
    by refine (IH stops None i a b Ha Hb _).
Qed.

Lemma bound_slices_length (starts : list Z) :
  forall stops steps,
    length stops = length starts ->
    (forall st, steps = Some st -> length st = length starts) ->
    length (bound_slices starts stops steps) = length starts.
Proof.
  induction starts as [|a0 starts IH]; intros [|b0 stops] steps Hl Hlen; try done.
  destruct steps as [[|c0 st]|]; cbn [bound_slices length].
  - by specialize (Hlen [] eq_refl).
  - rewrite IH; [done|cbn in Hl; lia|].
    intros st' [= <-]. specialize (Hlen _ eq_refl). cbn in Hlen. lia.
  - rewrite IH; [done|cbn in Hl; lia|done].
Qed.

Lemma hyperslab_slices_total (start stop step : list Z) (n : nat) :
  forall dim slices,
    (dim + n <= length start)%nat -> (dim + n <= length stop)%nat ->
    (dim + n <= length step)%nat ->
    exists sel, hyperslab_slices start stop step dim n slices = Ok sel.
Proof.
  induction n as [|n IH]; intros dim slices H1 H2 H3; [by eexists|].
  cbn [hyperslab_slices].
  destruct (lookup_lt_is_Some_2 start dim ltac:(lia)) as [a Ha].
  destruct (lookup_lt_is_Some_2 stop dim ltac:(lia)) as [b Hb].
  destruct (lookup_lt_is_Some_2 step dim ltac:(lia)) as [c Hc].
  rewrite (proj2 (at_dim_ok _ _ _) Ha), (proj2 (at_dim_ok _ _ _) Hb),
    (proj2 (at_dim_ok _ _ _) Hc). cbn [mbind result_bind].
  apply IH; lia.
Qed.

Lemma hyperslab_slices_bounds (starts stops : list Z) (steps : option (list Z))
    (steps' : list Z) (n : nat) :
  length starts = n -> length stops = n -> length steps' = n ->
  (forall st, steps = Some st -> length st = length starts) ->
  (forall i c, steps' !! i = Some c -> default 1 (steps ≫= (.!! i)) = c) ->
  hyperslab_slices starts stops steps' 0 n [] = Ok (bound_slices starts stops steps).
Proof.
  intros H1 H2 H3 Hlst Hdef.
  destruct (hyperslab_slices_total starts stops steps' n 0 [])
    as [sel Hsel]; [lia..|].
  rewrite Hsel. f_equal.
  apply hyperslab_slices_ok in Hsel as (rest & -> & Hlen & Hrest). cbn [app].
  apply list_eq_same_length with n.
  - rewrite bound_slices_length; [lia|lia|done].
  - done.
  - intros i x y Hi Hx Hy.
    destruct (Hrest i Hi) as (a & b & c & Ha & Hb & Hc & Hr). cbn in Ha, Hb, Hc.
    rewrite (bound_slices_lookup starts stops steps i a b Ha Hb Hlst) in Hy.
    rewrite (Hdef _ _ Hc) in Hy. congruence.
Qed.

(** X17: For bounds the parser accepts and strides within the extents,
    [getHyperslabSelection] on the lists of starts, stops and steps returns
    what [getSelectionList] returns on the selection string with the same
    bounds. *)
Theorem getHyperslabSelection_agrees_with_parser
    (dims starts stops : list Z) (steps : option (list Z)) :
  starts <> [] ->
  valid_bounds dims starts stops steps ->
  (forall st, steps = Some st -> Forall2 (fun c d => c <= d) st dims) ->
  getHyperslabSelection dims (Some (BList starts)) (Some (BList stops))
    (BList <$> steps)
  = getSelectionList (SelStr (selection_expr starts stops steps)) dims.
Proof.
  intros Hne Hv Hst.
  rewrite getSelectionList_expr by done.
  destruct (valid_bounds_length _ _ _ _ Hv) as (Hld & Hls & Hlst).
  pose proof (valid_bounds_lookup _ _ _ _ Hv) as Hvl.
  assert (length starts <> 0%nat) as Hn0 by (by destruct starts).
  unfold getHyperslabSelection.
  assert (forall l : list Z, length l = length starts ->
            bval_truthy (Some (BList l)) = true) as Htr.
  { intros l Hl. cbn. apply negb_true_iff, Z.eqb_neq. unfold len. lia. }
  rewrite (Htr starts), (Htr stops) by done.
  cbn [default from_option listify id].
  rewrite Hld, Hls, !Nat.eqb_refl. cbn [negb].
  assert (hyperslab_check
            (fun dim => at_dim starts dim ≫= fun a =>
                        at_dim dims dim ≫= fun d => Ok ((a <? 0) || (d <=? a)))
            0 (length starts) "Bad Request: start index invalid for dim: "
          = Ok tt) as ->.
  { apply hyperslab_check_pass. intros k Hk. cbn beta.
    destruct (lookup_lt_is_Some_2 starts k ltac:(lia)) as [a Ha].
    destruct (lookup_lt_is_Some_2 stops k ltac:(lia)) as [b Hb].
    destruct (lookup_lt_is_Some_2 dims k ltac:(lia)) as [d Hd].
    rewrite (proj2 (at_dim_ok _ _ _) Ha), (proj2 (at_dim_ok _ _ _) Hd).
    cbn [mbind result_bind]. do 2 f_equal.
    destruct (Hvl _ _ _ _ Hd Ha Hb) as (? & ? & _).
    apply orb_false_iff. split; [apply Z.ltb_ge|apply Z.leb_gt]; lia. }
  cbn [mbind result_bind].
  assert (hyperslab_check
            (fun dim => at_dim stops dim ≫= fun b =>
                        at_dim starts dim ≫= fun a =>
                        at_dim dims dim ≫= fun d => Ok ((b <=? a) || (d <? b)))
            0 (length starts) "Bad Request: stop index invalid for dim: "
          = Ok tt) as ->.
  { apply hyperslab_check_pass. intros k Hk. cbn beta.
    destruct (lookup_lt_is_Some_2 starts k ltac:(lia)) as [a Ha].
    destruct (lookup_lt_is_Some_2 stops k ltac:(lia)) as [b Hb].
    destruct (lookup_lt_is_Some_2 dims k ltac:(lia)) as [d Hd].
    rewrite (proj2 (at_dim_ok _ _ _) Ha), (proj2 (at_dim_ok _ _ _) Hd),
      (proj2 (at_dim_ok _ _ _) Hb).
    cbn [mbind result_bind]. do 2 f_equal.
    destruct (Hvl _ _ _ _ Hd Ha Hb) as (? & ? & _).
    apply orb_false_iff. split; [apply Z.leb_gt|apply Z.ltb_ge]; lia. }
  cbn [mbind result_bind].
  destruct steps as [st|]; cbn [fmap option_fmap option_map].
  - specialize (Hlst st eq_refl) as Hl. rewrite (Htr st) by done.
    cbn [default from_option listify id].
    rewrite Hl, Nat.eqb_refl. cbn [negb].
    assert (hyperslab_check
              (fun dim => at_dim st dim ≫= fun c =>
                          at_dim dims dim ≫= fun d => Ok ((c <=? 0) || (d <? c)))
              0 (length starts) "Bad Request: step index invalid for dim: "
            = Ok tt) as ->.
    { apply hyperslab_check_pass. intros k Hk. cbn beta.
      destruct (lookup_lt_is_Some_2 starts k ltac:(lia)) as [a Ha].
      destruct (lookup_lt_is_Some_2 stops k ltac:(lia)) as [b Hb].
      destruct (lookup_lt_is_Some_2 dims k ltac:(lia)) as [d Hd].
      destruct (lookup_lt_is_Some_2 st k ltac:(lia)) as [c Hc].
      rewrite (proj2 (at_dim_ok _ _ _) Hc), (proj2 (at_dim_ok _ _ _) Hd).
      cbn [mbind result_bind]. do 2 f_equal.
      destruct (Hvl _ _ _ _ Hd Ha Hb) as (_ & _ & Hc1).
      specialize (Hc1 st c eq_refl Hc).
      pose proof (Forall2_lookup_lr _ _ _ _ _ _ (Hst st eq_refl) Hc Hd) as Hcd.
      cbn beta in Hcd.
      apply orb_false_iff. split; [apply Z.leb_gt|apply Z.ltb_ge]; lia. }
    cbn [mbind result_bind].
    apply hyperslab_slices_bounds; try done.
    intros i c Hc. cbn. by rewrite Hc.
  - cbn [bval_truthy mbind result_bind].
    apply hyperslab_slices_bounds; try done.
    + by rewrite length_replicate.
    + intros i c Hc. cbn. by apply lookup_replicate in Hc as [-> _].
Qed.

Lemma getHyperslabSelection_agrees_with_parser_witness :
  getHyperslabSelection [10; 20] (Some (BList [2; 4])) (Some (BList [8; 20]))
    (BList <$> Some [3; 1])
  = getSelectionList (SelStr (selection_expr [2; 4] [8; 20] (Some [3; 1]))) [10; 20].
Proof.
  apply (getHyperslabSelection_agrees_with_parser [10; 20] [2; 4] [8; 20] (Some [3; 1])).
  - discriminate.
  - simpl. repeat split; try lia. by right.
  - intros st [= <-]. repeat constructor; lia.
Defined.

(** ** Filter table, extensibility, shapes *)

(** X13: Every row of [FILTER_DEFS] is what [getFilterItem] returns for
    its class, for its id and for its name: no row hides another. *)
Theorem getFilterItem_by_any_key (cls : string) (id : Z) (name : string) :
  (cls, id, name) ∈ FILTER_DEFS ->
  getFilterItem (FStr cls) = Some (cls, id, name) /\
  getFilterItem (FInt id) = Some (cls, id, name) /\
  getFilterItem (FStr name) = Some (cls, id, name).
Proof.
  intros Hin. unfold FILTER_DEFS in Hin.
  repeat (apply elem_of_cons in Hin as [[= -> -> ->]|Hin];
          [repeat split; vm_compute; reflexivity|]).
  by apply elem_of_nil in Hin.
Qed.

Lemma getFilterItem_by_any_key_witness :
  getFilterItem (FStr "H5Z_FILTER_LZ4") = Some ("H5Z_FILTER_LZ4"%string, 32004, "lz4"%string) /\
  getFilterItem (FInt 32004) = Some ("H5Z_FILTER_LZ4"%string, 32004, "lz4"%string) /\
  getFilterItem (FStr "lz4") = Some ("H5Z_FILTER_LZ4"%string, 32004, "lz4"%string).
Proof.
  apply (getFilterItem_by_any_key "H5Z_FILTER_LZ4" 32004 "lz4").
  unfold FILTER_DEFS. do 10 apply list_elem_of_further. apply list_elem_of_here.
Defined.

Lemma isExtensible_loop_spec (dims : list Z) (maxdims : list maxdim) (k : nat) :
  Forall maxdim_wf maxdims ->
  forall n,
    (n + k = length dims)%nat -> length maxdims = length dims ->
    exists b,
      isExtensible_loop dims maxdims n k = Ok b /\
      (b = true <->
       exists i m d, (n <= i)%nat /\ maxdims !! i = Some m /\ dims !! i = Some d /\
                     can_grow m d).
Proof.
  intros Hwf. induction k as [|k IH]; intros n Hn Hlen.
  - exists false. split; [done|]. split; [done|].
    intros (i & m & d & Hi & _ & Hd & _). apply lookup_lt_Some in Hd. lia.
  - destruct (lookup_lt_is_Some_2 maxdims n ltac:(lia)) as [m Hm].
    destruct (lookup_lt_is_Some_2 dims n ltac:(lia)) as [d Hd].
    cbn [isExtensible_loop]. rewrite Hm, Hd.
    pose proof (proj1 (Forall_lookup _ _) Hwf _ _ Hm) as Hm_wf.
    assert (exists b, maxdim_extends m d = Ok b /\ (b = true <-> can_grow m d))
      as (b & -> & Hb).
    { destruct m as [x|s]; cbn in *.
      - eexists. split; [done|]. rewrite orb_true_iff, Z.eqb_eq, Z.ltb_lt. done.
      - subst s. exists true. by split. }
    destruct b.
    + exists true. split; [done|]. split; [|done]. intros _.
      exists n, m, d. repeat split; try done. by apply Hb.
    + destruct (IH (S n) ltac:(lia) Hlen) as (b' & Hb' & Hiff).
      exists b'. split; [done|]. rewrite Hiff. split.
      * intros (i & m' & d' & Hi & ?). exists i, m', d'. split; [lia|done].
      * intros (i & m' & d' & Hi & Hm' & Hd' & Hg).
        destruct (decide (i = n)) as [->|Hne].
        { assert (m' = m) as -> by congruence. assert (d' = d) as -> by congruence.
          apply Hb in Hg. discriminate. }
        exists i, m', d'. split; [lia|done].
Qed.

(** X18: For [maxdims] of the dataset's rank holding integers and
    [H5S_UNLIMITED], [isExtensible] returns, and returns [True] exactly when
    some dimension has a maximum that is 0, unlimited or above its extent. *)
Theorem isExtensible_iff (dims : list Z) (maxdims : list maxdim) :
  length maxdims = length dims ->
  Forall maxdim_wf maxdims ->
  exists b,
    isExtensible dims (Some maxdims) = Ok b /\
    (b = true <->
     exists i m d, maxdims !! i = Some m /\ dims !! i = Some d /\ can_grow m d).
Proof.
  intros Hlen Hwf. unfold isExtensible.
  destruct (Z.eqb_spec (len dims) 0) as [H0|Hn0].
  - exists false. split; [done|]. split; [done|].
    intros (i & m & d & _ & Hd & _). apply lookup_lt_Some in Hd.
    unfold len in H0. lia.
  - rewrite Hlen, Nat.eqb_refl. cbn [negb].
    destruct (isExtensible_loop_spec dims maxdims (length dims) Hwf 0 ltac:(lia) Hlen)
      as (b & Hb & Hiff).
    exists b. split; [done|]. rewrite Hiff. split.
    + intros (i & m & d & _ & ?). by exists i, m, d.
    + intros (i & m & d & ?). exists i, m, d. split; [lia|done].
Qed.

Lemma isExtensible_iff_witness :
  exists b,
    isExtensible [10; 20] (Some [MaxInt 10; MaxStr "H5S_UNLIMITED"]) = Ok b /\
    (b = true <->
     exists i m d, [MaxInt 10; MaxStr "H5S_UNLIMITED"] !! i = Some m /\
                   [10; 20] !! i = Some d /\ can_grow m d).
Proof.
  apply (isExtensible_iff [10; 20] [MaxInt 10; MaxStr "H5S_UNLIMITED"]).
  - reflexivity.
  - repeat constructor.
Defined.

(** X19: On a shape [getShapeDims] accepts, [getDsetRank], [isNullSpace]
    and [isScalarSpace] return and agree with it: the space is null exactly
    when there are no dims, the rank is 0 exactly for a null or scalar space,
    and otherwise the rank is the number of dims. *)
Theorem shape_queries_agree (d : dset_json) (r : option (list Z)) :
  getShapeDims (dj_shape d) = Ok r ->
  exists rank null scalar,
    getDsetRank d = Ok rank /\
    isNullSpace d = Ok null /\
    isScalarSpace d = Ok scalar /\
    (null = true <-> r = None) /\
    (rank = 0 <-> null || scalar = true) /\
    (null || scalar = false -> exists dims, r = Some dims /\ len dims = rank).
Proof.
  unfold getShapeDims, getDsetRank, isNullSpace, isScalarSpace, shape_class_of.
  destruct (shape_class (dj_shape d)) as [c|]; [|discriminate].
  cbn [mbind result_bind].
  destruct (String.eqb c "H5S_NULL") eqn:Hnull.
  { intros [= <-]. exists 0, true, false. repeat split; try done. }
  destruct (String.eqb c "H5S_SCALAR") eqn:Hscalar.
  { intros [= <-]. exists 0, false, true. repeat split; try done. }
  destruct (String.eqb c "H5S_SIMPLE"); [|discriminate].
  destruct (shape_dims (dj_shape d)) as [dims|]; [|discriminate].
  intros [= <-]. exists (len dims), false, (len dims =? 0).
  repeat split; try done.
  - cbn. by apply Z.eqb_eq.
  - cbn. by intros ?%Z.eqb_eq.
  - intros _. by exists dims.
Qed.

Lemma shape_queries_agree_witness :
  exists rank null scalar,
    getDsetRank sample_dset = Ok rank /\
    isNullSpace sample_dset = Ok null /\
    isScalarSpace sample_dset = Ok scalar /\
    (null = true <-> Some [100] = None) /\
    (rank = 0 <-> null || scalar = true) /\
    (null || scalar = false -> exists dims, Some [100] = Some dims /\ len dims = rank).
Proof.
  apply (shape_queries_agree sample_dset (Some [100])). reflexivity.
Defined.

(** ** DELETE_Chunk *)

(** X20: Once [DELETE_Chunk] has accepted the request, the chunk is out of
    the chunk cache and its dataset out of the filter map, whatever the object
    store then answers, also when it fails; other chunks and datasets are left
    as they were. *)
Theorem DELETE_Chunk_forgets_the_chunk (S : Stor) (st : app_state) (req : request)
    (chunk_id bucket : string) :
  DELETE_Chunk_params S req = Ok (chunk_id, bucket) ->
  let st' := del_state (DELETE_Chunk S st req) in
  (chunk_id ∉ st_chunk_cache st') /\
  st_filter_map st' !! stor_getDatasetId S chunk_id = None /\
  (forall c, c <> chunk_id -> (c ∈ st_chunk_cache st') <-> (c ∈ st_chunk_cache st)) /\
  (forall id, id <> stor_getDatasetId S chunk_id ->
              st_filter_map st' !! id = st_filter_map st !! id).
Proof.
  intros Hp st'. subst st'. unfold DELETE_Chunk. rewrite Hp.
  set (cache' := if bool_decide (chunk_id ∈ st_chunk_cache st)
                 then st_chunk_cache st ∖ {[chunk_id]} else st_chunk_cache st).
  set (fm' := if bool_decide (is_Some (st_filter_map st !! stor_getDatasetId S chunk_id))
              then delete (stor_getDatasetId S chunk_id) (st_filter_map st)
              else st_filter_map st).
  assert (del_state
            match isStorObj S (stor_getS3Key S chunk_id) bucket with
            | Ok true =>
                match deleteStorObj S (stor_getS3Key S chunk_id) bucket with
                | Ok _ =>
                    {| del_events := [EvIsStorObj (stor_getS3Key S chunk_id) bucket;
                                      EvDeleteStorObj (stor_getS3Key S chunk_id) bucket];
                       del_outcome := Ok (JsonResponse 200);
                       del_state := {| st_chunk_cache := cache'; st_filter_map := fm' |} |}
                | Raise e =>
                    {| del_events := [EvIsStorObj (stor_getS3Key S chunk_id) bucket;
                                      EvDeleteStorObj (stor_getS3Key S chunk_id) bucket];
                       del_outcome := Raise e;
                       del_state := {| st_chunk_cache := cache'; st_filter_map := fm' |} |}
                end
            | Ok false =>
                {| del_events := [EvIsStorObj (stor_getS3Key S chunk_id) bucket];
                   del_outcome := Ok (JsonResponse 200);
                   del_state := {| st_chunk_cache := cache'; st_filter_map := fm' |} |}
            | Raise e =>
                {| del_events := [EvIsStorObj (stor_getS3Key S chunk_id) bucket];
                   del_outcome := Raise e;
                   del_state := {| st_chunk_cache := cache'; st_filter_map := fm' |} |}
            end = {| st_chunk_cache := cache'; st_filter_map := fm' |}) as ->.
  { destruct (isStorObj S _ bucket) as [[|]|e]; [|done|done].
    by destruct (deleteStorObj S _ bucket). }
  cbn [st_chunk_cache st_filter_map]. subst cache' fm'.
  split; [|split; [|split]].
  - case_bool_decide as Hin; [|done].
    rewrite elem_of_difference, elem_of_singleton. by intros [_ []].
  - case_bool_decide as Hs; [by rewrite lookup_delete_eq|].
    by apply eq_None_not_Some.
  - intros c Hne. case_bool_decide; [|done].
    rewrite elem_of_difference, elem_of_singleton.
    split; [by intros [? _]|by intros Hc].
  - intros id Hne. case_bool_decide; [by rewrite lookup_delete_ne|done].
Qed.

Lemma DELETE_Chunk_forgets_the_chunk_witness :
  let st' := del_state (DELETE_Chunk sample_stor sample_state sample_delete) in
  ("c-0001"%string ∉ st_chunk_cache st') /\
  st_filter_map st' !! stor_getDatasetId sample_stor "c-0001" = None /\
  (forall c, c <> "c-0001"%string ->
             (c ∈ st_chunk_cache st') <-> (c ∈ st_chunk_cache sample_state)) /\
  (forall id, id <> stor_getDatasetId sample_stor "c-0001" ->
              st_filter_map st' !! id = st_filter_map sample_state !! id).
Proof.
  apply (DELETE_Chunk_forgets_the_chunk sample_stor sample_state sample_delete
           "c-0001" "b").
  reflexivity.
Defined.

(** X21: A [DELETE_Chunk] request without the [bucket] parameter changes
    nothing and calls nothing; past the checks of the chunk id it ends in
    [UnboundLocalError], not in a bad-request answer, since the local [bucket]
    is read without having been assigned. *)
Theorem DELETE_Chunk_without_bucket (S : Stor) (st : app_state) (req : request) :
  rq_params req !! "bucket"%string = None ->
  let run := DELETE_Chunk S st req in
  del_events run = [] /\ del_state run = st /\
  (del_outcome run = Raise (HTTPBadRequest "Missing chunk id") \/
   del_outcome run = Raise (HTTPBadRequest "Invalid chunk id") \/
   del_outcome run = Raise UnboundLocalError).
Proof.
  intros Hb run. subst run. unfold DELETE_Chunk.
  assert (DELETE_Chunk_params S req = Raise (HTTPBadRequest "Missing chunk id") \/
          DELETE_Chunk_params S req = Raise (HTTPBadRequest "Invalid chunk id") \/
          DELETE_Chunk_params S req = Raise UnboundLocalError) as Hp.
  { unfold DELETE_Chunk_params. rewrite Hb.
    destruct (rq_id req) as [c|]; [|by left].
    destruct (str_truthy c); [|by left]. cbn [mbind result_bind].
    destruct (stor_isValidUuid S c); cbn [negb]; [|by right; left].
    by right; right. }
  destruct Hp as [-> | [-> | ->]]; cbn; eauto.
Qed.

Lemma DELETE_Chunk_without_bucket_witness :
  let run := DELETE_Chunk sample_stor sample_state
               {| rq_params := ∅; rq_id := Some "c-0001"%string; rq_has_body := false;
                  rq_content_length := Some 0; rq_content_type := ""%string;
                  rq_bytes := []; rq_json := Raise (ValueError "") |} in
  del_events run = [] /\ del_state run = sample_state /\
  (del_outcome run = Raise (HTTPBadRequest "Missing chunk id") \/
   del_outcome run = Raise (HTTPBadRequest "Invalid chunk id") \/
   del_outcome run = Raise UnboundLocalError).
Proof.
  apply (DELETE_Chunk_without_bucket sample_stor sample_state). reflexivity.
Defined.

(** X22: [DELETE_Chunk] calls [deleteStorObj] only for a key
    [isStorObj] has just answered [True] for; when it returns, the answer is
    200 and the store has been asked about the chunk's key. *)
Theorem DELETE_Chunk_deletes_what_exists (S : Stor) (st : app_state) (req : request) :
  let run := DELETE_Chunk S st req in
  (forall key bucket,
      EvDeleteStorObj key bucket ∈ del_events run ->
      isStorObj S key bucket = Ok true /\
      del_events run = [EvIsStorObj key bucket; EvDeleteStorObj key bucket]) /\
  (forall r, del_outcome run = Ok r ->
      r = JsonResponse 200 /\
      exists chunk_id bucket,
        DELETE_Chunk_params S req = Ok (chunk_id, bucket) /\
        EvIsStorObj (stor_getS3Key S chunk_id) bucket ∈ del_events run).
Proof.
  intros run. subst run. unfold DELETE_Chunk.
  destruct (DELETE_Chunk_params S req) as [[chunk_id bucket]|e].
  2:{ split; [intros ?? Hin; by apply elem_of_nil in Hin|]. intros r [=]. }
  destruct (isStorObj S (stor_getS3Key S chunk_id) bucket) as [[|]|e] eqn:His.
  - destruct (deleteStorObj S (stor_getS3Key S chunk_id) bucket) as [[]|e]; cbn.
    + split.
      * intros key b Hin.
        apply elem_of_cons in Hin as [[=]|Hin].
        apply list_elem_of_singleton in Hin. injection Hin as -> ->. done.
      * intros r [= <-]. split; [done|]. exists chunk_id, bucket.
        split; [done|]. apply list_elem_of_here.
    + split.
      * intros key b Hin.
        apply elem_of_cons in Hin as [[=]|Hin].
        apply list_elem_of_singleton in Hin. injection Hin as -> ->. done.
      * intros r [=].
  - cbn. split.
    + intros key b Hin. apply list_elem_of_singleton in Hin. discriminate.
    + intros r [= <-]. split; [done|]. exists chunk_id, bucket.
      split; [done|]. apply list_elem_of_here.
  - cbn. split.
    + intros key b Hin. apply list_elem_of_singleton in Hin. discriminate.
    + intros r [=].
Qed.

(** ** What the answer of PUT_Chunk tells *)

Lemma bind_ok {A B : Type} (m : M A) (f : A -> M B) (b : B) :
  outcome (m ≫= f) = Ok b ->
  exists a, outcome m = Ok a /\ outcome (f a) = Ok b /\
            trace (m ≫= f) = trace m ++ trace (f a).
Proof.
  rewrite outcome_bind, trace_bind. destruct (outcome m) as [a|e]; [|discriminate].
  intros H. by exists a.
Qed.

(** One step along a run that ends well: the first statement returned [x],
    the rest ends well, and the trace is the two traces in a row. *)
Ltac ok_step H x Hx :=
  let Ht := fresh "Ht" in
  apply bind_ok in H as (x & Hx & H & Ht);
  rewrite Ht; clear Ht; cbn [lift call raise mret M_ret trace outcome app] in Hx |- *.

(** A test that raises cannot have fired. *)
Ltac ok_test H :=
  match type of H with
  | outcome (if ?c then _ else _) = Ok _ =>
      destruct c eqn:?; [ by cbn in H | ]
  end.




(** ** GET_Chunk reads *)


(** The event comes from a statement that makes no call, or one call that
    neither changes nor persists a chunk. *)
Ltac quiet_event H :=
  solve [ try unfold opt_param in H; cbn in H;
          repeat (match type of H with
                  | context [match ?x with _ => _ end] => destruct x
                  end; cbn in H);
          solve [ by apply elem_of_nil in H
                | apply list_elem_of_singleton in H; subst;
                  split; [ done | by intros ? [=] ] ] ].

Ltac quiet_step H x Hx :=
  apply elem_of_trace_bind in H as [H | (x & Hx & H)];
  [ quiet_event H | cbn in Hx ].

(** X27: [GET_Chunk] never calls a kernel that changes a chunk, and it
    calls [save_chunk] only for the requested chunk of a dataset that has an
    initializer. *)
Theorem GET_Chunk_never_changes_a_chunk {arr : Type} (E : Env arr)
    (req : request) (ev : event) :
  ev ∈ trace (GET_Chunk E req) ->
  changes_chunk ev = false /\
  (forall c, ev = EvSaveChunk c ->
     exists bucket d,
       rq_id req = Some c /\
       get_metadata_obj E (getDatasetId E c) bucket = Ok d /\
       opt_truthy (getChunkInitializer d) = true).
Proof.
  intros H. unfold GET_Chunk in H. cbv zeta in H.
  quiet_step H chunk_id Hid.
  assert (rq_id req = Some chunk_id) as Hrq.
  { destruct (rq_id req) as [c |]; [| done].
    destruct (str_truthy c); [| done]. by injection Hid as ->. }
  skip_test H. skip_test H.
  quiet_step H bucket Hbucket.
  quiet_step H s3offset Hoff.
  quiet_step H s3size Hsize.
  quiet_step H hyper_dims Hhd.
  quiet_step H limit Hlimit.
  apply elem_of_trace_bind in H as [H | (u & Hu & H)].
  { destruct (opt_truthy (rq_params req !! "s3path"%string)).
    - apply elem_of_trace_bind in H as [H | (num_bytes & Hn & H)];
        quiet_event H.
    - quiet_event H. }
  quiet_step H d Hd.
  quiet_step H sdims Hshape.
  quiet_step H dims Hdims.
  quiet_step H selection Hsel.
  quiet_step H chunk_arr Harr.
  destruct chunk_arr as [chunk_arr|]; [|quiet_event H].
  apply elem_of_trace_bind in H as [H | (u1 & Hu1 & H)].
  { destruct (opt_truthy (getChunkInitializer d)) eqn:Hinit; [|quiet_event H].
    cbn in H. apply list_elem_of_singleton in H. subst ev. split; [done|].
    intros c [= <-]. by exists bucket, d. }
  apply elem_of_trace_bind in H as [H | (select_dt & Hsdt & H)].
  { destruct (list_truthy _); [|quiet_event H].
    destruct (getSubType E _ _) as [|[]]; quiet_event H. }
  apply elem_of_trace_bind in H as [H | (output_arr & Hout & H)].
  { destruct (rq_params req !! "query"%string) as [query|]; [|quiet_event H].
    destruct (str_truthy query); [|quiet_event H].
    apply elem_of_trace_bind in H as [H | (u2 & Hu2 & H)]; [quiet_event H|].
    apply elem_of_trace_bind in H as [H | (o & Ho & H)]; quiet_event H. }
  quiet_step H u3 Hu3.
  quiet_event H.
Qed.

Lemma GET_Chunk_never_changes_a_chunk_witness :
  changes_chunk (EvSaveChunk "c-0001_0") = false /\
  (forall c, EvSaveChunk "c-0001_0" = EvSaveChunk c ->
     exists bucket d,
       rq_id sample_put = Some c /\
       get_metadata_obj (sample_env ∅ 100000)
         (getDatasetId (sample_env ∅ 100000) c) bucket = Ok d /\
       opt_truthy (getChunkInitializer d) = true).
Proof.
  apply (GET_Chunk_never_changes_a_chunk (sample_env ∅ 100000) sample_put).
  vm_compute. do 2 apply list_elem_of_further. apply list_elem_of_here.
Defined.

(** ** POST_Chunk writes points *)

Lemma opt_param_trace {A : Type} (o : option string) (f : string -> option A) :
  trace (opt_param o f) = [].
Proof. unfold opt_param. destruct o as [s|]; [|done]. by destruct (f s). Qed.

(** X28: A [POST_Chunk] request with [action=put] that succeeds is a
    binary request; it has fetched the chunk with [chunk_init] on, written the
    points once and then called [save_chunk], and its answer is 200. *)
Theorem POST_Chunk_put_points_persists {arr : Type} (E : Env arr)
    (req : request) (r : response) :
  rq_params req !! "action"%string = Some "put"%string ->
  outcome (POST_Chunk E req) = Ok r ->
  r = JsonResponse 200 /\
  rq_content_type req = "binary"%string /\
  exists chunk_id,
    rq_id req = Some chunk_id /\
    trace (POST_Chunk E req)
    = [EvGetMetadata (getDatasetId E chunk_id); EvReadBody;
       EvGetChunk chunk_id true; EvChunkWritePoints; EvSaveChunk chunk_id;
       EvRespond].
Proof.
  intros Hput H. unfold POST_Chunk in *. rewrite Hput in *.
  change (String.eqb "put" "put") with true in *. cbv zeta in *.
  ok_step H num_points Hn.
  assert (trace (match rq_params req !! "count"%string with
                 | Some c =>
                     match py_int c with
                     | Some n => mret n
                     | None => raise (HTTPBadRequest "expected int for count param")
                     end
                 | None =>
                     if String.eqb (rq_content_type req) "binary"
                     then raise (HTTPBadRequest
                            "expected count query param for binary POST chunks request")
                     else mret 0
                 end) = []) as ->.
  { destruct (rq_params req !! "count"%string) as [c|].
    - by destruct (py_int c).
    - by destruct (String.eqb _ _). }
  clear Hn.
  destruct (rq_params req !! "bucket"%string) as [bucket|]; [|by cbn in H].
  ok_test H.
  ok_step H s3path Hs3.
  assert (s3path = None) as ->.
  { destruct (rq_params req !! "s3path"%string); [discriminate|]. by injection Hs3 as <-. }
  assert (trace (match rq_params req !! "s3path"%string with
                 | Some _ => raise (HTTPBadRequest "")
                 | None => mret None
                 end : M (option string)) = []) as ->
    by (by destruct (rq_params req !! "s3path"%string)).
  clear Hs3.
  ok_step H s3offset Hoff. rewrite opt_param_trace. clear Hoff.
  ok_step H s3size Hsize. rewrite opt_param_trace. clear Hsize.
  ok_step H chunk_id Hid.
  assert (rq_id req = Some chunk_id) as Hrq.
  { destruct (rq_id req) as [c |]; [| done].
    destruct (str_truthy c); [| done]. by injection Hid as ->. }
  rewrite Hrq in *. clear Hid.
  replace (trace (if str_truthy chunk_id then mret chunk_id
                  else raise (HTTPBadRequest "Missing chunk id"))) with (@nil event)
    by (by destruct (str_truthy chunk_id)).
  ok_step H chunk_index Hidx. clear Hidx.
  ok_test H. ok_test H. ok_test H. ok_test H.
  ok_step H d Hd. clear Hd.
  ok_step H dims Hdims. clear Hdims.
  ok_step H dset_dt Hdt. clear Hdt.
  replace (if opt_truthy (getChunkInitializer d) then true else true) with true in *
    by (by destruct (opt_truthy _)).
  ok_step H select_dt Hsdt. clear Hsdt.
  replace (trace (if list_truthy (default [] (split ":" <$> rq_params req !! "fields"%string))
                 then lift (getSubType E dset_dt
                              (default [] (split ":" <$> rq_params req !! "fields"%string)))
                 else mret dset_dt)) with (@nil event) by (by destruct (list_truthy _)).
  ok_step H sel Hsel. destruct sel as [[select point_arr] select_dt'].
  cbn [andb negb app] in *.
  ok_step H chunk_arr Harr. clear Harr.
  destruct chunk_arr as [chunk_arr|]; [|by cbn in H].
  ok_step H u Hu. clear Hu.
  ok_step H output_arr Hout.
  destruct point_arr as [point_arr|]; [|by cbn in Hout].
  destruct (String.eqb (rq_content_type req) "binary") eqn:Hct.
  2:{ exfalso. clear -Hsel.
      apply bind_ok in Hsel as (body & _ & Hsel & _).
      destruct (json_select body); [|by cbn in Hsel].
      destruct (json_fields body); [|by cbn in Hsel].
      destruct (list_truthy _); [by cbn in Hsel|].
      apply bind_ok in Hsel as (? & _ & Hsel & _). by cbn in Hsel. }
  apply String.eqb_eq in Hct.
  assert (trace (call EvReadBody (Ok (rq_bytes req)) ≫= fun input_bytes =>
                 if negb (bool_decide (Some (len input_bytes) = rq_content_length req))
                 then raise (HTTPInternalServerError "")
                 else
                   lift (bytesToArray E input_bytes (Dtype [Dtype [] false; select_dt] false)
                           [PyInt num_points]) ≫= fun point_arr =>
                   mret (None : option select_arg, Some point_arr, select_dt))
          = [EvReadBody]) as ->.
  { rewrite trace_bind. cbn.
    destruct (negb (bool_decide (Some (len (rq_bytes req)) = rq_content_length req)));
      [done|].
    by destruct (bytesToArray E _ _ _). }
  cbn [app].
  apply bind_ok in Hout as (u1 & Hu1 & Hout & ->).
  apply bind_ok in Hout as (u2 & Hu2 & Hout & ->).
  cbn in Hout. injection Hout as <-.
  ok_step H u3 Hu3. cbn in H. injection H as <-.
  split; [done|]. split; [done|]. by exists chunk_id.
Qed.

Lemma POST_Chunk_put_points_persists_witness :
  JsonResponse 200 = JsonResponse 200 /\
  rq_content_type sample_post_put = "binary"%string /\
  exists chunk_id,
    rq_id sample_post_put = Some chunk_id /\
    trace (POST_Chunk (sample_env ∅ 100000) sample_post_put)
    = [EvGetMetadata (getDatasetId (sample_env ∅ 100000) chunk_id); EvReadBody;
       EvGetChunk chunk_id true; EvChunkWritePoints; EvSaveChunk chunk_id;
       EvRespond].
Proof.
  apply (POST_Chunk_put_points_persists (sample_env ∅ 100000) sample_post_put).
  - reflexivity.
  - vm_compute. reflexivity.
Defined.

(** ** Compression filters; selections that do not parse *)

(** X11: The filter [getCompressionFilter] returns is one of the given
    filters, and its class is a compression class or it is a user filter
    whose name is a compression name. *)
Theorem getCompressionFilter_sound (filters : list (gmap string fval))
    (f : gmap string fval) :
  getCompressionFilter filters = Ok (Some f) ->
  f ∈ filters /\
  exists cls,
    f !! "class"%string = Some cls /\
    (fval_in cls COMPRESSION_FILTER_IDS = true \/
     (fval_is cls "H5Z_FILTER_USER" = true /\
      exists name, f !! "name"%string = Some name /\
                   fval_in name COMPRESSION_FILTER_NAMES = true)).
Proof.
  induction filters as [|g filters IH]; [discriminate|].
  cbn [getCompressionFilter]. intros H.
  assert (getCompressionFilter filters = Ok (Some f) ->
          f ∈ g :: filters /\
          exists cls,
            f !! "class"%string = Some cls /\
            (fval_in cls COMPRESSION_FILTER_IDS = true \/
             (fval_is cls "H5Z_FILTER_USER" = true /\
              exists name, f !! "name"%string = Some name /\
                           fval_in name COMPRESSION_FILTER_NAMES = true))) as Hrest.
  { intros Hr. destruct (IH Hr) as [Hin Hcls]. split; [|done].
    by apply list_elem_of_further. }
  destruct (g !! "class"%string) as [cls|] eqn:Hcls; [|by apply Hrest].
  destruct (fval_in cls COMPRESSION_FILTER_IDS) eqn:Hids.
  { injection H as <-. split; [apply list_elem_of_here|]. exists cls. by split; [|left]. }
  destruct (g !! "name"%string) as [name|] eqn:Hname; [|discriminate].
  destruct (_ && _) eqn:Huser; [|by apply Hrest].
  injection H as <-. split; [apply list_elem_of_here|]. exists cls. split; [done|].
  apply andb_true_iff in Huser as [[Hu _]%andb_true_iff Hn].
  right. split; [done|]. by exists name.
Qed.

Lemma getCompressionFilter_sound_witness :
  (<["class"%string := FStr "H5Z_FILTER_USER"]>
     (<["name"%string := FStr "lz4"]> (∅ : gmap string fval)))
  ∈ [ (<["class"%string := FStr "H5Z_FILTER_USER"]>
         (<["name"%string := FStr "lz4"]> (∅ : gmap string fval))) ] /\
  exists cls,
    (<["class"%string := FStr "H5Z_FILTER_USER"]>
       (<["name"%string := FStr "lz4"]> (∅ : gmap string fval))) !! "class"%string
    = Some cls /\
    (fval_in cls COMPRESSION_FILTER_IDS = true \/
     (fval_is cls "H5Z_FILTER_USER" = true /\
      exists name,
        (<["class"%string := FStr "H5Z_FILTER_USER"]>
           (<["name"%string := FStr "lz4"]> (∅ : gmap string fval))) !! "name"%string
        = Some name /\
        fval_in name COMPRESSION_FILTER_NAMES = true)).
Proof.
  apply (getCompressionFilter_sound
           [ <["class"%string := FStr "H5Z_FILTER_USER"]>
               (<["name"%string := FStr "lz4"]> ∅) ]).
  vm_compute. reflexivity.
Defined.

Lemma getCompressionFilter_app (pre rest : list (gmap string fval)) :
  getCompressionFilter pre = Ok None ->
  getCompressionFilter (pre ++ rest) = getCompressionFilter rest.
Proof.
  induction pre as [|g pre IH]; [done|]. cbn [app getCompressionFilter].
  destruct (g !! "class"%string) as [cls|]; [|exact IH].
  destruct (fval_in cls COMPRESSION_FILTER_IDS); [discriminate|].
  destruct (g !! "name"%string) as [name|]; [|discriminate].
  destruct (_ && _); [discriminate|exact IH].
Qed.

(** X12: [getCompressionFilter] fails exactly when it comes, before any
    compression filter, to a filter that has a class outside the compression
    classes and no [name] key, and then with [KeyError]: the user-filter test
    reads [filter["name"]] whatever the class is. *)
Theorem getCompressionFilter_raises_iff (filters : list (gmap string fval))
    (e : exn) :
  getCompressionFilter filters = Raise e <->
  e = KeyError "name" /\
  exists pre f rest cls,
    filters = pre ++ f :: rest /\
    getCompressionFilter pre = Ok None /\
    f !! "class"%string = Some cls /\
    fval_in cls COMPRESSION_FILTER_IDS = false /\
    f !! "name"%string = None.
Proof.
  split.
  - induction filters as [|g filters IH]; [discriminate|].
    cbn [getCompressionFilter]. intros H.
    assert (getCompressionFilter [g] = Ok None ->
            getCompressionFilter filters = Raise e ->
            e = KeyError "name" /\
            exists pre f rest cls,
              g :: filters = pre ++ f :: rest /\
              getCompressionFilter pre = Ok None /\
              f !! "class"%string = Some cls /\
              fval_in cls COMPRESSION_FILTER_IDS = false /\
              f !! "name"%string = None) as Hrest.
    { intros Hg Hr. destruct (IH Hr) as (-> & pre & f & rest & cls & -> & Hpre & Hf).
      split; [done|]. exists (g :: pre), f, rest, cls. split; [done|].
      split; [|done]. change (g :: pre) with ([g] ++ pre).
      by rewrite (getCompressionFilter_app [g] pre Hg). }
    cbn [getCompressionFilter] in Hrest.
    destruct (g !! "class"%string) as [cls|] eqn:Hcls; [|by apply Hrest].
    destruct (fval_in cls COMPRESSION_FILTER_IDS) eqn:Hids; [discriminate|].
    destruct (g !! "name"%string) as [name|] eqn:Hname.
    + destruct (_ && _); [discriminate|by apply Hrest].
    + injection H as <-. split; [done|]. by exists [], g, filters, cls.
  - intros (-> & pre & f & rest & cls & -> & Hpre & Hcls & Hids & Hname).
    rewrite (getCompressionFilter_app pre _ Hpre). cbn [getCompressionFilter].
    by rewrite Hcls, Hids, Hname.
Qed.

Lemma lift_ok_bind {A B : Type} (a : A) (f : A -> M B) : lift (Ok a) ≫= f = f a.
Proof. unfold mbind, M_bind. cbn. by destruct (f a). Qed.

Lemma call_ok_bind {A B : Type} (ev : event) (a : A) (f : A -> M B) :
  call ev (Ok a) ≫= f = MkM (ev :: trace (f a)) (outcome (f a)).
Proof. done. Qed.

(** X24: A [PUT_Chunk] request that passes the checks on its parameters
    and whose selection string does not parse for the chunk layout ends in an
    internal-server error after loading the dataset descriptor, with no chunk
    fetched or written. *)
Theorem PUT_Chunk_bad_select_is_500 {arr : Type} (E : Env arr) (req : request)
    (a : put_args) (d : dset_json) (dims : list Z) (dset_dt select_dt : dtype)
    (s : string) (e : exn) :
  PUT_Chunk_params E req = Ok a ->
  cache_check E (pa_chunk_id a) = Ok tt ->
  get_metadata_obj E (getDatasetId E (pa_chunk_id a)) (pa_bucket a) = Ok d ->
  getChunkLayout d = Ok dims ->
  type_dtype (dj_type d) = Ok dset_dt ->
  (if list_truthy (pa_select_fields a)
   then getSubType E dset_dt (pa_select_fields a) else Ok dset_dt) = Ok select_dt ->
  rq_params req !! "select"%string = Some s ->
  getSelectionList (SelStr s) dims = Raise e ->
  PUT_Chunk E req
  = MkM [EvGetMetadata (getDatasetId E (pa_chunk_id a))]
        (Raise (HTTPInternalServerError "")).
Proof.
  intros Hp Hc Hd Hdims Hdt Hsdt Hs He.
  destruct (getSelectionList_str_raises_ValueError_aux s dims e He) as [msg ->].
  unfold PUT_Chunk. rewrite Hp, lift_ok_bind.
  unfold PUT_Chunk_body. cbv zeta.
  rewrite Hc, lift_ok_bind, Hd, call_ok_bind. f_equal.
  - f_equal. rewrite Hdims, lift_ok_bind, Hdt, lift_ok_bind.
    rewrite trace_bind.
    assert ((if list_truthy (pa_select_fields a)
             then lift (getSubType E dset_dt (pa_select_fields a))
             else mret dset_dt) = lift (Ok select_dt)) as ->.
    { destruct (list_truthy _); [by rewrite Hsdt|by injection Hsdt as <-]. }
    cbn [lift trace outcome app]. by rewrite Hs, He.
  - rewrite Hdims, lift_ok_bind, Hdt, lift_ok_bind.
    rewrite outcome_bind.
    assert ((if list_truthy (pa_select_fields a)
             then lift (getSubType E dset_dt (pa_select_fields a))
             else mret dset_dt) = lift (Ok select_dt)) as ->.
    { destruct (list_truthy _); [by rewrite Hsdt|by injection Hsdt as <-]. }
    cbn [lift trace outcome app]. by rewrite Hs, He.
Qed.

(** ** The handlers on the sample deployment *)

Lemma PUT_Chunk_bad_select_is_500_witness :
  PUT_Chunk (sample_env ∅ 100000) sample_put_bad_select
  = MkM [EvGetMetadata "d-0001"] (Raise (HTTPInternalServerError "")).
Proof.
  eapply (PUT_Chunk_bad_select_is_500 (sample_env ∅ 100000) sample_put_bad_select
            _ sample_dset [10] (Dtype [] false) (Dtype [] false) "[0:100]"
            (ValueError stop_range)).
  - vm_compute. reflexivity.
  - vm_compute. reflexivity.
  - reflexivity.
  - reflexivity.
  - reflexivity.
  - reflexivity.
  - reflexivity.
  - vm_compute. reflexivity.
Defined.

Lemma PUT_Chunk_parses_first_witness :
  exists a d dims selection mshape,
    PUT_Chunk_params (sample_env ∅ 100000) sample_put = Ok a /\
    get_metadata_obj (sample_env ∅ 100000)
      (getDatasetId (sample_env ∅ 100000) (pa_chunk_id a)) (pa_bucket a) = Ok d /\
    getChunkLayout d = Ok dims /\
    value_error_as (HTTPInternalServerError "")
      (getSelectionList
         (match rq_params sample_put !! "select"%string with
          | Some s => SelStr s
          | None => SelNone
          end) dims) = Ok selection /\
    getSelectionShape selection = Ok mshape.
Proof.
  apply (PUT_Chunk_parses_first (sample_env ∅ 100000) sample_put
           (EvGetChunk "c-0001_0" true)).
  - vm_compute. apply list_elem_of_further, list_elem_of_here.
  - reflexivity.
Defined.

Lemma GET_Chunk_parses_first_witness :
  exists chunk_id bucket d dims selection,
    rq_id sample_put = Some chunk_id /\
    get_metadata_obj (sample_env ∅ 100000)
      (getDatasetId (sample_env ∅ 100000) chunk_id) bucket = Ok d /\
    getChunkLayout d = Ok dims /\
    value_error_as (HTTPInternalServerError "")
      (getSelectionList
         (match rq_params sample_put !! "select"%string with
          | Some s => SelStr s
          | None => SelNone
          end) dims) = Ok selection.
Proof.
  apply (GET_Chunk_parses_first (sample_env ∅ 100000) sample_put
           (EvGetChunk "c-0001_0" true)).
  - vm_compute. apply list_elem_of_further, list_elem_of_here.
  - reflexivity.
Defined.

Lemma aligned_pagination_round_trip_witness :
  mjoin (selection_coords <$>
           [[Range (Slice 0 4 2)]; [Range (Slice 4 8 2)]; [Range (Slice 8 10 2)]])
  = selection_coords [Range (Slice 0 10 2)].
Proof.
  apply (aligned_pagination_round_trip [Range (Slice 0 10 2)] [10] 4 8).
  - repeat constructor; simpl; lia.
  - vm_compute. lia.
  - reflexivity.
  - lia.
  - intros d s (Hl & _). destruct d as [|d]; [|done].
    injection Hl as <-. reflexivity.
  - vm_compute. reflexivity.
Defined.

(** ** getSelectionPagination: the pages of a selection of stride 1 *)

Lemma page_stop_unit (s : slice) (page_extent start : Z) :
  page_stop s 1 page_extent start = Z.min (start + page_extent) (sl_stop s).
Proof.
  unfold page_stop. rewrite Z.mod_1_r. cbn [Z.eqb negb].
  destruct (Z.ltb_spec (sl_stop s) (start + page_extent)); lia.
Qed.

Lemma slice_pages_unit (s : slice) (w : Z) (fuel : nat) :
  1 <= w ->
  forall start,
    sl_stop s - start <= Z.of_nat fuel ->
    slice_pages fuel s 1 w start
    = Some ((fun k : nat =>
               Range (Slice (start + Z.of_nat k * w)
                            (Z.min (start + (Z.of_nat k + 1) * w) (sl_stop s)) 1))
              <$> seq 0 (Z.to_nat (ceil_div (sl_stop s - start) w))).
Proof.
  intros Hw. induction fuel as [| fuel IH]; intros start Hfuel.
  - cbn [slice_pages].
    destruct (Z.ltb_spec start (sl_stop s)) as [Hlt | Hge]; [lia |].
    pose proof (ceil_div_nonpos (sl_stop s - start) w ltac:(lia) ltac:(lia)).
    by replace (Z.to_nat _) with 0%nat by lia.
  - cbn [slice_pages].
    destruct (Z.ltb_spec start (sl_stop s)) as [Hlt | Hge].
    + rewrite page_stop_unit.
      pose proof (ceil_div_pos (sl_stop s - start) w ltac:(lia) ltac:(lia)) as Hpos.
      pose proof (ceil_div_step (sl_stop s - start) w ltac:(lia)) as Hstep.
      rewrite IH by lia. cbn [mbind option_bind].
      replace (Z.to_nat (ceil_div (sl_stop s - start) w))
        with (S (Z.to_nat (ceil_div (sl_stop s - start) w - 1))) by lia.
      cbn [seq fmap list_fmap]. f_equal. f_equal.
      * f_equal. f_equal; lia.
      * rewrite <- seq_shift, <- list_fmap_compose.
        destruct (Z.le_gt_cases (sl_stop s) (start + w)) as [Hlast | Hmore].
        -- rewrite Z.min_r by lia.
           replace (sl_stop s - sl_stop s) with 0 by lia.
           assert (ceil_div (sl_stop s - start) w - 1 <= 0) as Hz.
           { rewrite <- Hstep. apply ceil_div_nonpos; lia. }
           replace (Z.to_nat (ceil_div _ w - 1)) with 0%nat by lia.
           pose proof (ceil_div_nonpos 0 w ltac:(lia) ltac:(lia)).
           by replace (Z.to_nat (ceil_div 0 w)) with 0%nat by lia.
        -- rewrite Z.min_l by lia.
           replace (sl_stop s - (start + w)) with (sl_stop s - start - w) by lia.
           rewrite Hstep.
           apply list_fmap_ext. intros _ k _. cbn [compose].
           f_equal. f_equal; lia.
    + pose proof (ceil_div_nonpos (sl_stop s - start) w ltac:(lia) ltac:(lia)).
      by replace (Z.to_nat _) with 0%nat by lia.
Qed.

Lemma coord_pages_unit (l : list Z) (w : Z) (wn : nat) (fuel : nat) :
  1 <= w -> Z.of_nat wn = w ->
  forall p : nat,
    (length l - p <= fuel)%nat ->
    coord_pages fuel l w (Z.of_nat p)
    = Some ((fun k : nat => Coords (take wn (drop (p + k * wn) l)))
              <$> seq 0 (Z.to_nat (ceil_div (len l - Z.of_nat p) w))).
Proof.
  intros Hw Hwn. unfold len.
  induction fuel as [| fuel IH]; intros p Hfuel.
  - cbn [coord_pages]. unfold len.
    destruct (Z.ltb_spec (Z.of_nat p) (Z.of_nat (length l))) as [Hlt | Hge]; [lia |].
    pose proof (ceil_div_nonpos (Z.of_nat (length l) - Z.of_nat p) w
                  ltac:(lia) ltac:(lia)).
    by replace (Z.to_nat _) with 0%nat by lia.
  - cbn [coord_pages]. unfold len.
    destruct (Z.ltb_spec (Z.of_nat p) (Z.of_nat (length l))) as [Hlt | Hge].
    + pose proof (ceil_div_pos (Z.of_nat (length l) - Z.of_nat p) w
                    ltac:(lia) ltac:(lia)) as Hpos.
      pose proof (ceil_div_step (Z.of_nat (length l) - Z.of_nat p) w ltac:(lia))
        as Hstep.
      replace (Z.to_nat (ceil_div (Z.of_nat (length l) - Z.of_nat p) w))
        with (S (Z.to_nat (ceil_div (Z.of_nat (length l) - Z.of_nat p) w - 1)))
        by lia.
      cbn [seq fmap list_fmap].
      destruct (Z.ltb_spec (Z.of_nat (length l)) (Z.of_nat p + w)) as [Hlast | Hmore].
      * assert (ceil_div (Z.of_nat (length l) - Z.of_nat p) w - 1 <= 0) as Hz.
        { rewrite <- Hstep. apply ceil_div_nonpos; lia. }
        replace (Z.to_nat (ceil_div _ w - 1)) with 0%nat by lia.
        assert (coord_pages fuel l w (Z.of_nat (length l)) = Some []) as ->.
        { destruct fuel; cbn [coord_pages]; unfold len; by rewrite Z.ltb_irrefl. }
        cbn [mbind option_bind seq fmap list_fmap].
        f_equal. f_equal. f_equal. unfold list_slice.
        rewrite Nat2Z.id, Nat.mul_0_l, Nat.add_0_r.
        rewrite !take_ge; [done | rewrite length_drop; lia | rewrite length_drop; lia].
      * replace (Z.of_nat p + w) with (Z.of_nat (p + wn)) by lia.
        rewrite (IH (p + wn)%nat) by lia. cbn [mbind option_bind]. f_equal. f_equal.
        -- f_equal. unfold list_slice.
           rewrite Nat2Z.id, Nat.mul_0_l, Nat.add_0_r. f_equal. lia.
        -- replace (Z.of_nat (length l) - Z.of_nat (p + wn))
             with (Z.of_nat (length l) - Z.of_nat p - w) by lia.
           rewrite Hstep. rewrite <- seq_shift, <- list_fmap_compose.
           apply list_fmap_ext. intros _ k _. cbn [compose].
           f_equal. f_equal. f_equal. lia.
    + pose proof (ceil_div_nonpos (Z.of_nat (length l) - Z.of_nat p) w
                    ltac:(lia) ltac:(lia)).
      by replace (Z.to_nat _) with 0%nat by lia.
Qed.

Lemma paginate_slices_of_cuts (s : sel_entry) (w : Z) :
  valid_entry s -> unit_stride s -> 1 <= w ->
  paginate_slices_of s w = Some (page_cuts s w).
Proof.
  intros Hv Hu Hw. destruct s as [s | l]; cbn in Hv, Hu.
  - destruct Hv as [Hr _]. unfold paginate_slices_of, page_cuts, paginate_step.
    rewrite Hu.
    assert ((if truthy 1 && (1 <? sl_stop s) then 1 else 1) = 1) as ->
      by (destruct (truthy 1 && (1 <? sl_stop s)); reflexivity).
    rewrite slice_pages_unit by lia.
    cbn [entry_extent]. rewrite Hu.
    replace (ceil_div (sl_stop s - sl_start s) 1) with (sl_stop s - sl_start s)
      by (unfold ceil_div; rewrite Z.div_1_r; lia).
    done.
  - unfold paginate_slices_of, page_cuts. cbn [entry_extent page_cut].
    pose proof (coord_pages_unit l w (Z.to_nat w) (length l) Hw ltac:(lia)
                  0%nat ltac:(lia)) as H.
    change (Z.of_nat 0) with 0 in H. rewrite H. by rewrite Z.sub_0_r.
Qed.

Lemma unit_stride_extent (s : sel_entry) :
  valid_entry s -> unit_stride s -> paginate_extent_of s = entry_extent s.
Proof.
  intros Hv Hu. destruct s as [s | l]; [| done]. cbn in *.
  destruct Hv as [Hr _]. rewrite Hu.
  replace (sl_start s <? sl_stop s) with true by (symmetry; apply Z.ltb_lt; lia).
  unfold ceil_div. rewrite Z.div_1_r. lia.
Qed.

Lemma first_wide_dim_paginates (select : list sel_entry) (d : nat) (s : sel_entry) :
  Forall valid_entry select -> Forall unit_stride select ->
  first_wide_dim select d s -> is_pagination_dim select d s.
Proof.
  intros Hv Hu (Hd & Hgt & Hbefore).
  assert (forall j s', select !! j = Some s' ->
                       paginate_extent_of s' = entry_extent s') as Hext.
  { intros j s' Hj. apply unit_stride_extent.
    - exact (proj1 (Forall_lookup _ _) Hv _ _ Hj).
    - exact (proj1 (Forall_lookup _ _) Hu _ _ Hj). }
  split; [done |]. split; [by rewrite (Hext d s Hd) |].
  intros j s' Hj Hs'. rewrite (Hext j s' Hs'). exact (Hbefore j s' Hj Hs').
Qed.

(** C4 (amended): on a selection of ranges of stride 1 and at most one
    coordinate list whose byte size exceeds a positive budget, the paginator
    takes the first dimension whose extent exceeds 1.  It raises if there is none, and also if that extent is below
    [page_count = floor(total_bytes / max_bytes) + 1].  Otherwise
    [page_extent = floor(extent / page_count)] is at least 1 and the result
    is the selection with that dimension cut into
    [ceil(extent / page_extent)] consecutive pieces of [page_extent] indices
    (the last one may be shorter), all other dimensions unchanged. *)
Theorem getSelectionPagination_over_budget
    (select : list sel_entry) (dims : list Z) (itemsize max_request_size : Z)
    (shape : list Z) :
  Forall valid_entry select ->
  Forall unit_stride select ->
  (count_coords select <= 1)%nat ->
  length dims = length select ->
  getSelectionShape select = Ok shape ->
  0 < max_request_size ->
  max_request_size < prod shape * itemsize ->
  let page_count := prod shape * itemsize / max_request_size + 1 in
  ((forall j s, select !! j = Some s -> entry_extent s <= 1) ->
   getSelectionPagination select dims itemsize max_request_size
   = Some (Raise (ValueError no_paginate_dim))) /\
  (forall d s,
      first_wide_dim select d s ->
      let extent := entry_extent s in
      let page_extent := extent / page_count in
      (extent < page_count ->
       getSelectionPagination select dims itemsize max_request_size
       = Some (Raise (ValueError too_many_pages))) /\
      (page_count <= extent ->
       1 <= page_extent /\
       getSelectionPagination select dims itemsize max_request_size
       = Some (Ok ((fun p => <[d := p]> select) <$> page_cuts s page_extent)))).
Proof.
  intros Hv Hu _ Hlen Hshape Hmax Hover page_count.
  destruct (paginate_over_budget select dims itemsize max_request_size shape
              Hv Hlen Hshape Hmax Hover) as [Hnone Hdim].
  assert (forall j s', select !! j = Some s' ->
                       paginate_extent_of s' = entry_extent s') as Hext.
  { intros j s' Hj. apply unit_stride_extent.
    - exact (proj1 (Forall_lookup _ _) Hv _ _ Hj).
    - exact (proj1 (Forall_lookup _ _) Hu _ _ Hj). }
  split.
  - intros Hall. apply Hnone. intros j s' Hj. rewrite (Hext j s' Hj). exact (Hall j s' Hj).
  - intros d s Hd extent page_extent.
    pose proof (first_wide_dim_paginates select d s Hv Hu Hd) as Hpd.
    destruct Hd as (Hds & _ & _).
    destruct (Hdim d s Hpd) as [Hfew Hmany].
    cbn zeta in Hfew, Hmany. rewrite (Hext d s Hds) in Hfew, Hmany.
    fold page_count in Hfew, Hmany. split; [exact Hfew |].
    intros Hge. destruct (Hmany Hge) as (Hpe & pages & Hpages & _ & Hres).
    split; [exact Hpe |]. rewrite Hres.
    rewrite paginate_slices_of_cuts in Hpages.
    + by injection Hpages as <-.
    + exact (proj1 (Forall_lookup _ _) Hv _ _ Hds).
    + exact (proj1 (Forall_lookup _ _) Hu _ _ Hds).
    + exact Hpe.
Qed.

Lemma getSelectionPagination_over_budget_witness :
  getSelectionPagination [Range (Slice 0 1 1); Range (Slice 0 10 1)] [1; 10] 1 3
  = Some (Ok [[Range (Slice 0 1 1); Range (Slice 0 2 1)];
              [Range (Slice 0 1 1); Range (Slice 2 4 1)];
              [Range (Slice 0 1 1); Range (Slice 4 6 1)];
              [Range (Slice 0 1 1); Range (Slice 6 8 1)];
              [Range (Slice 0 1 1); Range (Slice 8 10 1)]]).
Proof.
  assert (Forall valid_entry [Range (Slice 0 1 1); Range (Slice 0 10 1)]) as Hv
    by (repeat constructor; simpl; lia).
  assert (Forall unit_stride [Range (Slice 0 1 1); Range (Slice 0 10 1)]) as Hu
    by (repeat constructor).
  assert (first_wide_dim [Range (Slice 0 1 1); Range (Slice 0 10 1)] 1
            (Range (Slice 0 10 1))) as Hd.
  { split; [reflexivity |]. split; [vm_compute; reflexivity |].
    intros j s' Hj Hs. destruct j as [| j]; [| lia].
    injection Hs as <-. vm_compute. discriminate. }
  destruct (getSelectionPagination_over_budget
              [Range (Slice 0 1 1); Range (Slice 0 10 1)] [1; 10] 1 3 [1; 10]
              Hv Hu ltac:(vm_compute; lia) eq_refl eq_refl ltac:(lia)
              ltac:(simpl; lia)) as [_ H].
  destruct (H 1%nat (Range (Slice 0 10 1)) Hd) as [_ Hok].
  destruct (Hok ltac:(vm_compute; discriminate)) as [_ Hres].
  exact Hres.
Defined.

(** ** Coordinate lists of unequal length: what the parser accepts *)

Lemma entry_element_read_element (extent : Z) (e : sel_entry) :
  accepted extent e -> read_element extent (entry_element e) = Ok e.
Proof.
  intros He. destruct e as [s | l].
  - exact (entry_text_read_element extent (Range s) He).
  - destruct He as [_ Hl]. cbn [entry_element read_element].
    by rewrite read_coords_in_range.
Qed.

Lemma read_elements_entries (dims : list Z) (sel : list sel_entry) :
  Forall2 accepted dims sel ->
  forall select_list,
    read_elements dims (entry_element <$> sel) 0 (length dims) select_list
    = Ok (select_list ++ sel).
Proof.
  induction 1 as [| extent e dims sel He _ IH]; intros select_list.
  - cbn. by rewrite app_nil_r.
  - cbn [length read_elements fmap list_fmap lookup list_lookup].
    rewrite (entry_element_read_element _ _ He). cbn [mbind result_bind].
    rewrite read_elements_shift. fold (@fmap list _ _ _ entry_element sel).
    rewrite IH. by rewrite <- app_assoc.
Qed.

(** C6 (amended): [getSelectionList] checks each coordinate against its own
    dimension only and never compares the lengths of coordinate lists: a
    selection of ranges and non-empty coordinate lists of any lengths, each
    inside its dimension, is returned as it stands, whether it comes as a
    selection expression or as a list.  It is [getSelectionShape] that
    fails, with a bad-request error, on every selection that holds two
    coordinate lists of unequal length. *)
Theorem coordinate_lengths_checked_by_shape :
  (forall (sel : list sel_entry) (i j : nat) (li lj : list Z),
      sel !! i = Some (Coords li) -> sel !! j = Some (Coords lj) ->
      length li <> length lj ->
      getSelectionShape sel = Raise (HTTPBadRequest shape_mismatch)) /\
  (forall (dims : list Z) (ls : list (list Z)),
      ls <> [] ->
      Forall2 (fun extent l => Forall (fun c => 0 <= c < extent) l) dims ls ->
      getSelectionList (SelList (ElList <$> ls)) dims = Ok (Coords <$> ls)) /\
  (forall (dims : list Z) (sel : list sel_entry),
      sel <> [] ->
      Forall2 accepted dims sel ->
      getSelectionList (SelStr ("[" ++ join "," (entry_text <$> sel) ++ "]")) dims
      = Ok sel /\
      getSelectionList (SelList (entry_element <$> sel)) dims = Ok sel).
Proof.
  split; [| split].
  - intros sel i j li lj Hi Hj Hne. unfold getSelectionShape.
    apply (getSelectionShape_mismatch sel [] li lj).
    + apply list_elem_of_lookup. by exists i.
    + apply list_elem_of_lookup. by exists j.
    + unfold len. lia.
  - intros dims ls Hne Hr. unfold getSelectionList.
    cbn [mbind result_bind].
    assert (select_is_empty (SelList (ElList <$> ls)) = false) as ->.
    { destruct ls; [done |]. unfold select_is_empty. rewrite fmap_cons, len_cons.
      apply Z.eqb_neq. pose proof (len_nonneg (ElList <$> ls)). lia. }
    pose proof (Forall2_length _ _ _ Hr) as Hl.
    rewrite length_fmap, Hl, Nat.eqb_refl. cbn [negb].
    rewrite (read_elements_coords dims ls (length ls) 0) by done.
    done.
  - intros dims sel Hne Hacc. split; [by apply getSelectionList_reads_texts |].
    unfold getSelectionList. cbn [mbind result_bind].
    assert (select_is_empty (SelList (entry_element <$> sel)) = false) as ->.
    { destruct sel; [done |]. unfold select_is_empty. rewrite fmap_cons, len_cons.
      apply Z.eqb_neq. pose proof (len_nonneg (entry_element <$> sel)). lia. }
    pose proof (Forall2_length _ _ _ Hacc) as Hl.
    rewrite length_fmap, Hl, Nat.eqb_refl. cbn [negb].
    rewrite <- Hl. by rewrite read_elements_entries.
Qed.

Lemma coordinate_lengths_checked_by_shape_witness :
  getSelectionShape [Coords [1; 2]; Range (Slice 0 4 1); Coords [3; 4; 5]]
  = Raise (HTTPBadRequest shape_mismatch) /\
  getSelectionList (SelStr "[[1,2],0:4,[3,4,5]]") [10; 4; 10]
  = Ok [Coords [1; 2]; Range (Slice 0 4 1); Coords [3; 4; 5]].
Proof.
  split.
  - apply (proj1 coordinate_lengths_checked_by_shape
             [Coords [1; 2]; Range (Slice 0 4 1); Coords [3; 4; 5]]
             0%nat 2%nat [1; 2] [3; 4; 5]); [reflexivity | reflexivity | ].
    simpl. lia.
  - apply (proj2 (proj2 coordinate_lengths_checked_by_shape) [10; 4; 10]
             [Coords [1; 2]; Range (Slice 0 4 1); Coords [3; 4; 5]]).
    + discriminate.
    + repeat constructor; simpl; try lia; discriminate.
Defined.

(** ** PUT_Chunk: the size of the payload *)

Lemma wrap64_small (n : Z) : - 2 ^ 63 <= n < 2 ^ 63 -> wrap64 n = n.
Proof. intros H. unfold wrap64. rewrite Z.mod_small; lia. Qed.

Lemma fits_int64_spec (n : Z) : fits_int64 n = true <-> - 2 ^ 63 <= n < 2 ^ 63.
Proof. unfold fits_int64. rewrite andb_true_iff, Z.leb_le, Z.ltb_lt. done. Qed.

Lemma prod_extents (shape : list Z) :
  Forall (fun extent => 1 <= extent) shape ->
  1 <= prod shape /\ Forall (fun extent => extent <= prod shape) shape.
Proof.
  induction 1 as [| x shape Hx _ [IH1 IH2]]; cbn [prod fold_right].
  - split; [lia | constructor].
  - fold (prod shape). split; [nia |]. constructor; [nia |].
    eapply Forall_impl; [exact IH2 |]. cbn beta. intros y Hy. nia.
Qed.

Lemma np_prod_int64 (shape : list Z) :
  shape <> [] -> Forall (fun extent => 1 <= extent) shape -> prod shape < 2 ^ 63 ->
  np_prod shape = NpInt64 (prod shape).
Proof.
  intros Hne Hpos Hlt. destruct (prod_extents shape Hpos) as [H1 Hle].
  unfold np_prod. destruct shape as [| x shape]; [done |].
  assert (forallb fits_int64 (x :: shape) = true) as ->.
  { apply forallb_forall. intros y Hy. apply fits_int64_spec.
    rewrite Forall_forall in Hpos, Hle. apply list_elem_of_In in Hy.
    specialize (Hpos y Hy). specialize (Hle y Hy). cbn beta in *. lia. }
  by rewrite wrap64_small by lia.
Qed.

(** A write that reaches the payload-size test has fetched the dataset and
    the chunk and goes on as the plain update does. *)
Lemma PUT_Chunk_at_size_test {arr : Type} (E : Env arr) (req : request)
    (a : put_args) (d : dset_json) (shape : list Z) :
  at_size_test E req a d shape ->
  exists select_dt selection mshape bcshape chunk_arr,
    PUT_Chunk E req
    = MkM (fetched E a ++
           trace (PUT_Chunk_update E req a d select_dt (type_size (dj_type d))
                    selection mshape bcshape (np_prod shape) chunk_arr))
          (outcome (PUT_Chunk_update E req a d select_dt (type_size (dj_type d))
                      selection mshape bcshape (np_prod shape) chunk_arr)).
Proof.
  intros (Hp & Hq & Hc & Hd & dims & dset_dt & select_dt & selection & mshape
          & bcshape & chunk_arr & Hdims & Hdt & Hsdt & Hsel & Hshape & Hbc
          & Hs & Hchunk).
  exists select_dt, selection, mshape, bcshape, chunk_arr.
  unfold PUT_Chunk. rewrite Hp, lift_ok_bind.
  unfold PUT_Chunk_body. cbv zeta.
  rewrite Hc, lift_ok_bind, Hd, call_ok_bind.
  rewrite Hdims, lift_ok_bind, Hdt, lift_ok_bind.
  assert ((if list_truthy (pa_select_fields a)
           then lift (getSubType E dset_dt (pa_select_fields a))
           else mret dset_dt) = lift (Ok select_dt)) as ->.
  { destruct (list_truthy _); [by rewrite Hsdt | by injection Hsdt as <-]. }
  rewrite lift_ok_bind, Hsel. cbn [value_error_as]. rewrite lift_ok_bind.
  rewrite Hshape, lift_ok_bind.
  assert (match pa_element_count a with
          | Some element_count => lift (getBroadcastShape E mshape element_count)
          | None => mret None
          end = lift (Ok bcshape)) as ->.
  { destruct (pa_element_count a); [by rewrite Hbc | by injection Hbc as <-]. }
  rewrite lift_ok_bind.
  assert ((if opt_truthy (getChunkInitializer d) then true
           else if opt_truthy (pa_query a) then false else true) = true) as ->.
  { rewrite Hq. by destruct (opt_truthy (getChunkInitializer d)). }
  rewrite Hchunk, call_ok_bind.
  assert ((if shape_truthy bcshape then np_prod (default [] bcshape)
           else np_prod mshape) = np_prod shape) as ->.
  { rewrite Hs. by destruct (shape_truthy bcshape). }
  unfold fetched. cbn [app].
  destruct (pa_query a) as [query |]; [| done].
  cbn [opt_truthy] in Hq. by rewrite Hq.
Qed.

Lemma PUT_Chunk_update_reads {arr : Type} (E : Env arr) (req : request)
    (a : put_args) (d : dset_json) (select_dt : dtype) (itemsize : option Z)
    (selection : list sel_entry) (mshape : list Z) (bcshape : option (list Z))
    (num_elements : number) (chunk_arr : arr) :
  check_content_length E itemsize num_elements (rq_content_length req) = Ok tt ->
  exists tr,
    trace (PUT_Chunk_update E req a d select_dt itemsize selection mshape bcshape
             num_elements chunk_arr) = EvReadBody :: tr.
Proof.
  intros H. unfold PUT_Chunk_update. cbv zeta.
  rewrite H, lift_ok_bind, call_ok_bind. cbn [trace]. by eexists.
Qed.

(** C3, as stated, fails: 12 bytes are a multiple of the 4-byte element, yet
    a write of the 4 elements [0:4] (16 bytes expected) that carries 12
    bytes is rejected. *)
Lemma multiple_of_itemsize_rejected :
  PUT_Chunk (sample_env ∅ 4096) sample_put_short
  = MkM [EvGetMetadata "d-0001"; EvGetChunk "c-0001_0" true]
        (Raise (HTTPBadRequest bad_content_length)) /\
  ~ rejects_iff_not_multiple_of_itemsize (sample_env ∅ 4096) sample_put_short
      sample_dset.
Proof.
  split; [by vm_compute |].
  intros H. destruct (H 4 12 eq_refl eq_refl) as [Hreject _].
  apply Hreject; [by vm_compute | reflexivity].
Qed.

(** C3 (amended): a chunk write (PUT) that reaches the payload-size test with
    a fixed-width element type, a shape of positive extents and sizes within
    the signed 64-bit range, is rejected with the payload-size (bad request)
    error, before the body is read, whenever the expected byte count (the
    number of selected or broadcast elements times the element size) is not
    an exact multiple of the non-zero payload size, so in particular
    whenever the payload is larger than expected; a payload of exactly the
    expected byte count passes the test and is read.  For a variable-length
    element type the test rejects no payload size. *)
Theorem PUT_Chunk_content_length {arr : Type} (E : Env arr) (req : request)
    (a : put_args) (d : dset_json) (shape : list Z) :
  at_size_test E req a d shape ->
  (forall itemsize actual : Z,
      type_size (dj_type d) = Some itemsize ->
      rq_content_length req = Some actual ->
      1 <= itemsize -> 0 <= actual < 2 ^ 63 ->
      shape <> [] -> Forall (fun extent => 1 <= extent) shape ->
      let expected := prod shape * itemsize in
      expected < 2 ^ 63 ->
      (actual <> 0 -> expected mod actual <> 0 ->
       PUT_Chunk E req
       = MkM (fetched E a) (Raise (HTTPBadRequest bad_content_length))) /\
      (expected < actual ->
       PUT_Chunk E req
       = MkM (fetched E a) (Raise (HTTPBadRequest bad_content_length))) /\
      (actual = expected ->
       exists tr out,
         PUT_Chunk E req = MkM (fetched E a ++ EvReadBody :: tr) out)) /\
  (type_size (dj_type d) = None ->
   exists tr out, PUT_Chunk E req = MkM (fetched E a ++ EvReadBody :: tr) out).
Proof.
  intros Hat.
  destruct (PUT_Chunk_at_size_test E req a d shape Hat)
    as (select_dt & selection & mshape & bcshape & chunk_arr & Hrun).
  split.
  - intros itemsize actual Hsize Hlen Hitem Hact Hne Hpos expected Hfit.
    destruct (prod_extents shape Hpos) as [Hp1 _].
    assert (prod shape < 2 ^ 63) as Hplt by (unfold expected in Hfit; nia).
    assert (check_content_length E (Some itemsize) (np_prod shape) (Some actual)
            = if (actual =? 0) || (expected mod actual =? 0) then Ok tt
              else Raise (HTTPBadRequest bad_content_length)) as Htest.
    { unfold check_content_length, size_test.
      rewrite (np_prod_int64 shape Hne Hpos Hplt).
      assert (fits_int64 itemsize = true) as ->
        by (apply fits_int64_spec; unfold expected in Hfit; nia).
      assert (fits_int64 actual = true) as -> by (apply fits_int64_spec; lia).
      cbn [andb]. rewrite wrap64_small by (unfold expected in Hfit; nia).
      fold expected. destruct (actual =? 0); [done |]. cbn [orb].
      by destruct (expected mod actual =? 0). }
    assert (actual <> 0 -> expected mod actual <> 0 ->
            PUT_Chunk E req
            = MkM (fetched E a) (Raise (HTTPBadRequest bad_content_length)))
      as Hreject.
    { intros Hnz Hmod. rewrite Hrun.
      replace (actual =? 0) with false in Htest by (symmetry; by apply Z.eqb_neq).
      replace (expected mod actual =? 0) with false in Htest
        by (symmetry; by apply Z.eqb_neq).
      cbn [orb] in Htest. unfold PUT_Chunk_update. cbv zeta.
      rewrite Hsize, Hlen.
      rewrite (bind_raise _ _ (HTTPBadRequest bad_content_length)) by exact Htest.
      cbn [trace outcome lift]. by rewrite app_nil_r. }
    split; [exact Hreject |]. split.
    + intros Hlarge. apply Hreject; [unfold expected in *; nia |].
      rewrite Z.mod_small by (unfold expected in *; nia).
      unfold expected in *. nia.
    + intros Heq.
      assert (check_content_length E (Some itemsize) (np_prod shape) (Some actual)
              = Ok tt) as Hok.
      { rewrite Htest, Heq.
        destruct (Z.eqb_spec expected 0) as [H0 | H0]; [done |].
        by rewrite Z.mod_same, Z.eqb_refl, orb_true_r by done. }
      rewrite <- Hsize, <- Hlen in Hok.
      destruct (PUT_Chunk_update_reads E req a d select_dt _ selection mshape bcshape
                  _ chunk_arr Hok) as [tr Htr].
      rewrite Hrun, Htr. by eexists _, _.
  - intros Hvar.
    assert (check_content_length E (type_size (dj_type d)) (np_prod shape)
              (rq_content_length req) = Ok tt) as Hok by (by rewrite Hvar).
    destruct (PUT_Chunk_update_reads E req a d select_dt _ selection mshape bcshape
                _ chunk_arr Hok) as [tr Htr].
    rewrite Hrun, Htr. by eexists _, _.
Qed.

Lemma PUT_Chunk_content_length_witness :
  PUT_Chunk (sample_env ∅ 4096) sample_put_short
  = MkM (fetched (sample_env ∅ 4096)
           {| pa_query := None; pa_limit := 0; pa_chunk_id := "c-0001_0";
              pa_bucket := "b"; pa_element_count := None; pa_select_fields := [] |})
        (Raise (HTTPBadRequest bad_content_length)).
Proof.
  assert (at_size_test (sample_env ∅ 4096) sample_put_short
            {| pa_query := None; pa_limit := 0; pa_chunk_id := "c-0001_0";
               pa_bucket := "b"; pa_element_count := None; pa_select_fields := [] |}
            sample_dset [4]) as Hat.
  { split; [by vm_compute |]. split; [reflexivity |]. split; [by vm_compute |].
    split; [reflexivity |].
    exists [10], (Dtype [] false), (Dtype [] false), [Range (Slice 0 4 1)], [4],
      None, (replicate 10 0).
    repeat split; by vm_compute. }
  destruct (PUT_Chunk_content_length (sample_env ∅ 4096) sample_put_short _
              sample_dset [4] Hat) as [Hfixed _].
  destruct (Hfixed 4 12 eq_refl eq_refl ltac:(lia) ltac:(lia) ltac:(discriminate)
              ltac:(repeat constructor; lia) ltac:(vm_compute; reflexivity))
    as [Hreject _].
  apply Hreject; [lia | vm_compute; discriminate].
Defined.
